(** * Shirts legal workflow: orchestrator, agents and retrieval engine

    A shallow embedding of the TypeScript backend:
    - [backend/src/agents/base-agent.ts]      (module [BaseAgent])
    - [backend/src/agents/document-agent.ts]  (module [DocumentAgent])
    - [backend/src/agents/intake-agent.ts]    (module [IntakeAgent])
    - [backend/src/agents/research-agent.ts]  (module [ResearchAgent])
    - [backend/src/agents/workflow-orchestrator.ts] (module [Orchestrator])
    - [backend/src/services/rag.ts]           (module [RAG])

    Conventions of the embedding.
    - An [async] method is run to completion: one call is one function
      application, its result an [Outcome] (returned value or thrown error
      message).  Where the source suspends on an [await] that another caller
      can observe ([BaseAgent.process]), the method is split at that point.
    - Calls that leave the process (the generation service, the embedding
      backend, the vector index library, the file system, the clock) are
      oracles passed as arguments.
    - JavaScript numbers are rationals ([Q]) or integers ([Z]); [Date]
      values are not modelled unless a computation reads them. *)

From Stdlib Require Import QArith Qround.
From stdpp Require Import gmap strings list fin_maps sorting.

Local Open Scope string_scope.
Local Open Scope Z_scope.
Local Open Scope list_scope.

(** ** Results of fallible calls *)

Inductive Outcome (A : Type) : Type :=
| Returned (value : A)
| Threw (message : string).
Arguments Returned {A} value.
Arguments Threw {A} message.

Definition isReturned {A} (r : Outcome A) : bool :=
  match r with Returned _ => true | Threw _ => false end.

#[global] Instance Outcome_ret : MRet Outcome := fun A x => Returned x.
#[global] Instance Outcome_bind : MBind Outcome := fun A B f r =>
  match r with Returned x => f x | Threw m => Threw m end.
#[global] Instance Outcome_fmap : FMap Outcome := fun A B f r =>
  match r with Returned x => Returned (f x) | Threw m => Threw m end.

(** [try { body } catch (error) { handler(error.message) }] *)
Definition try_catch {A} (body : Outcome A) (handler : string -> Outcome A)
  : Outcome A :=
  match body with Returned x => Returned x | Threw m => handler m end.

(** [a || b] on an optional number: [undefined] and [0] are falsy. *)
Definition or_default_Z (a : option Z) (b : Z) : Z :=
  match a with Some x => if decide (x = 0) then b else x | None => b end.

Definition or_default_Q (a : option Q) (b : Q) : Q :=
  match a with Some x => if Qeq_bool x 0 then b else x | None => b end.

(** [a || b] on an optional string: [undefined] and the empty string are
    falsy. *)
Definition or_default_string (a : option string) (b : string) : string :=
  match a with Some x => if decide (x = EmptyString) then b else x | None => b end.

(** ** Shared types ([backend/src/types/index.ts]) *)

Inductive WorkflowStage : Type :=
| plaintiff_intake
| legal_research
| argument_generation
| document_drafting
| review_and_revision
| final_formatting
| completed.

#[global] Instance WorkflowStage_eq_dec : EqDecision WorkflowStage.
Proof. solve_decision. Defined.

(** The string a stage is at run time. *)
Definition stageName (stage : WorkflowStage) : string :=
  match stage with
  | plaintiff_intake => "plaintiff-intake"
  | legal_research => "legal-research"
  | argument_generation => "argument-generation"
  | document_drafting => "document-drafting"
  | review_and_revision => "review-and-revision"
  | final_formatting => "final-formatting"
  | completed => "completed"
  end.

Inductive LegalCategory : Type :=
| civil_litigation
| contract_dispute
| employment_law
| personal_injury
| intellectual_property
| real_estate
| family_law
| criminal_defense
| business_law
| other.

#[global] Instance LegalCategory_eq_dec : EqDecision LegalCategory.
Proof. solve_decision. Defined.

Module Complexity.
Inductive t : Type := low | medium | high.
#[global] Instance eq_dec : EqDecision t.
Proof. solve_decision. Defined.
End Complexity.

Module Urgency.
Inductive t : Type := low | medium | high | critical.
#[global] Instance eq_dec : EqDecision t.
Proof. solve_decision. Defined.
End Urgency.

Inductive CourtLevel : Type := municipal | county | state | federal | supreme.

Inductive CaseStatus : Type :=
| status_intake | status_active | status_review
| status_completed | status_archived | status_cancelled.

Inductive DocumentType : Type :=
| complaint
| motion
| brief
| contract
| settlement_agreement
| discovery_request
| evidence_summary
| legal_memo
| court_filing
| correspondence.

#[global] Instance DocumentType_eq_dec : EqDecision DocumentType.
Proof. solve_decision. Defined.

Inductive DocumentFormat : Type := pdf | docx | html | txt.

Inductive DocumentStatus : Type :=
| draft | review | approved | filed | archived.

Record Document : Type := {
  doc_id : string;
  doc_caseId : string;
  doc_type : DocumentType;
  doc_title : string;
  doc_content : string;
  doc_format : DocumentFormat;
  doc_version : Z;
  doc_status : DocumentStatus;
  doc_generatedBy : string
}.

Record Address : Type := {
  street : string;
  city : string;
  addr_state : string;
  zipCode : string;
  country : string
}.

Record PlaintiffInfo : Type := {
  pi_name : string;
  email : string;
  phone : string;
  address : Address;
  legalIssue : string;
  description : string;
  desiredOutcome : string;
  urgency : Urgency.t
}.

Record CaseDetails : Type := {
  title : string;
  category : LegalCategory;
  jurisdiction : string;
  courtLevel : CourtLevel;
  estimatedDuration : Z;
  complexity : Complexity.t;
  precedents : list string;
  relevantLaws : list string
}.

Record LegalCase : Type := {
  id : string;
  plaintiffInfo : PlaintiffInfo;
  caseDetails : CaseDetails;
  status : CaseStatus;
  workflowStage : WorkflowStage;
  documents : list Document
}.

(** ** JavaScript array and [Set] helpers *)

(** [Array.prototype.includes] on values compared by identity. *)
Definition includes {A} `{EqDecision A} (l : list A) (x : A) : bool :=
  bool_decide (x ∈ l).

(** [new Set(l)] spread back into an array: a [Set] keeps its elements in
    insertion order and ignores an element already present. *)
Definition Set_add {A} `{EqDecision A} (s : list A) (x : A) : list A :=
  if includes s x then s else s ++ [x].

Definition new_Set {A} `{EqDecision A} (l : list A) : list A :=
  foldl Set_add [] l.

(** [Array.prototype.indexOf]: the first position, or -1. *)
Fixpoint indexOf {A} `{EqDecision A} (l : list A) (x : A) : Z :=
  match l with
  | [] => -1
  | y :: l' =>
      if decide (y = x) then 0
      else let i := indexOf l' x in if (i <? 0) then -1 else i + 1
  end.

(** [Math.round]: the nearest integer, a half rounding towards +infinity. *)
Definition Math_round (q : Q) : Z := Qfloor (q + (1 # 2)).

(** ** BaseAgent ([base-agent.ts]) *)

Inductive AgentType : Type :=
| intake_agent
| research_agent
| argument_agent
| document_agent
| review_agent
| rag_retriever
| formatting_agent.

Inductive AgentStatus : Type := idle | processing | error | maintenance.

#[global] Instance AgentStatus_eq_dec : EqDecision AgentStatus.
Proof. solve_decision. Defined.

Module BaseAgent.

Record Agent : Type := {
  agent_id : string;
  name : string;
  type : AgentType;
  agent_description : string;
  capabilities : list string;
  status : AgentStatus;
  currentTask : option string;
  processedCases : Z;
  averageProcessingTime : Q
}.

(** The instance: the descriptor and the in-flight flag. *)
Record t : Type := {
  agent : Agent;
  isProcessing : bool
}.

Definition constructor (uuid name : string) (type : AgentType)
    (description : string) (capabilities : list string) : t :=
  {| agent := {| agent_id := uuid; name := name; type := type;
                 agent_description := description;
                 capabilities := capabilities;
                 status := idle; currentTask := None;
                 processedCases := 0; averageProcessingTime := 0 |};
     isProcessing := false |}.

Definition set_status (s : AgentStatus) (a : Agent) : Agent :=
  {| agent_id := agent_id a; name := name a; type := type a;
     agent_description := agent_description a;
     capabilities := capabilities a;
     status := s; currentTask := currentTask a;
     processedCases := processedCases a;
     averageProcessingTime := averageProcessingTime a |}.

Definition set_currentTask (task : option string) (a : Agent) : Agent :=
  {| agent_id := agent_id a; name := name a; type := type a;
     agent_description := agent_description a;
     capabilities := capabilities a;
     status := status a; currentTask := task;
     processedCases := processedCases a;
     averageProcessingTime := averageProcessingTime a |}.

Definition updateMetrics (processingTime : Z) (a : Agent) : Agent :=
  let n := processedCases a + 1 in
  {| agent_id := agent_id a; name := name a; type := type a;
     agent_description := agent_description a;
     capabilities := capabilities a;
     status := status a; currentTask := currentTask a;
     processedCases := n;
     averageProcessingTime :=
       if decide (n = 1) then inject_Z processingTime
       else ((averageProcessingTime a * inject_Z (n - 1)
              + inject_Z processingTime) / inject_Z n)%Q |}.

Definition busyMessage (this : t) : string :=
  "Agent " +:+ name (agent this) +:+ " is already processing a case".

(** [process], from its entry to the [await] on [executeTask]: the
    single-flight guard, then the flag and the status are set. *)
Definition process_enter (this : t) (caseData : LegalCase)
  : t * Outcome unit :=
  if isProcessing this then (this, Threw (busyMessage this))
  else
    ({| agent := set_currentTask
                   (Some ("Processing case " +:+ id caseData))
                   (set_status processing (agent this));
        isProcessing := true |},
     Returned tt).

(** The [finally] block. *)
Definition process_finally (this : t) : t :=
  let a := set_currentTask None (agent this) in
  {| agent := if decide (status a <> error) then set_status idle a else a;
     isProcessing := false |}.

(** [process], from the moment [executeTask] settles with [result]:
    the rest of the [try] block or the [catch] block, then [finally].
    [processingTime] is the clock difference [endTime - startTime]. *)
Definition process_settle (this : t) (result : Outcome LegalCase)
    (processingTime : Z) : t * Outcome LegalCase :=
  match result with
  | Returned updated =>
      (process_finally
         {| agent := updateMetrics processingTime (agent this);
            isProcessing := isProcessing this |},
       Returned updated)
  | Threw message =>
      (process_finally
         {| agent := set_status error (agent this);
            isProcessing := isProcessing this |},
       Threw message)
  end.

(** One uninterrupted call of [process]. *)
Definition process (executeTask : LegalCase -> Outcome LegalCase)
    (processingTime : Z) (this : t) (caseData : LegalCase)
  : t * Outcome LegalCase :=
  match process_enter this caseData with
  | (this', Threw message) => (this', Threw message)
  | (this', Returned _) =>
      process_settle this' (executeTask caseData) processingTime
  end.

Definition getStatus (this : t) : AgentStatus := status (agent this).

Definition isAvailable (this : t) : bool :=
  bool_decide (status (agent this) = idle) && negb (isProcessing this).

Definition setMaintenanceMode (enabled : bool) (this : t) : t * Outcome unit :=
  if isProcessing this
  then (this, Threw "Cannot set maintenance mode while processing")
  else ({| agent := set_status (if enabled then maintenance else idle)
                               (agent this);
           isProcessing := isProcessing this |},
        Returned tt).

(** [healthCheck]: the probe of the variant ([performHealthCheck]); when
    the probe throws, the status becomes [error] and the answer is
    [false]. *)
Definition healthCheck (performHealthCheck : Outcome bool) (this : t)
  : t * bool :=
  match performHealthCheck with
  | Returned healthy => (this, healthy)
  | Threw _ =>
      ({| agent := set_status error (agent this);
          isProcessing := isProcessing this |}, false)
  end.

(** [getAgentInfo]: a copy of the descriptor. *)
Definition getAgentInfo (this : t) : Agent := agent this.

End BaseAgent.

(** ** Retrieval engine ([services/rag.ts]) *)

(** Strict [<] on numbers. *)
Definition Qlt_b (x y : Q) : bool := negb (Qle_bool y x).

(** [ToInt32]: the two's complement wrap-around of the bit operators. *)
Definition toInt32 (z : Z) : Z := (z + 2 ^ 31) mod 2 ^ 32 - 2 ^ 31.

(** [String.prototype.charCodeAt] along the whole string (texts of
    one-byte code units). *)
Fixpoint charCodes (str : string) : list Z :=
  match str with
  | EmptyString => []
  | String c rest => Z.of_N (Ascii.N_of_ascii c) :: charCodes rest
  end.

Module RAG.

(** [metadata] is untyped in the service; the fields the service reads
    are optional ([None] is [undefined]), [date] is a time in ms. *)
Record Metadata : Type := {
  md_type : option string;
  md_jurisdiction : option string;
  md_date : option Z;
  md_citation : option string
}.

(** The argument of [addDocument]. *)
Record InputDocument : Type := {
  in_id : string;
  in_title : string;
  in_content : string;
  in_source : string;
  in_metadata : option Metadata
}.

(** A value of the [documents] map: the input spread plus [index]. *)
Record StoredDocument : Type := {
  sd_id : string;
  sd_title : string;
  sd_content : string;
  sd_source : string;
  sd_metadata : option Metadata;
  sd_index : nat
}.

(** An element of the array [searchSimilar] returns:
    [{...document, score}]. *)
Record ScoredDocument : Type := {
  stored : StoredDocument;
  score : Q
}.

Record RetrievedDocument : Type := {
  id : string;
  title : string;
  content : string;
  source : string;
  relevanceScore : Q;
  metadata : option Metadata
}.

Record DateRange : Type := {
  dr_start : option Z;
  dr_end : option Z
}.

Record RAGFilters : Type := {
  documentType : option (list string);
  jurisdiction : option (list string);
  dateRange : option DateRange;
  filter_relevanceScore : option Q
}.

Record RAGQuery : Type := {
  query_text : string;
  context : string;
  filters : option RAGFilters;
  maxResults : option Z;
  threshold : option Q
}.

Record RAGResult : Type := {
  documents : list RetrievedDocument;
  totalResults : Z;
  queryTime : Z;
  confidence : Q
}.

Definition Vec : Type := list Q.

Definition vectorDimension : Z := 1536.

Section Service.

(** The state of the vector index of the external library. *)
Variable Index : Type.

(** What a call reads from outside the service. *)
Record Env : Type := {
  (** [process.env.OPENAI_API_KEY] is set *)
  OPENAI_API_KEY : bool;
  (** [openai.embeddings.create(...)] then [.data[0].embedding] *)
  embeddings_create : string -> Outcome Vec;
  (** [Math.sin] at an integer argument *)
  Math_sin : Z -> Q;
  (** [fs.access(indexFile)], [new HNSWLib], [readIndex(indexFile)] *)
  readIndex : Outcome Index;
  (** [new HNSWLib('cosine', 1536)], [initIndex(1000)] *)
  newIndex : Outcome Index;
  (** [vectorIndex.addPoint(embedding, label)] *)
  addPoint : Index -> Vec -> nat -> Outcome Index;
  (** [vectorIndex.searchKnn(query, k)]: the pairs
      [(neighbors[i], distances[i])] *)
  searchKnn : Index -> Vec -> Z -> Outcome (list (nat * Q));
  (** [vectorIndex.writeIndex(indexFile)] *)
  writeIndex : Index -> Outcome unit;
  (** [vectorIndex.getCurrentCount()] *)
  getCurrentCount : Index -> Z;
  (** [fs.readFile(documentsFile)] then [JSON.parse] *)
  readDocumentsFile : Outcome (list StoredDocument);
  (** [fs.writeFile(documentsFile, ...)] *)
  writeDocumentsFile : list StoredDocument -> Outcome unit;
  (** [Date.now() - startTime] when the call ends *)
  elapsed : Z
}.

Record t : Type := {
  vectorIndex : option Index;
  service_documents : gmap nat StoredDocument;
  isInitialized : bool
}.

Definition constructor : t :=
  {| vectorIndex := None; service_documents := ∅; isInitialized := false |}.

Variable env : Env.

Definition simpleHash_step (hash char : Z) : Z :=
  let hash := toInt32 (hash * 2 ^ 5) - hash + char in
  toInt32 hash.

Definition simpleHash (str : string) : Z :=
  Z.abs (foldl simpleHash_step 0 (charCodes str)).

Definition getMockEmbedding (text : string) : Vec :=
  let hash := simpleHash text in
  map (fun i => (Math_sin env (hash * (i + 1)) * (1 # 10))%Q)
      (seqZ 0 vectorDimension).

Definition getEmbedding (text : string) : Outcome Vec :=
  try_catch
    (if negb (OPENAI_API_KEY env) then Returned (getMockEmbedding text)
     else embeddings_create env (String.substring 0 (Z.to_nat 8000) text))
    (fun _ => Returned (getMockEmbedding text)).

Definition loadOrCreateIndex (this : t) : Outcome t :=
  idx ← try_catch (readIndex env) (fun _ => newIndex env);
  Returned {| vectorIndex := Some idx;
          service_documents := service_documents this;
          isInitialized := isInitialized this |}.

Definition loadDocuments (this : t) : t :=
  match readDocumentsFile env with
  | Returned documentsArray =>
      {| vectorIndex := vectorIndex this;
         service_documents :=
           foldl (fun m doc => <[sd_index doc := doc]> m) ∅ documentsArray;
         isInitialized := isInitialized this |}
  | Threw _ => this
  end.

(** [ensureDirectoryExists] swallows its error; a failure to build an
    index is rethrown with the prefix. *)
Definition initialize (this : t) : t * Outcome unit :=
  match loadOrCreateIndex this with
  | Returned this1 =>
      let this2 := loadDocuments this1 in
      ({| vectorIndex := vectorIndex this2;
          service_documents := service_documents this2;
          isInitialized := true |}, Returned tt)
  | Threw message =>
      (this, Threw ("RAG Service initialization failed: " +:+ message))
  end.

Definition scoreNeighbor (this : t) (threshold : Q) (hit : nat * Q)
  : option ScoredDocument :=
  match service_documents this !! hit.1 with
  | None => None
  | Some document =>
      let score := (1 - hit.2)%Q in
      if Qlt_b score threshold then None
      else Some {| stored := document; score := score |}
  end.

Definition searchSimilar (this : t) (queryEmbedding : Vec)
    (maxResults : Z) (threshold : Q) : Outcome (list ScoredDocument) :=
  match vectorIndex this with
  | None => Returned []
  | Some idx =>
      if decide (size (service_documents this) = 0%nat) then Returned []
      else
        searchResults ← searchKnn env idx queryEmbedding maxResults;
        Returned (omap (M:=list) (scoreNeighbor this threshold) searchResults)
  end.

(** [list.includes(x)] where [x] may be [undefined]. *)
Definition includes_opt (l : list string) (x : option string) : bool :=
  match x with Some v => includes l v | None => false end.

(** [docDate < bound]; an invalid date compares false. *)
Definition date_lt (a b : option Z) : bool :=
  match a, b with Some x, Some y => x <? y | _, _ => false end.

(** The callback of [results.filter] in [applyFilters]; reading a field
    of a missing [metadata] throws. *)
Definition passesFilters (f : RAGFilters) (result : ScoredDocument)
  : Outcome bool :=
  let md := sd_metadata (stored result) in
  let missing : Outcome bool :=
    Threw "Cannot read properties of undefined" in
  typeOk ←
    match documentType f with
    | Some (ty :: tys) =>
        match md with
        | Some m => Returned (includes_opt (ty :: tys) (md_type m))
        | None => missing
        end
    | _ => Returned true
    end;
  if negb typeOk then Returned false else
  jurOk ←
    match jurisdiction f with
    | Some (j :: js) =>
        match md with
        | Some m => Returned (includes_opt (j :: js) (md_jurisdiction m))
        | None => missing
        end
    | _ => Returned true
    end;
  if negb jurOk then Returned false else
  dateOk ←
    match dateRange f with
    | Some range =>
        match md with
        | Some m =>
            Returned
              (negb (date_lt (md_date m) (dr_start range))
               && negb (date_lt (dr_end range) (md_date m)))
        | None => missing
        end
    | None => Returned true
    end;
  if negb dateOk then Returned false else
  match filter_relevanceScore f with
  | Some minScore =>
      Returned (negb (negb (Qeq_bool minScore 0)
                      && Qlt_b (score result) minScore))
  | None => Returned true
  end.

Fixpoint filterM (f : RAGFilters) (results : list ScoredDocument)
  : Outcome (list ScoredDocument) :=
  match results with
  | [] => Returned []
  | result :: rest =>
      keep ← passesFilters f result;
      kept ← filterM f rest;
      Returned (if keep : bool then result :: kept else kept)
  end.

Definition applyFilters (results : list ScoredDocument)
    (filters : option RAGFilters) : Outcome (list ScoredDocument) :=
  match filters with
  | None => Returned results
  | Some f => filterM f results
  end.

Definition toRetrieved (result : ScoredDocument) : RetrievedDocument :=
  {| id := sd_id (stored result);
     title := sd_title (stored result);
     content := sd_content (stored result);
     source := sd_source (stored result);
     relevanceScore := score result;
     metadata := sd_metadata (stored result) |}.

Definition sumScores (docs : list RetrievedDocument) : Q :=
  foldl (fun sum doc => (sum + relevanceScore doc)%Q) 0%Q docs.

Definition emptyResult : RAGResult :=
  {| documents := []; totalResults := 0;
     queryTime := elapsed env; confidence := 0 |}.

(** The [try] block of [query]. *)
Definition query_body (this : t) (request : RAGQuery) : Outcome RAGResult :=
  queryEmbedding ← getEmbedding (query_text request);
  searchResults ←
    searchSimilar this queryEmbedding
      (or_default_Z (maxResults request) 10)
      (or_default_Q (threshold request) (7 # 10));
  filteredResults ← applyFilters searchResults (filters request);
  let retrievedDocuments := map toRetrieved filteredResults in
  Returned {| documents := retrievedDocuments;
          totalResults := Z.of_nat (length retrievedDocuments);
          queryTime := elapsed env;
          confidence :=
            match retrievedDocuments with
            | [] => 0
            | _ => sumScores retrievedDocuments
                   / inject_Z (Z.of_nat (length retrievedDocuments))
            end%Q |}.

Definition query (request : RAGQuery) (this : t) : t * Outcome RAGResult :=
  let '(this, ready) :=
    if isInitialized this then (this, Returned tt) else initialize this in
  match ready with
  | Threw message => (this, Threw message)
  | Returned _ =>
      (this, try_catch (query_body this request)
                       (fun _ => Returned emptyResult))
  end.

Definition saveDocuments (this : t) : Outcome unit :=
  _ ← writeDocumentsFile env (map_to_list (service_documents this)).*2;
  match vectorIndex this with
  | Some idx => writeIndex env idx
  | None => Returned tt
  end.

Definition store (document : InputDocument) (docIndex : nat)
  : StoredDocument :=
  {| sd_id := in_id document; sd_title := in_title document;
     sd_content := in_content document; sd_source := in_source document;
     sd_metadata := in_metadata document; sd_index := docIndex |}.

(** [addDocument]; every error of the [try] block is rethrown, the
    mutations made before it stay. *)
Definition addDocument (document : InputDocument) (this : t)
  : t * Outcome unit :=
  let '(this, ready) :=
    if isInitialized this then (this, Returned tt) else initialize this in
  match ready with
  | Threw message => (this, Threw message)
  | Returned _ =>
      match getEmbedding (in_content document) with
      | Threw message => (this, Threw message)
      | Returned embedding =>
          let docIndex := size (service_documents this) in
          let added : Outcome (option Index) :=
            match vectorIndex this with
            | Some idx => Some <$> addPoint env idx embedding docIndex
            | None => Returned None
            end in
          match added with
          | Threw message => (this, Threw message)
          | Returned vectorIndex' =>
              let this' :=
                {| vectorIndex := vectorIndex';
                   service_documents :=
                     <[docIndex := store document docIndex]>
                       (service_documents this);
                   isInitialized := isInitialized this |} in
              (this', saveDocuments this')
          end
      end
  end.

Definition healthCheck (this : t) : bool :=
  isInitialized this && bool_decide (is_Some (vectorIndex this)).

End Service.

Arguments OPENAI_API_KEY {Index} _.
Arguments embeddings_create {Index} _ _.
Arguments Math_sin {Index} _ _.
Arguments readIndex {Index} _.
Arguments newIndex {Index} _.
Arguments addPoint {Index} _ _ _ _.
Arguments searchKnn {Index} _ _ _ _.
Arguments writeIndex {Index} _ _.
Arguments getCurrentCount {Index} _ _.
Arguments readDocumentsFile {Index} _.
Arguments writeDocumentsFile {Index} _ _.
Arguments elapsed {Index} _.
Arguments vectorIndex {Index} _.
Arguments service_documents {Index} _.
Arguments isInitialized {Index} _.

End RAG.

(** ** Generation service interface ([services/gemini.ts]) *)

Record GeminiRequest : Type := {
  prompt : string;
  systemPrompt : option string;
  temperature : option Q;
  maxTokens : option Z
}.

Record GeminiResponse : Type := {
  response_content : string;
  response_model : string
}.

(** [String.prototype.includes]. *)
Definition string_includes (s sub : string) : bool :=
  bool_decide (is_Some (String.index 0 sub s)).

(** ** IntakeAgent ([intake-agent.ts]) *)

Module IntakeAgent.

(** The fields read from the parsed reply of the model. *)
Record PlaintiffAnalysis : Type := {
  recommendedUrgency : option Urgency.t;
  enhancedDescription : option string
}.

Record CaseAnalysis : Type := {
  complexityAssessment : option Complexity.t;
  analysis_estimatedDuration : option Z;
  suggestedPrecedents : option (list string);
  relevantStatutes : option (list string)
}.

Record Env : Type := {
  (** [geminiService.generateContent] *)
  generateContent : GeminiRequest -> Outcome GeminiResponse;
  (** [JSON.parse] followed by the field reads *)
  parsePlaintiffAnalysis : string -> Outcome PlaintiffAnalysis;
  parseCaseAnalysis : string -> Outcome CaseAnalysis;
  (** [validateInput(plaintiffInfoSchema, _)], [validateInput(caseDetailsSchema, _)] *)
  validatePlaintiff : PlaintiffInfo -> Outcome PlaintiffInfo;
  validateDetails : CaseDetails -> Outcome CaseDetails;
  (** the prompt templates *)
  enhancePrompt : PlaintiffInfo -> string;
  complexityPrompt : CaseDetails -> PlaintiffInfo -> string
}.

Section Agent.
Variable env : Env.

Definition enhancePlaintiffInfo (info : PlaintiffInfo)
  : Outcome PlaintiffInfo :=
  try_catch
    (response ← generateContent env
       {| prompt := enhancePrompt env info;
          systemPrompt := Some "You are a legal intake specialist with expertise in case categorization and risk assessment.";
          temperature := Some (3 # 10); maxTokens := Some 1000 |};
     analysis ← parsePlaintiffAnalysis env (response_content response);
     Returned
       {| pi_name := pi_name info; email := email info;
          phone := phone info; address := address info;
          legalIssue := legalIssue info;
          description :=
            or_default_string (enhancedDescription analysis)
                              (description info);
          desiredOutcome := desiredOutcome info;
          urgency := default (urgency info) (recommendedUrgency analysis) |})
    (fun _ => Returned info).

Definition validatePlaintiffInfo (info : PlaintiffInfo)
  : Outcome PlaintiffInfo :=
  try_catch
    (validatedInfo ← validatePlaintiff env info;
     enhancePlaintiffInfo validatedInfo)
    (fun m => Threw ("Plaintiff information validation failed: " +:+ m)).

Definition analyzeCaseComplexity (details : CaseDetails)
    (info : PlaintiffInfo) : Outcome CaseDetails :=
  try_catch
    (response ← generateContent env
       {| prompt := complexityPrompt env details info;
          systemPrompt := Some "You are an experienced legal case analyst with expertise in case complexity assessment and strategic planning.";
          temperature := Some (2 # 10); maxTokens := Some 1500 |};
     analysis ← parseCaseAnalysis env (response_content response);
     Returned
       {| title := title details; category := category details;
          jurisdiction := jurisdiction details;
          courtLevel := courtLevel details;
          estimatedDuration :=
            or_default_Z (analysis_estimatedDuration analysis)
                         (estimatedDuration details);
          complexity :=
            default (complexity details) (complexityAssessment analysis);
          precedents :=
            default (precedents details) (suggestedPrecedents analysis);
          relevantLaws :=
            default (relevantLaws details) (relevantStatutes analysis) |})
    (fun _ => Returned details).

Definition enhanceCaseDetails (details : CaseDetails)
    (info : PlaintiffInfo) : Outcome CaseDetails :=
  try_catch
    (validatedDetails ← validateDetails env details;
     analyzeCaseComplexity validatedDetails info)
    (fun m => Threw ("Case details validation failed: " +:+ m)).

Definition executeTask (caseData : LegalCase) : Outcome LegalCase :=
  info ← validatePlaintiffInfo (plaintiffInfo caseData);
  details ← enhanceCaseDetails (caseDetails caseData) info;
  Returned {| id := id caseData; plaintiffInfo := info;
              caseDetails := details; status := status_active;
              workflowStage := legal_research;
              documents := documents caseData |}.

End Agent.

End IntakeAgent.

(** ** ResearchAgent ([research-agent.ts]) *)

Module ResearchAgent.

(** An element of the parsed precedent ranking. *)
Record RankedPrecedent : Type := {
  caseName : string;
  principle : string;
  relevance : Q
}.

Record RankedLaw : Type := {
  citation : string;
  section : string;
  application : string
}.

Record Env : Type := {
  generateContent : GeminiRequest -> Outcome GeminiResponse;
  (** [JSON.parse] of the reply, read as an array of entries *)
  parsePrecedents : string -> Outcome (list RankedPrecedent);
  parseLaws : string -> Outcome (list RankedLaw);
  (** the prompt templates *)
  analysisPrompt : LegalCase -> list RAG.RetrievedDocument -> string;
  precedentPrompt : LegalCase -> list RAG.RetrievedDocument -> string;
  lawPrompt : LegalCase -> list RAG.RetrievedDocument -> string;
  buildResearchQuery : LegalCase -> string;
  buildResearchContext : LegalCase -> string
}.

Section Agent.
Variable Index : Type.
Variable env : Env.
Variable ragEnv : RAG.Env Index.

(** [doc.metadata.type]; reading it from a missing [metadata] throws. *)
Definition typeOf (doc : RAG.RetrievedDocument) : Outcome (option string) :=
  match RAG.metadata doc with
  | Some m => Returned (RAG.md_type m)
  | None => Threw "Cannot read properties of undefined (reading 'type')"
  end.

(** [documents.filter(doc => types.includes(doc.metadata.type))] *)
Fixpoint filterByType (types : list string) (docs : list RAG.RetrievedDocument)
  : Outcome (list RAG.RetrievedDocument) :=
  match docs with
  | [] => Returned []
  | doc :: rest =>
      ty ← typeOf doc;
      kept ← filterByType types rest;
      Returned (if RAG.includes_opt types ty then doc :: kept else kept)
  end.

(** No [try] here: a failure of the generation call is thrown on. *)
Definition analyzeResearchResults (caseData : LegalCase)
    (docs : list RAG.RetrievedDocument) : Outcome string :=
  response ← generateContent env
    {| prompt := analysisPrompt env caseData (take 10 docs);
       systemPrompt := Some "You are an expert legal researcher with deep knowledge of case law analysis and legal strategy.";
       temperature := Some (3 # 10); maxTokens := Some 2500 |};
  Returned (response_content response).

Definition identifyKeyPrecedents (caseData : LegalCase)
    (docs : list RAG.RetrievedDocument) : Outcome (list string) :=
  precedentDocs ← take 15 <$> filterByType ["case-law"] docs;
  match precedentDocs with
  | [] => Returned []
  | _ =>
      try_catch
        (response ← generateContent env
           {| prompt := precedentPrompt env caseData precedentDocs;
              systemPrompt := Some "You are a legal precedent analysis expert with expertise in case law relevance assessment.";
              temperature := Some (2 # 10); maxTokens := Some 2000 |};
         ranked ← parsePrecedents env (response_content response);
         Returned
           (map (fun p => caseName p +:+ " - " +:+ principle p)
                (filter (fun p => Qle_bool 7 (relevance p)) ranked)))
        (fun _ => Returned (map RAG.title (take 5 precedentDocs)))
  end.

Definition extractRelevantLaws (caseData : LegalCase)
    (docs : list RAG.RetrievedDocument) : Outcome (list string) :=
  statuteDocs ← take 10 <$> filterByType ["statute"; "regulation"] docs;
  match statuteDocs with
  | [] => Returned []
  | _ =>
      try_catch
        (response ← generateContent env
           {| prompt := lawPrompt env caseData statuteDocs;
              systemPrompt := Some "You are a legal statute analysis expert with expertise in regulatory compliance and legal application.";
              temperature := Some (2 # 10); maxTokens := Some 1500 |};
         laws ← parseLaws env (response_content response);
         Returned
           (map (fun law => citation law +:+ " " +:+ section law
                             +:+ " - " +:+ application law) laws))
        (fun _ => Returned (map RAG.title (take 5 statuteDocs)))
  end.

Definition researchRequest (caseData : LegalCase) : RAG.RAGQuery :=
  {| RAG.query_text := buildResearchQuery env caseData;
     RAG.context := buildResearchContext env caseData;
     RAG.filters :=
       Some {| RAG.jurisdiction := Some [jurisdiction (caseDetails caseData)];
               RAG.documentType := Some ["case-law"; "statute"; "regulation"];
               RAG.dateRange := None;
               RAG.filter_relevanceScore := None |};
     RAG.maxResults := Some 20;
     RAG.threshold := Some (7 # 10) |}.

(** The agent owns a retrieval service; its state is threaded. *)
Definition executeTask (ragService : RAG.t Index) (caseData : LegalCase)
  : RAG.t Index * Outcome LegalCase :=
  let '(ragService, queried) :=
    RAG.query Index ragEnv (researchRequest caseData) ragService in
  (ragService,
   ragResults ← queried;
   _ ← analyzeResearchResults caseData (RAG.documents ragResults);
   enhancedPrecedents ←
     identifyKeyPrecedents caseData (RAG.documents ragResults);
   laws ← extractRelevantLaws caseData (RAG.documents ragResults);
   let details := caseDetails caseData in
   Returned
     {| id := id caseData; plaintiffInfo := plaintiffInfo caseData;
        caseDetails :=
          {| title := title details; category := category details;
             jurisdiction := jurisdiction details;
             courtLevel := courtLevel details;
             estimatedDuration := estimatedDuration details;
             complexity := complexity details;
             precedents := precedents details ++ enhancedPrecedents;
             relevantLaws := relevantLaws details ++ laws |};
        status := status caseData;
        workflowStage := argument_generation;
        documents := documents caseData |}).

End Agent.

End ResearchAgent.

(** ** DocumentGeneratorService ([services/document-generator.ts]) *)

Module DocumentGeneratorService.

Record Env : Type := {
  (** [geminiService.generateLegalDocument(type, case, template)] *)
  generateLegalDocument : DocumentType -> LegalCase -> Outcome string;
  formatDocumentContent : string -> DocumentType -> string;
  (** [generatePDF], [generateDOCX] or [fs.writeFile] on the output path *)
  writeOutput : DocumentFormat -> string -> Outcome unit;
  generateHTML : string -> string;
  generateDocumentTitle : DocumentType -> LegalCase -> string;
  (** [uuidv4()] drawn for a document *)
  uuidv4 : DocumentType -> DocumentFormat -> string
}.

Section Service.
Variable env : Env.

Definition generateDocumentContent (caseData : LegalCase)
    (documentType : DocumentType) : Outcome string :=
  response ← generateLegalDocument env documentType caseData;
  Returned (formatDocumentContent env response documentType).

Definition generateDocument (caseData : LegalCase)
    (documentType : DocumentType) (format : DocumentFormat)
  : Outcome Document :=
  try_catch
    (content ← generateDocumentContent caseData documentType;
     let finalContent :=
       match format with
       | html => generateHTML env content
       | _ => content
       end in
     _ ← writeOutput env format finalContent;
     Returned
       {| doc_id := uuidv4 env documentType format;
          doc_caseId := id caseData;
          doc_type := documentType;
          doc_title := generateDocumentTitle env documentType caseData;
          doc_content := finalContent;
          doc_format := format;
          doc_version := 1;
          doc_status := draft;
          doc_generatedBy := "Document Generation Service" |})
    (fun m => Threw ("Document generation failed: " +:+ m)).

(** [validateDocument(...).isValid]: no issue was recorded.  The model
    review inside it only adds suggestions and its failure is caught. *)
Definition isValid (document : Document) : bool :=
  negb (Nat.ltb (String.length (doc_content document)) 100)
  && negb (bool_decide (doc_type document = complaint)
           && negb (string_includes (doc_content document)
                                    "CAUSES OF ACTION")).

End Service.

End DocumentGeneratorService.

(** ** DocumentAgent ([document-agent.ts]) *)

Module DocumentAgent.

(** [determineDocumentsNeeded]: [push] appends, [unshift] prepends, the
    result is the array spread of a [Set]. *)
Definition categoryDocuments (c : LegalCategory) : list DocumentType :=
  match c with
  | civil_litigation => [complaint; discovery_request]
  | contract_dispute => [complaint; motion; legal_memo]
  | employment_law => [complaint; discovery_request; legal_memo]
  | personal_injury => [complaint; discovery_request; evidence_summary]
  | intellectual_property => [complaint; motion; brief]
  | real_estate => [contract; legal_memo]
  | family_law => [complaint; motion]
  | criminal_defense => [motion; brief]
  | business_law => [contract; legal_memo]
  | _ => [legal_memo]
  end.

Definition documentsBeforeDedup (caseData : LegalCase) : list DocumentType :=
  let documents := categoryDocuments (category (caseDetails caseData)) in
  let documents :=
    if decide (complexity (caseDetails caseData) = Complexity.high)
    then documents ++ [brief] else documents in
  let documents :=
    if decide (urgency (plaintiffInfo caseData) = Urgency.critical)
    then motion :: documents else documents in
  documents.

Definition determineDocumentsNeeded (caseData : LegalCase) : list DocumentType :=
  new_Set (documentsBeforeDedup caseData).

Section Agent.
Variable env : DocumentGeneratorService.Env.

(** The first loop of [executeTask]: both formats are pushed together
    after both were generated; the [catch] only reports and the loop
    goes on with the next type. *)
Fixpoint generateAll (caseData : LegalCase)
    (documentsToGenerate : list DocumentType)
    (generatedDocuments : list Document) : Outcome (list Document) :=
  match documentsToGenerate with
  | [] => Returned generatedDocuments
  | documentType :: rest =>
      generatedDocuments ←
        try_catch
          (pdfDocument ←
             DocumentGeneratorService.generateDocument env caseData
               documentType pdf;
           docxDocument ←
             DocumentGeneratorService.generateDocument env caseData
               documentType docx;
           Returned (generatedDocuments ++ [pdfDocument; docxDocument]))
          (fun _ => Returned generatedDocuments);
      generateAll caseData rest generatedDocuments
  end.

Definition set_doc_status (st : DocumentStatus) (d : Document) : Document :=
  {| doc_id := doc_id d; doc_caseId := doc_caseId d;
     doc_type := doc_type d; doc_title := doc_title d;
     doc_content := doc_content d; doc_format := doc_format d;
     doc_version := doc_version d; doc_status := st;
     doc_generatedBy := doc_generatedBy d |}.

(** The second loop: validation sets the status and never stops. *)
Definition validateAll (generatedDocuments : list Document)
  : list Document :=
  map (fun document =>
         if DocumentGeneratorService.isValid document
         then set_doc_status approved document
         else set_doc_status review document)
      generatedDocuments.

Definition executeTask (caseData : LegalCase) : Outcome LegalCase :=
  let documentsToGenerate := determineDocumentsNeeded caseData in
  generatedDocuments ← generateAll caseData documentsToGenerate [];
  let generatedDocuments := validateAll generatedDocuments in
  Returned {| id := id caseData;
              plaintiffInfo := plaintiffInfo caseData;
              caseDetails := caseDetails caseData;
              status := status caseData;
              workflowStage := review_and_revision;
              documents := documents caseData ++ generatedDocuments |}.


End Agent.

End DocumentAgent.

(** ** WorkflowOrchestrator ([workflow-orchestrator.ts]) *)

Module Orchestrator.

Inductive Severity : Type := sev_low | sev_medium | sev_high | sev_critical.

Record WorkflowLog : Type := {
  log_stage : WorkflowStage;
  log_agent : string;
  action : string;
  details : string;
  duration : Z
}.

Record WorkflowError : Type := {
  err_stage : WorkflowStage;
  err_agent : string;
  err_error : string;
  severity : Severity;
  resolved : bool
}.

Record WorkflowState : Type := {
  caseId : string;
  currentStage : WorkflowStage;
  completedStages : list WorkflowStage;
  progress : Z;
  estimatedCompletion : Q;
  logs : list WorkflowLog;
  errors : list WorkflowError
}.

(** The events the orchestrator emits itself, in emission order.  The
    [state] payload is the workflow record by reference and is left out. *)
Inductive Event : Type :=
| workflow_started (workflowId caseId : string)
| workflow_processing_required (workflowId : string)
| workflow_progress (workflowId caseId : string) (progress : Z)
    (currentStage : WorkflowStage)
| workflow_stage_started (workflowId caseId : string) (stage : WorkflowStage)
| workflow_stage_completed (workflowId caseId : string)
    (stage : WorkflowStage) (duration : Z)
| workflow_stage_failed (workflowId caseId : string)
    (stage : WorkflowStage) (error : string)
| workflow_completed (workflowId caseId : string)
| workflow_failed (workflowId caseId : string) (error : string)
| workflow_paused (workflowId caseId : string)
| workflow_cancelled (workflowId caseId : string).

Record t : Type := {
  agents : gmap string BaseAgent.t;
  activeWorkflows : gmap string WorkflowState;
  workflowQueue : list string;
  isProcessing : bool
}.

(** What one call reads from outside the orchestrator. *)
Record Env : Type := {
  (** [uuidv4()] *)
  uuidv4 : string;
  (** [Date.now()], in ms *)
  now : Q;
  (** how [executeTask] of the agent assigned to a stage settles when
      [process] is called for that stage *)
  executeTask : WorkflowStage -> LegalCase -> Outcome LegalCase;
  (** the clock difference the agent measures *)
  processingTime : WorkflowStage -> Z;
  (** the clock difference the orchestrator measures *)
  stageDuration : WorkflowStage -> Z
}.

(** [initializeAgents]; the three identifiers are drawn by [uuidv4]. *)
Definition initializeAgents (u1 u2 u3 : string) : gmap string BaseAgent.t :=
  <["document" :=
      BaseAgent.constructor u3 "Legal Document Agent" document_agent
        "Generates professional legal documents from case data and templates"
        ["Legal document generation";
         "Multi-format output (PDF, DOCX, HTML)";
         "Template-based document creation";
         "Court-ready formatting";
         "Document validation and review"]]>
  (<["research" :=
      BaseAgent.constructor u2 "Legal Research Agent" research_agent
        "Conducts comprehensive legal research using RAG and AI analysis"
        ["Case law research"; "Statute analysis";
         "Precedent identification"; "Legal principle extraction";
         "Jurisdiction-specific research";
         "RAG-powered document retrieval"]]>
  (<["intake" :=
      BaseAgent.constructor u1 "Legal Intake Agent" intake_agent
        "Processes initial plaintiff intake forms and validates legal case information"
        ["Plaintiff information validation";
         "Legal issue categorization"; "Urgency assessment";
         "Initial case evaluation";
         "Data sanitization and formatting"]]> ∅)).

Definition constructor (u1 u2 u3 : string) : t :=
  {| agents := initializeAgents u1 u2 u3; activeWorkflows := ∅;
     workflowQueue := []; isProcessing := false |}.

Definition getWorkflowStages : list WorkflowStage :=
  [plaintiff_intake; legal_research; argument_generation;
   document_drafting; review_and_revision; final_formatting].

(** The key under which [getAgentForStage] looks the agent up. *)
Definition agentKeyForStage (stage : WorkflowStage) : option string :=
  match stage with
  | plaintiff_intake => Some "intake"
  | legal_research => Some "research"
  | argument_generation => Some "research"
  | document_drafting => Some "document"
  | review_and_revision => Some "document"
  | final_formatting => Some "document"
  | _ => None
  end.

Definition getAgentForStage (agents : gmap string BaseAgent.t)
    (stage : WorkflowStage) : option (string * BaseAgent.t) :=
  key ← agentKeyForStage stage;
  agent ← agents !! key;
  Some (key, agent).

(** *** Mutations of one workflow record *)

Definition set_currentStage (stage : WorkflowStage) (ws : WorkflowState)
  : WorkflowState :=
  {| caseId := caseId ws; currentStage := stage;
     completedStages := completedStages ws; progress := progress ws;
     estimatedCompletion := estimatedCompletion ws;
     logs := logs ws; errors := errors ws |}.

Definition set_progress (p : Z) (ws : WorkflowState) : WorkflowState :=
  {| caseId := caseId ws; currentStage := currentStage ws;
     completedStages := completedStages ws; progress := p;
     estimatedCompletion := estimatedCompletion ws;
     logs := logs ws; errors := errors ws |}.

Definition push_completedStage (stage : WorkflowStage) (ws : WorkflowState)
  : WorkflowState :=
  {| caseId := caseId ws; currentStage := currentStage ws;
     completedStages := completedStages ws ++ [stage];
     progress := progress ws;
     estimatedCompletion := estimatedCompletion ws;
     logs := logs ws; errors := errors ws |}.

Definition push_log (log : WorkflowLog) (ws : WorkflowState) : WorkflowState :=
  {| caseId := caseId ws; currentStage := currentStage ws;
     completedStages := completedStages ws; progress := progress ws;
     estimatedCompletion := estimatedCompletion ws;
     logs := logs ws ++ [log]; errors := errors ws |}.

Definition push_error (e : WorkflowError) (ws : WorkflowState) : WorkflowState :=
  {| caseId := caseId ws; currentStage := currentStage ws;
     completedStages := completedStages ws; progress := progress ws;
     estimatedCompletion := estimatedCompletion ws;
     logs := logs ws; errors := errors ws ++ [e] |}.

Definition mkLog (stage : WorkflowStage) (agent action details : string)
    (duration : Z) : WorkflowLog :=
  {| log_stage := stage; log_agent := agent; action := action;
     details := details; duration := duration |}.

Definition mkError (stage : WorkflowStage) (agent error : string)
    (severity : Severity) : WorkflowError :=
  {| err_stage := stage; err_agent := agent; err_error := error;
     severity := severity; resolved := false |}.

(** [Math.round((currentIndex / stages.length) * 100)] *)
Definition progressOf (currentStage : WorkflowStage) : Z :=
  let stages := getWorkflowStages in
  let currentIndex := indexOf stages currentStage in
  Math_round (inject_Z currentIndex / inject_Z (Z.of_nat (length stages))
              * 100)%Q.

(** *** The helper methods, addressed by workflow id

    Each looks the record up and returns when it is missing. *)

Definition modifyWorkflow (workflowId : string)
    (f : WorkflowState -> WorkflowState) (this : t) : t :=
  {| agents := agents this;
     activeWorkflows := alter f workflowId (activeWorkflows this);
     workflowQueue := workflowQueue this;
     isProcessing := isProcessing this |}.

Definition updateWorkflowProgress (workflowId : string)
    (currentStage : WorkflowStage) (this : t) : t * list Event :=
  match activeWorkflows this !! workflowId with
  | None => (this, [])
  | Some ws =>
      let progress := progressOf currentStage in
      (modifyWorkflow workflowId
         (fun ws => set_currentStage currentStage (set_progress progress ws))
         this,
       [workflow_progress workflowId (caseId ws) progress currentStage])
  end.

Definition addWorkflowLog (workflowId : string) (stage : WorkflowStage)
    (agent action details : string) (duration : Z) (this : t) : t :=
  modifyWorkflow workflowId
    (push_log (mkLog stage agent action details duration)) this.

Definition addWorkflowError (workflowId : string) (stage : WorkflowStage)
    (agent error : string) (severity : Severity) (this : t) : t :=
  modifyWorkflow workflowId (push_error (mkError stage agent error severity))
    this.

Definition complexityMultiplier (c : Complexity.t) : Q :=
  match c with
  | Complexity.low => 1
  | Complexity.medium => 15 # 10
  | Complexity.high => 25 # 10
  end.

Definition categoryMultiplier (c : LegalCategory) : Q :=
  match c with
  | civil_litigation => 2
  | contract_dispute => 15 # 10
  | employment_law => 18 # 10
  | personal_injury => 22 # 10
  | intellectual_property => 25 # 10
  | real_estate => 13 # 10
  | family_law => 17 # 10
  | criminal_defense => 28 # 10
  | business_law => 14 # 10
  | other => 1
  end.

Definition calculateEstimatedCompletion (env : Env) (caseData : LegalCase)
  : Q :=
  let baseMinutes : Q := 30%Q in
  let estimatedMinutes :=
    (baseMinutes * complexityMultiplier (complexity (caseDetails caseData))
     * categoryMultiplier (category (caseDetails caseData)))%Q in
  (now env + estimatedMinutes * 60 * 1000)%Q.

(** [processQueue]: it has no [await], so it drains the queue in one go. *)
Definition processQueue (this : t) : t * list Event :=
  if isProcessing this || bool_decide (workflowQueue this = []) then (this, [])
  else
    ({| agents := agents this; activeWorkflows := activeWorkflows this;
        workflowQueue := []; isProcessing := false |},
     omap (M:=list)
          (fun workflowId =>
             if decide (workflowId = EmptyString) then None
             else Some (workflow_processing_required workflowId))
          (workflowQueue this)).

Definition startWorkflow (env : Env) (caseData : LegalCase) (this : t)
  : t * list Event * Outcome string :=
  let workflowId := uuidv4 env in
  let workflowState :=
    {| caseId := id caseData; currentStage := plaintiff_intake;
       completedStages := []; progress := 0;
       estimatedCompletion := calculateEstimatedCompletion env caseData;
       logs := []; errors := [] |} in
  let this :=
    {| agents := agents this;
       activeWorkflows := <[workflowId := workflowState]> (activeWorkflows this);
       workflowQueue := workflowQueue this ++ [workflowId];
       isProcessing := isProcessing this |} in
  let this :=
    addWorkflowLog workflowId plaintiff_intake "workflow-orchestrator"
      "started" "Workflow initiated" 0 this in
  let started := workflow_started workflowId (id caseData) in
  let '(this, queued) :=
    if isProcessing this then (this, []) else processQueue this in
  (this, started :: queued, Returned workflowId).

(** *** The stage loop of [processWorkflow]

    [workflowState] is the record of the map, held by reference while the
    loop runs; the loop touches it and the agents, so it is written over
    the pair.  Writes through the helper methods reach the same record. *)
Fixpoint runStages (env : Env) (workflowId : string)
    (stages : list WorkflowStage) (currentCase : LegalCase)
    (agents : gmap string BaseAgent.t) (workflowState : WorkflowState)
  : gmap string BaseAgent.t * WorkflowState * list Event * Outcome LegalCase :=
  match stages with
  | [] => (agents, workflowState, [], Returned currentCase)
  | stage :: rest =>
      if includes (completedStages workflowState) stage
      then runStages env workflowId rest currentCase agents workflowState
      else
        let workflowState :=
          set_currentStage stage
            (set_progress (progressOf stage)
               (set_currentStage stage workflowState)) in
        let entered :=
          [workflow_progress workflowId (caseId workflowState)
             (progressOf stage) stage;
           workflow_stage_started workflowId (id currentCase) stage] in
        match getAgentForStage agents stage with
        | None =>
            (agents, workflowState, entered,
             Threw ("No agent available for stage: " +:+ stageName stage))
        | Some (key, agent) =>
            let '(agent, result) :=
              BaseAgent.process (executeTask env stage)
                (processingTime env stage) agent currentCase in
            let agents := <[key := agent]> agents in
            match result with
            | Returned currentCase =>
                let workflowState :=
                  push_log
                    (mkLog stage (BaseAgent.name (BaseAgent.agent agent))
                       "completed" "Stage completed successfully"
                       (stageDuration env stage))
                    (push_completedStage stage workflowState) in
                let '(agents, workflowState, later, outcome) :=
                  runStages env workflowId rest currentCase agents
                    workflowState in
                (agents, workflowState,
                 entered
                 ++ workflow_stage_completed workflowId (id currentCase)
                      stage (stageDuration env stage) :: later,
                 outcome)
            | Threw errorMessage =>
                (agents,
                 push_error
                   (mkError stage (BaseAgent.name (BaseAgent.agent agent))
                      errorMessage sev_high)
                   workflowState,
                 entered
                 ++ [workflow_stage_failed workflowId (id currentCase)
                       stage errorMessage],
                 Threw errorMessage)
            end
        end
  end.

Definition processWorkflow (env : Env) (workflowId : string)
    (caseData : LegalCase) (this : t) : t * list Event * Outcome LegalCase :=
  match activeWorkflows this !! workflowId with
  | None => (this, [], Threw ("Workflow " +:+ workflowId +:+ " not found"))
  | Some workflowState =>
      let '(agents, workflowState, events, outcome) :=
        runStages env workflowId getWorkflowStages caseData (agents this)
          workflowState in
      match outcome with
      | Returned currentCase =>
          let workflowState :=
            push_log
              (mkLog completed "workflow-orchestrator" "completed"
                 "Workflow completed successfully" 0)
              (set_progress 100 (set_currentStage completed workflowState)) in
          ({| agents := agents;
              activeWorkflows :=
                <[workflowId := workflowState]> (activeWorkflows this);
              workflowQueue := workflowQueue this;
              isProcessing := isProcessing this |},
           events ++ [workflow_completed workflowId (id currentCase)],
           Returned currentCase)
      | Threw errorMessage =>
          let workflowState :=
            push_error
              (mkError (currentStage workflowState) "workflow-orchestrator"
                 errorMessage sev_critical)
              workflowState in
          ({| agents := agents;
              activeWorkflows :=
                <[workflowId := workflowState]> (activeWorkflows this);
              workflowQueue := workflowQueue this;
              isProcessing := isProcessing this |},
           events ++ [workflow_failed workflowId (id caseData) errorMessage],
           Threw errorMessage)
      end
  end.

Definition pauseWorkflow (workflowId : string) (this : t)
  : t * list Event * Outcome unit :=
  match activeWorkflows this !! workflowId with
  | None => (this, [], Threw ("Workflow " +:+ workflowId +:+ " not found"))
  | Some workflowState =>
      (addWorkflowLog workflowId (currentStage workflowState)
         "workflow-orchestrator" "paused" "Workflow paused by user" 0 this,
       [workflow_paused workflowId (caseId workflowState)],
       Returned tt)
  end.

Definition cancelWorkflow (workflowId : string) (this : t)
  : t * list Event * Outcome unit :=
  match activeWorkflows this !! workflowId with
  | None => (this, [], Threw ("Workflow " +:+ workflowId +:+ " not found"))
  | Some workflowState =>
      let this :=
        addWorkflowLog workflowId (currentStage workflowState)
          "workflow-orchestrator" "cancelled" "Workflow cancelled by user" 0
          this in
      ({| agents := agents this;
          activeWorkflows := delete workflowId (activeWorkflows this);
          workflowQueue := workflowQueue this;
          isProcessing := isProcessing this |},
       [workflow_cancelled workflowId (caseId workflowState)],
       Returned tt)
  end.

Definition getWorkflowState (workflowId : string) (this : t)
  : option WorkflowState :=
  activeWorkflows this !! workflowId.

(** [getAgentStatus]: for every agent the descriptor, read before the
    probe, with the answer of [healthCheck]; [probes] tells how the probe of
    the agent under a key settles. *)
Definition getAgentStatus (probes : string -> Outcome bool) (this : t)
  : t * gmap string (BaseAgent.Agent * bool) :=
  ({| agents :=
        map_imap (fun agentType agent =>
                    Some (BaseAgent.healthCheck (probes agentType) agent).1)
                 (agents this);
      activeWorkflows := activeWorkflows this;
      workflowQueue := workflowQueue this;
      isProcessing := isProcessing this |},
   map_imap (fun agentType agent =>
               Some (BaseAgent.getAgentInfo agent,
                     (BaseAgent.healthCheck (probes agentType) agent).2))
            (agents this)).

(** [getAllActiveWorkflows]: a copy of the map. *)
Definition getAllActiveWorkflows (this : t) : gmap string WorkflowState :=
  activeWorkflows this.

(** *** Sequences of operations *)

Inductive Op : Type :=
| op_startWorkflow (caseData : LegalCase)
| op_processWorkflow (workflowId : string) (caseData : LegalCase)
| op_pauseWorkflow (workflowId : string)
| op_cancelWorkflow (workflowId : string).

Definition exec (env : Env) (op : Op) (this : t) : t * list Event :=
  match op with
  | op_startWorkflow caseData => (startWorkflow env caseData this).1
  | op_processWorkflow workflowId caseData =>
      (processWorkflow env workflowId caseData this).1
  | op_pauseWorkflow workflowId => (pauseWorkflow workflowId this).1
  | op_cancelWorkflow workflowId => (cancelWorkflow workflowId this).1
  end.

(** [uuidv4] draws an identifier no active workflow has. *)
Definition freshId (env : Env) (op : Op) (this : t) : Prop :=
  match op with
  | op_startWorkflow _ => activeWorkflows this !! uuidv4 env = None
  | _ => True
  end.

(** The orchestrator states a sequence of calls can produce; each call
    meets its own environment. *)
Inductive reachable : t -> Prop :=
| reachable_new u1 u2 u3 : reachable (constructor u1 u2 u3)
| reachable_exec env op this :
    reachable this -> freshId env op this ->
    reachable (exec env op this).1.

End Orchestrator.

(** ** GeminiService ([services/gemini.ts]) *)

(** The line feed of the template strings. *)
Definition newline : string := String (Ascii.ascii_of_nat 10) EmptyString.

(** The double quote of a string literal. *)
Definition quote : string := String (Ascii.ascii_of_nat 34) EmptyString.

Module GeminiService.

Record Usage : Type := {
  promptTokens : Z;
  completionTokens : Z;
  totalTokens : Z
}.

Record Env : Type := {
  (** [model.generateContent] with the prompt, [temperature] and
      [maxOutputTokens], then [response.text()] *)
  model_generateContent : string -> Q -> Z -> Outcome string
}.

(** [buildPrompt]; [context] is the optional field of the request that no
    agent sets, given beside the request.  An empty string is falsy. *)
Definition buildPrompt (context : option string) (request : GeminiRequest)
  : string :=
  let fullPrompt := EmptyString in
  let fullPrompt :=
    match systemPrompt request with
    | Some sp =>
        if decide (sp = EmptyString) then fullPrompt
        else fullPrompt +:+ "System: " +:+ sp +:+ newline +:+ newline
    | None => fullPrompt
    end in
  let fullPrompt :=
    match context with
    | Some ctx =>
        if decide (ctx = EmptyString) then fullPrompt
        else fullPrompt +:+ "Context: " +:+ ctx +:+ newline +:+ newline
    | None => fullPrompt
    end in
  fullPrompt +:+ "User: " +:+ prompt request.

(** [Math.ceil(text.length / 4)] *)
Definition estimateTokens (text : string) : Z :=
  (Z.of_nat (String.length text) + 3) / 4.

Definition generateContent (env : Env) (context : option string)
    (request : GeminiRequest) : Outcome (GeminiResponse * Usage) :=
  try_catch
    (let fullPrompt := buildPrompt context request in
     content ← model_generateContent env fullPrompt
                 (or_default_Q (temperature request) (7 # 10))
                 (or_default_Z (maxTokens request) 2000);
     Returned
       ({| response_content := content;
           response_model := "gemini-2.0-flash-exp" |},
        {| promptTokens := estimateTokens fullPrompt;
           completionTokens := estimateTokens content;
           totalTokens := estimateTokens (fullPrompt +:+ content) |}))
    (fun m => Threw ("Gemini API error: " +:+ m)).

Definition testConnection (env : Env) : Outcome bool :=
  try_catch
    (_ ← generateContent env None
           {| prompt := "Hello, please respond with " +:+ quote
                        +:+ "Connection successful" +:+ quote;
              systemPrompt := None; temperature := None;
              maxTokens := Some 50 |};
     Returned true)
    (fun _ => Returned false).

End GeminiService.

(** ** Retrieval engine: ingestion from a directory and statistics
    ([services/rag.ts]) *)

(** [String.prototype.toLowerCase] on one-byte letters. *)
Definition lowerAscii (c : Ascii.ascii) : Ascii.ascii :=
  let n := Ascii.N_of_ascii c in
  if ((65 <=? n) && (n <=? 90))%N then Ascii.ascii_of_N (n + 32) else c.

Fixpoint toLowerCase (s : string) : string :=
  match s with
  | EmptyString => EmptyString
  | String c rest => String (lowerAscii c) (toLowerCase rest)
  end.

(** [String.prototype.endsWith] *)
Definition endsWith (s suffix : string) : bool :=
  let n := String.length s in
  let k := String.length suffix in
  (k <=? n)%nat && bool_decide (String.substring (n - k) k s = suffix).

Module RAGIngest.

Definition inferDocumentType (filename : string) : string :=
  let lowerFilename := toLowerCase filename in
  if string_includes lowerFilename "case"
     || string_includes lowerFilename "court" then "case-law"
  else if string_includes lowerFilename "statute"
          || string_includes lowerFilename "law" then "statute"
  else if string_includes lowerFilename "regulation"
          || string_includes lowerFilename "rule" then "regulation"
  else if string_includes lowerFilename "contract" then "contract"
  else "legal-document".

(** What [addDocumentsFromDirectory] reads from the file system. *)
Record DirEnv : Type := {
  (** [fs.readdir(directoryPath, { recursive: true })] *)
  readdir : string -> Outcome (list string);
  (** [fs.readFile(filePath, 'utf-8')] *)
  readFile : string -> Outcome string;
  (** [path.join(directoryPath, file)] *)
  joinPath : string -> string -> string;
  (** [path.basename(file, path.extname(file))] *)
  baseTitle : string -> string
}.

Definition isTextFile (file : string) : bool :=
  endsWith file ".txt" || endsWith file ".md" || endsWith file ".json".

(** The document built for a file; its metadata holds [type], the file
    size and the time, and neither a jurisdiction nor a date. *)
Definition directoryDocument (dirEnv : DirEnv) (directoryPath file content : string)
  : RAG.InputDocument :=
  {| RAG.in_id := file;
     RAG.in_title := baseTitle dirEnv file;
     RAG.in_content := String.substring 0 (Z.to_nat 8000) content;
     RAG.in_source := joinPath dirEnv directoryPath file;
     RAG.in_metadata :=
       Some {| RAG.md_type := Some (inferDocumentType file);
               RAG.md_jurisdiction := None;
               RAG.md_date := None;
               RAG.md_citation := None |} |}.

(** The loop over the files: a file that cannot be read or added is
    reported and skipped; what [addDocument] changed before it threw
    stays. *)
Fixpoint addFiles {Index} (env : RAG.Env Index) (dirEnv : DirEnv)
    (directoryPath : string) (files : list string) (this : RAG.t Index)
  : RAG.t Index :=
  match files with
  | [] => this
  | file :: rest =>
      let this :=
        match readFile dirEnv (joinPath dirEnv directoryPath file) with
        | Returned content =>
            (RAG.addDocument Index env
               (directoryDocument dirEnv directoryPath file content) this).1
        | Threw _ => this
        end in
      addFiles env dirEnv directoryPath rest this
  end.

Definition addDocumentsFromDirectory {Index} (env : RAG.Env Index)
    (dirEnv : DirEnv) (directoryPath : string) (this : RAG.t Index)
  : RAG.t Index * Outcome unit :=
  match readdir dirEnv directoryPath with
  | Returned files =>
      (addFiles env dirEnv directoryPath (filter (fun f => isTextFile f) files)
         this,
       Returned tt)
  | Threw message => (this, Threw message)
  end.

Record Stats : Type := {
  documentsCount : Z;
  indexSize : Z;
  stats_isInitialized : bool
}.

Definition getStats {Index} (env : RAG.Env Index) (this : RAG.t Index) : Stats :=
  {| documentsCount := Z.of_nat (size (RAG.service_documents this));
     indexSize :=
       match RAG.vectorIndex this with
       | Some idx => RAG.getCurrentCount env idx
       | None => 0
       end;
     stats_isInitialized := RAG.isInitialized this |}.

End RAGIngest.

(** ** Notions used in the statements about the agents *)

Module BaseAgentSpec.





End BaseAgentSpec.

(** ** Notions used in the statements about the orchestrator *)

Module OrchestratorSpec.

(** The position of a stage in the pipeline
    intake, research, argument-generation, drafting, review,
    final-formatting, with the terminal marker [completed] after them. *)
Definition stageRank (stage : WorkflowStage) : Z :=
  match stage with
  | plaintiff_intake => 0
  | legal_research => 1
  | argument_generation => 2
  | document_drafting => 3
  | review_and_revision => 4
  | final_formatting => 5
  | completed => 6
  end.

(** [round(100 * i / 6)] *)
Definition progressAt (i : Z) : Z := Math_round (inject_Z (100 * i) / 6)%Q.

(** The progress is the one of the current stage. *)
Definition progressConsistent (ws : Orchestrator.WorkflowState) : Prop :=
  Orchestrator.progress ws
  = progressAt (stageRank (Orchestrator.currentStage ws)).

(** Every stage before the current one is completed. *)
Definition earlierStagesCompleted (ws : Orchestrator.WorkflowState) : Prop :=
  forall stage,
    stageRank stage < stageRank (Orchestrator.currentStage ws) ->
    stage ∈ Orchestrator.completedStages ws.

Definition invariant (ws : Orchestrator.WorkflowState) : Prop :=
  progressConsistent ws
  /\ earlierStagesCompleted ws
  /\ NoDup (Orchestrator.completedStages ws).

(** The progress values of the [workflow-progress] events of a trace. *)
Definition progressValues (events : list Orchestrator.Event) : list Z :=
  omap (M:=list)
       (fun e => match e with
                 | Orchestrator.workflow_progress _ _ p _ => Some p
                 | _ => None
                 end) events.

Definition isWorkflowCompleted (e : Orchestrator.Event) : bool :=
  match e with Orchestrator.workflow_completed _ _ => true | _ => false end.

(** The keys under which the agents are registered. *)
Definition agentKeys : list string := ["intake"; "research"; "document"].

(** Every agent is registered and none is in the middle of a call. *)
Definition agentsReady (agents : gmap string BaseAgent.t) : Prop :=
  forall key, key ∈ agentKeys ->
    exists agent, agents !! key = Some agent
                  /\ BaseAgent.isProcessing agent = false.

(** Between two calls: the queue is drained, no drain is under way, the
    agents are ready, and only stages of the pipeline are recorded as
    completed. *)
Definition quiescent (this : Orchestrator.t) : Prop :=
  Orchestrator.workflowQueue this = []
  /\ Orchestrator.isProcessing this = false
  /\ agentsReady (Orchestrator.agents this)
  /\ forall wid ws,
       Orchestrator.activeWorkflows this !! wid = Some ws ->
       forall stage, stage ∈ Orchestrator.completedStages ws ->
                     stage ∈ Orchestrator.getWorkflowStages.

(** Two environments settle the stages of [P] alike. *)
Definition agreeOn (P : WorkflowStage -> Prop) (env env' : Orchestrator.Env)
  : Prop :=
  forall stage, P stage ->
    (forall caseData,
       Orchestrator.executeTask env stage caseData
       = Orchestrator.executeTask env' stage caseData)
    /\ Orchestrator.processingTime env stage
       = Orchestrator.processingTime env' stage
    /\ Orchestrator.stageDuration env stage
       = Orchestrator.stageDuration env' stage.

(** Two records that differ in their logs at most. *)
Definition sameButLogs (ws1 ws2 : Orchestrator.WorkflowState) : Prop :=
  Orchestrator.caseId ws1 = Orchestrator.caseId ws2
  /\ Orchestrator.currentStage ws1 = Orchestrator.currentStage ws2
  /\ Orchestrator.completedStages ws1 = Orchestrator.completedStages ws2
  /\ Orchestrator.progress ws1 = Orchestrator.progress ws2
  /\ Orchestrator.estimatedCompletion ws1 = Orchestrator.estimatedCompletion ws2
  /\ Orchestrator.errors ws1 = Orchestrator.errors ws2.

End OrchestratorSpec.

(** ** Notions used in the statements about the retrieval engine *)

Module RAGSpec.

(** The labels in use lie below the number of documents, as they do
    after any number of [addDocument] calls on an empty service; the next
    label is then unused. *)
Definition contiguous {Index} (this : RAG.t Index) : Prop :=
  map_Forall (fun label _ => (label < size (RAG.service_documents this))%nat)
             (RAG.service_documents this).




(** The polynomial hash [h = 31 * h + c] without wrap-around. *)
Definition hash31 (codes : list Z) : Z :=
  foldl (fun h c => 31 * h + c) 0 codes.

(** The neighbours asked of the index and the threshold in force. *)
Definition neighbours (request : RAG.RAGQuery) : Z :=
  or_default_Z (RAG.maxResults request) 10.

Definition thresholdInForce (request : RAG.RAGQuery) : Q :=
  or_default_Q (RAG.threshold request) (7 # 10).

End RAGSpec.

(** ** A reference vector index

    The service is run against an index that keeps its points in insertion
    order and searches them exactly.  Its distance only tells equal
    vectors (distance 0, as the cosine distance does) from different ones. *)

#[global] Instance Q_eq_dec : EqDecision Q.
Proof. solve_decision. Defined.

Module ExactIndex.

Definition Index : Type := list (nat * RAG.Vec).

Definition distance (u v : RAG.Vec) : Q :=
  if decide (u = v) then 0 else 1.

(** A point added under a label already in use replaces the old one. *)
Definition addPoint (idx : Index) (v : RAG.Vec) (label : nat)
  : Outcome Index :=
  Returned (filter (fun p => p.1 <> label) idx ++ [(label, v)]).

Fixpoint insertByDistance (hit : nat * Q) (sorted : list (nat * Q))
  : list (nat * Q) :=
  match sorted with
  | [] => [hit]
  | h :: rest =>
      if Qlt_b hit.2 h.2 then hit :: h :: rest
      else h :: insertByDistance hit rest
  end.

Definition sortByDistance (hits : list (nat * Q)) : list (nat * Q) :=
  foldl (fun sorted hit => insertByDistance hit sorted) [] hits.

Definition searchKnn (idx : Index) (q : RAG.Vec) (k : Z)
  : Outcome (list (nat * Q)) :=
  Returned
    (take (Z.to_nat k)
       (sortByDistance (map (fun p => (p.1, distance q p.2)) idx))).

End ExactIndex.

(** ** Sample data

    The case the repository's tests share ([mockCase]) and environments
    in which the external services answer in a fixed way. *)

Module Fixtures.

Definition mockCase : LegalCase :=
  {| id := "test-case-1";
     plaintiffInfo :=
       {| pi_name := "John Doe"; email := "john.doe@example.com";
          phone := "+1-555-123-4567";
          address := {| street := "123 Main St"; city := "New York";
                        addr_state := "NY"; zipCode := "10001";
                        country := "USA" |};
          legalIssue := "Breach of contract";
          description := "Software development contract was not fulfilled.";
          desiredOutcome := "Monetary damages";
          urgency := Urgency.medium |};
     caseDetails :=
       {| title := "Doe v. TechCorp"; category := contract_dispute;
          jurisdiction := "New York State"; courtLevel := state;
          estimatedDuration := 90; complexity := Complexity.medium;
          precedents := []; relevantLaws := [] |};
     status := status_intake;
     workflowStage := plaintiff_intake;
     documents := [] |}.

(** The same case with an e-mail address the schema rejects. *)
Definition invalidCase : LegalCase :=
  {| id := id mockCase;
     plaintiffInfo :=
       {| pi_name := "John Doe"; email := "invalid";
          phone := "+1-555-123-4567";
          address := address (plaintiffInfo mockCase);
          legalIssue := "Breach of contract";
          description := "Software development contract was not fulfilled.";
          desiredOutcome := "Monetary damages";
          urgency := Urgency.medium |};
     caseDetails := caseDetails mockCase;
     status := status_intake;
     workflowStage := plaintiff_intake;
     documents := [] |}.

(** A personal-injury case of high complexity and critical urgency. *)
Definition urgentCase : LegalCase :=
  {| id := "test-case-2";
     plaintiffInfo :=
       {| pi_name := "John Doe"; email := "john.doe@example.com";
          phone := "+1-555-123-4567";
          address := address (plaintiffInfo mockCase);
          legalIssue := "Injury at the workplace";
          description := "The plaintiff was injured by a falling shelf.";
          desiredOutcome := "Monetary damages";
          urgency := Urgency.critical |};
     caseDetails :=
       {| title := "Doe v. Warehouse"; category := personal_injury;
          jurisdiction := "New York State"; courtLevel := state;
          estimatedDuration := 90; complexity := Complexity.high;
          precedents := []; relevantLaws := [] |};
     status := status_intake;
     workflowStage := plaintiff_intake;
     documents := [] |}.

Definition mockResponse : GeminiResponse :=
  {| response_content := "Mock legal analysis response";
     response_model := "gemini-2.0-flash-exp" |}.

(** An intake environment: the schema accepts every address but
    ["invalid"], the model answers with text that is not JSON. *)
Definition intakeEnv : IntakeAgent.Env :=
  {| IntakeAgent.generateContent := fun _ => Returned mockResponse;
     IntakeAgent.parsePlaintiffAnalysis :=
       fun _ => Threw "Unexpected token M in JSON at position 0";
     IntakeAgent.parseCaseAnalysis :=
       fun _ => Threw "Unexpected token M in JSON at position 0";
     IntakeAgent.validatePlaintiff :=
       fun info =>
         if decide (email info = "invalid")
         then Threw "Validation error: email must be a valid email"
         else Returned info;
     IntakeAgent.validateDetails := fun details => Returned details;
     IntakeAgent.enhancePrompt := fun _ => EmptyString;
     IntakeAgent.complexityPrompt := fun _ _ => EmptyString |}.

(** A research environment: the model answers with text that is not
    JSON. *)
Definition researchEnv : ResearchAgent.Env :=
  {| ResearchAgent.generateContent := fun _ => Returned mockResponse;
     ResearchAgent.parsePrecedents :=
       fun _ => Threw "Unexpected token M in JSON at position 0";
     ResearchAgent.parseLaws :=
       fun _ => Threw "Unexpected token M in JSON at position 0";
     ResearchAgent.analysisPrompt := fun _ _ => EmptyString;
     ResearchAgent.precedentPrompt := fun _ _ => EmptyString;
     ResearchAgent.lawPrompt := fun _ _ => EmptyString;
     ResearchAgent.buildResearchQuery := fun _ => EmptyString;
     ResearchAgent.buildResearchContext := fun _ => EmptyString |}.

Definition intakeAgent : BaseAgent.t :=
  BaseAgent.constructor "agent-1" "Legal Intake Agent" intake_agent
    "Processes initial plaintiff intake forms and validates legal case information"
    ["Plaintiff information validation"; "Legal issue categorization"].


(** An orchestrator environment: the intake task returns its case, the
    research task throws, the other tasks return their case. *)
Definition researchFailsEnv : Orchestrator.Env :=
  {| Orchestrator.uuidv4 := "workflow-1";
     Orchestrator.now := 0;
     Orchestrator.executeTask :=
       fun stage caseData =>
         match stage with
         | legal_research => Threw "RAG retrieval failed"
         | _ => Returned caseData
         end;
     Orchestrator.processingTime := fun _ => 5;
     Orchestrator.stageDuration := fun _ => 7 |}.

(** An orchestrator environment in which every task returns its case. *)
Definition allSucceedEnv : Orchestrator.Env :=
  {| Orchestrator.uuidv4 := "workflow-1";
     Orchestrator.now := 0;
     Orchestrator.executeTask := fun _ caseData => Returned caseData;
     Orchestrator.processingTime := fun _ => 5;
     Orchestrator.stageDuration := fun _ => 7 |}.

Definition orchestrator0 : Orchestrator.t :=
  Orchestrator.constructor "agent-1" "agent-2" "agent-3".

(** The orchestrator after [startWorkflow(mockCase)]. *)
Definition orchestrator1 : Orchestrator.t :=
  (Orchestrator.exec researchFailsEnv
     (Orchestrator.op_startWorkflow mockCase) orchestrator0).1.

(** Then after [processWorkflow("workflow-1", mockCase)] with a research
    task that throws. *)
Definition orchestrator2 : Orchestrator.t :=
  (Orchestrator.exec researchFailsEnv
     (Orchestrator.op_processWorkflow "workflow-1" mockCase) orchestrator1).1.

(** The orchestrator after [startWorkflow(mockCase)] and a
    [processWorkflow("workflow-1", mockCase)] in which every task
    returns. *)
Definition orchestrator3 : Orchestrator.t :=
  (Orchestrator.exec allSucceedEnv
     (Orchestrator.op_processWorkflow "workflow-1" mockCase) orchestrator1).1.

(** An orchestrator environment in which every task throws. *)
Definition allFailEnv : Orchestrator.Env :=
  {| Orchestrator.uuidv4 := "workflow-2";
     Orchestrator.now := 0;
     Orchestrator.executeTask := fun _ _ => Threw "service unavailable";
     Orchestrator.processingTime := fun _ => 5;
     Orchestrator.stageDuration := fun _ => 7 |}.

(** The record of that workflow before the failing call, and what the
    loop leaves after the intake stage. *)
Definition blankWorkflow : Orchestrator.WorkflowState :=
  {| Orchestrator.caseId := EmptyString; Orchestrator.currentStage := plaintiff_intake;
     Orchestrator.completedStages := []; Orchestrator.progress := 0;
     Orchestrator.estimatedCompletion := 0; Orchestrator.logs := [];
     Orchestrator.errors := [] |}.

Definition workflow1 : Orchestrator.WorkflowState :=
  default blankWorkflow
    (Orchestrator.activeWorkflows orchestrator1 !! "workflow-1").

(** Its record after the failing call. *)
Definition workflow2 : Orchestrator.WorkflowState :=
  default blankWorkflow
    (Orchestrator.activeWorkflows orchestrator2 !! "workflow-1").

Definition intakeRun :=
  Orchestrator.runStages researchFailsEnv "workflow-1" [plaintiff_intake]
    mockCase (Orchestrator.agents orchestrator1) workflow1.

Definition researchAgent : BaseAgent.t :=
  default intakeAgent (intakeRun.1.1.1 !! "research").

Definition researchAgentAfter : BaseAgent.t :=
  (BaseAgent.process (Orchestrator.executeTask researchFailsEnv legal_research)
     (Orchestrator.processingTime researchFailsEnv legal_research)
     researchAgent mockCase).1.

(** A stand-in for [Math.sin] with values in [-1, 1]. *)
Definition sinStub (z : Z) : Q := (z mod 201 - 100) # 100.

(** A retrieval environment without an embedding key and without
    persisted files, on the reference index. *)
Definition ragEnv : RAG.Env ExactIndex.Index :=
  {| RAG.OPENAI_API_KEY := false;
     RAG.embeddings_create := fun _ => Threw "401 Incorrect API key";
     RAG.Math_sin := sinStub;
     RAG.readIndex := Threw "ENOENT: no such file or directory";
     RAG.newIndex := Returned [];
     RAG.addPoint := ExactIndex.addPoint;
     RAG.searchKnn := ExactIndex.searchKnn;
     RAG.writeIndex := fun _ => Returned tt;
     RAG.getCurrentCount := fun idx => Z.of_nat (length idx);
     RAG.readDocumentsFile := Threw "ENOENT: no such file or directory";
     RAG.writeDocumentsFile := fun _ => Returned tt;
     RAG.elapsed := 3 |}.

(** The same environment with an embedding backend that is down. *)
Definition ragEnvWithKey : RAG.Env ExactIndex.Index :=
  {| RAG.OPENAI_API_KEY := true;
     RAG.embeddings_create := fun _ => Threw "503 Service Unavailable";
     RAG.Math_sin := sinStub;
     RAG.readIndex := Threw "ENOENT: no such file or directory";
     RAG.newIndex := Returned [];
     RAG.addPoint := ExactIndex.addPoint;
     RAG.searchKnn := ExactIndex.searchKnn;
     RAG.writeIndex := fun _ => Returned tt;
     RAG.getCurrentCount := fun idx => Z.of_nat (length idx);
     RAG.readDocumentsFile := Threw "ENOENT: no such file or directory";
     RAG.writeDocumentsFile := fun _ => Returned tt;
     RAG.elapsed := 4 |}.


Definition caseLaw : RAG.Metadata :=
  {| RAG.md_type := Some "case-law";
     RAG.md_jurisdiction := Some "Federal";
     RAG.md_date := Some 1577836800000;
     RAG.md_citation := Some "123 F.Supp.3d 456" |}.

Definition docA : RAG.InputDocument :=
  {| RAG.in_id := "doc-1";
     RAG.in_title := "Sample Contract Law Case";
     RAG.in_content := "material breach of contract";
     RAG.in_source := "legal-database";
     RAG.in_metadata := Some caseLaw |}.

(** A second document with the same content. *)
Definition docB : RAG.InputDocument :=
  {| RAG.in_id := "doc-2";
     RAG.in_title := "Sample Contract Law Case (reprint)";
     RAG.in_content := "material breach of contract";
     RAG.in_source := "legal-database";
     RAG.in_metadata := Some caseLaw |}.

Definition service0 : RAG.t ExactIndex.Index :=
  (RAG.initialize ExactIndex.Index ragEnv (RAG.constructor ExactIndex.Index)).1.

(** The service after [addDocument(docA)], then after [addDocument(docB)]. *)
Definition serviceA : RAG.t ExactIndex.Index :=
  (RAG.addDocument ExactIndex.Index ragEnv docA service0).1.

Definition serviceAB : RAG.t ExactIndex.Index :=
  (RAG.addDocument ExactIndex.Index ragEnv docB serviceA).1.

Definition queryFor (text : string) (maxResults : option Z) : RAG.RAGQuery :=
  {| RAG.query_text := text; RAG.context := EmptyString;
     RAG.filters := None; RAG.maxResults := maxResults;
     RAG.threshold := None |}.

(** What the service answers about [docA], stored under label 0. *)
Definition retrievedA : RAG.RetrievedDocument :=
  RAG.toRetrieved {| RAG.stored := RAG.store docA 0; RAG.score := 1 - 0 |}.

Definition retrievedB : RAG.RetrievedDocument :=
  RAG.toRetrieved {| RAG.stored := RAG.store docB 1; RAG.score := 1 - 0 |}.

Definition resultA : RAG.RAGResult :=
  {| RAG.documents := [retrievedA]; RAG.totalResults := 1;
     RAG.queryTime := 3; RAG.confidence := (1 - 0) / 1 |}.


(** As [researchFailsEnv], but the intake task would throw as well and
    the clocks of the intake stage differ. *)
Definition intakeAlsoFailsEnv : Orchestrator.Env :=
  {| Orchestrator.uuidv4 := "workflow-1";
     Orchestrator.now := 0;
     Orchestrator.executeTask :=
       fun stage caseData =>
         match stage with
         | plaintiff_intake => Threw "Validation error"
         | legal_research => Threw "RAG retrieval failed"
         | _ => Returned caseData
         end;
     Orchestrator.processingTime :=
       fun stage => match stage with plaintiff_intake => 99 | _ => 5 end;
     Orchestrator.stageDuration :=
       fun stage => match stage with plaintiff_intake => 99 | _ => 7 end |}.

(** Probes of the agents: the one of the research agent throws. *)
Definition researchProbeThrows (agentType : string) : Outcome bool :=
  if decide (agentType = "research") then Threw "connection refused"
  else Returned true.

(** A document stored without [metadata], and the service holding [docA]
    and it. *)
Definition docNoMeta : RAG.InputDocument :=
  {| RAG.in_id := "doc-3";
     RAG.in_title := "Untitled memo";
     RAG.in_content := "statute of limitations";
     RAG.in_source := "upload";
     RAG.in_metadata := None |}.

Definition serviceAN : RAG.t ExactIndex.Index :=
  (RAG.addDocument ExactIndex.Index ragEnv docNoMeta serviceA).1.

Definition caseLawFilter : RAG.RAGFilters :=
  {| RAG.documentType := Some ["case-law"];
     RAG.jurisdiction := None;
     RAG.dateRange := None;
     RAG.filter_relevanceScore := None |}.

Definition filteredQuery (text : string) : RAG.RAGQuery :=
  {| RAG.query_text := text; RAG.context := EmptyString;
     RAG.filters := Some caseLawFilter; RAG.maxResults := Some 5;
     RAG.threshold := None |}.

(** The answer of [query], the empty one when it throws. *)
Definition answerOf (env : RAG.Env ExactIndex.Index) (request : RAG.RAGQuery)
    (this : RAG.t ExactIndex.Index) : RAG.RAGResult :=
  match (RAG.query ExactIndex.Index env request this).2 with
  | Returned result => result
  | Threw _ => RAG.emptyResult ExactIndex.Index env
  end.


(** As [ragEnv], with a documents file that cannot be written. *)
Definition diskFullEnv : RAG.Env ExactIndex.Index :=
  {| RAG.OPENAI_API_KEY := false;
     RAG.embeddings_create := fun _ => Threw "401 Incorrect API key";
     RAG.Math_sin := sinStub;
     RAG.readIndex := Threw "ENOENT: no such file or directory";
     RAG.newIndex := Returned [];
     RAG.addPoint := ExactIndex.addPoint;
     RAG.searchKnn := ExactIndex.searchKnn;
     RAG.writeIndex := fun _ => Returned tt;
     RAG.getCurrentCount := fun idx => Z.of_nat (length idx);
     RAG.readDocumentsFile := Threw "ENOENT: no such file or directory";
     RAG.writeDocumentsFile :=
       fun _ => Threw "ENOSPC: no space left on device";
     RAG.elapsed := 3 |}.

(** A request for the content of [docA] and [docB], and what [serviceAB]
    answers. *)
Definition breachQuery : RAG.RAGQuery :=
  queryFor "material breach of contract" (Some 5).

Definition answerAB : RAG.RAGResult := answerOf ragEnv breachQuery serviceAB.

(** A directory with two text files that can be read, one that cannot,
    and a file of another kind. *)
Definition libraryDir : RAGIngest.DirEnv :=
  {| RAGIngest.readdir :=
       fun _ => Returned ["contract-law.txt"; "scan.pdf"; "court-rules.md";
                          "locked.txt"];
     RAGIngest.readFile :=
       fun filePath =>
         if decide (filePath = "library/locked.txt")
         then Threw "EACCES: permission denied"
         else Returned ("Text of " +:+ filePath);
     RAGIngest.joinPath := fun directory file => directory +:+ "/" +:+ file;
     RAGIngest.baseTitle := fun file => file |}.

(** A model that answers every prompt with the same words. *)
Definition echoModel : GeminiService.Env :=
  {| GeminiService.model_generateContent :=
       fun _ _ _ => Returned "Connection successful" |}.

Definition helloRequest : GeminiRequest :=
  {| prompt := "Hello"; systemPrompt := Some "You are a helpful assistant.";
     temperature := None; maxTokens := Some 50 |}.

(** The usage reported for [helloRequest] answered by [echoModel]. *)
Definition helloUsage : GeminiService.Usage :=
  {| GeminiService.promptTokens := 13;
     GeminiService.completionTokens := 6;
     GeminiService.totalTokens := 18 |}.

End Fixtures.

(** * Properties *)

(** ** Arrays and sets *)

Lemma Set_add_NoDup {A} `{EqDecision A} (s : list A) (x : A) :
  NoDup s -> NoDup (Set_add s x).
Proof.
  intros Hs. unfold Set_add, includes. case_bool_decide; [done|].
  apply NoDup_app. split_and!; [done| |apply NoDup_singleton].
  intros y Hy Hy'. apply list_elem_of_singleton in Hy'. by subst.
Qed.

Lemma foldl_Set_add_NoDup {A} `{EqDecision A} (l s : list A) :
  NoDup s -> NoDup (foldl Set_add s l).
Proof.
  revert s. induction l as [|x l IH]; intros s Hs; simpl; [done|].
  apply IH. by apply Set_add_NoDup.
Qed.

Lemma new_Set_NoDup {A} `{EqDecision A} (l : list A) : NoDup (new_Set l).
Proof. apply foldl_Set_add_NoDup. constructor. Qed.

Lemma foldl_Set_add_elem {A} `{EqDecision A} (l s : list A) (x : A) :
  x ∈ foldl Set_add s l <-> x ∈ s \/ x ∈ l.
Proof.
  revert s. induction l as [|y l IH]; intros s; simpl.
  - rewrite elem_of_nil. tauto.
  - rewrite IH, elem_of_cons. unfold Set_add, includes.
    case_bool_decide.
    + split; [tauto|]. intros [?|[->|?]]; auto.
    + rewrite elem_of_app, list_elem_of_singleton. tauto.
Qed.

Lemma new_Set_elem {A} `{EqDecision A} (l : list A) (x : A) :
  x ∈ new_Set l <-> x ∈ l.
Proof.
  unfold new_Set. rewrite foldl_Set_add_elem, elem_of_nil. tauto.
Qed.

(** Folding from a non-empty accumulator: the accumulator stays in front and
    later copies of its elements are dropped. *)
Lemma foldl_Set_add_acc_le {A} `{EqDecision A} (n : nat) :
  forall (l s : list A), (length l <= n)%nat ->
  foldl Set_add s l = s ++ new_Set (filter (fun y => y ∉ s) l).
Proof.
  induction n as [|n IH]; intros [|x l] s Hlen; simpl in *;
    try (by rewrite app_nil_r); try lia.
  rewrite filter_cons. unfold Set_add at 2, includes.
  case_bool_decide as Hx.
  - destruct (decide (x ∉ s)); [done|]. apply IH. lia.
  - destruct (decide (x ∉ s)); [|done].
    rewrite (IH l (s ++ [x])) by lia.
    unfold new_Set at 2. simpl. unfold Set_add at 2, includes.
    rewrite bool_decide_false by apply not_elem_of_nil. simpl.
    rewrite (IH (filter (fun y => y ∉ s) l) [x])
      by (etrans; [apply length_filter|lia]).
    rewrite <- app_assoc. simpl. do 2 f_equal.
    rewrite list_filter_filter. f_equal.
    apply list_filter_iff. intros y.
    rewrite elem_of_app, !list_elem_of_singleton. tauto.
Qed.

Lemma foldl_Set_add_acc {A} `{EqDecision A} (l s : list A) :
  foldl Set_add s l = s ++ new_Set (filter (fun y => y ∉ s) l).
Proof. by apply (foldl_Set_add_acc_le (length l)). Qed.

(** First-seen order: the head is kept, its later copies are removed. *)
Lemma new_Set_cons {A} `{EqDecision A} (x : A) (l : list A) :
  new_Set (x :: l) = x :: new_Set (filter (fun y => y ≠ x) l).
Proof.
  unfold new_Set at 1. simpl. unfold Set_add at 2, includes.
  rewrite bool_decide_false by apply not_elem_of_nil. simpl.
  rewrite foldl_Set_add_acc. simpl. f_equal.
  f_equal. apply list_filter_iff. intros y.
  rewrite list_elem_of_singleton. tauto.
Qed.

Lemma new_Set_id {A} `{EqDecision A} (l : list A) :
  NoDup l -> new_Set l = l.
Proof.
  induction 1 as [|x l Hx Hl IH]; [done|].
  rewrite new_Set_cons. f_equal. rewrite <- IH at 2. f_equal.
  clear IH Hl. induction l as [|y l IHl]; [done|].
  rewrite filter_cons_True by (intros ->; apply Hx; left).
  f_equal. apply IHl. intros Hin. apply Hx. by right.
Qed.

(** ** DocumentAgent: the required document types *)

Lemma determineDocumentsNeeded_inputs (c1 c2 : LegalCase) :
  category (caseDetails c1) = category (caseDetails c2) ->
  complexity (caseDetails c1) = complexity (caseDetails c2) ->
  urgency (plaintiffInfo c1) = urgency (plaintiffInfo c2) ->
  DocumentAgent.determineDocumentsNeeded c1
  = DocumentAgent.determineDocumentsNeeded c2.
Proof.
  intros Hcat Hcx Hurg.
  unfold DocumentAgent.determineDocumentsNeeded,
    DocumentAgent.documentsBeforeDedup.
  by rewrite Hcat, Hcx, Hurg.
Qed.

Lemma determineDocumentsNeeded_critical (c : LegalCase) :
  urgency (plaintiffInfo c) = Urgency.critical ->
  exists rest,
    DocumentAgent.determineDocumentsNeeded c = motion :: rest
    /\ motion ∉ rest.
Proof.
  intros Hurg.
  unfold DocumentAgent.determineDocumentsNeeded,
    DocumentAgent.documentsBeforeDedup.
  rewrite Hurg. simpl. rewrite new_Set_cons. eexists. split; [done|].
  rewrite new_Set_elem, list_elem_of_filter. tauto.
Qed.

Lemma determineDocumentsNeeded_high (c : LegalCase) :
  complexity (caseDetails c) = Complexity.high ->
  last (DocumentAgent.determineDocumentsNeeded c) = Some brief.
Proof.
  intros Hcx.
  unfold DocumentAgent.determineDocumentsNeeded,
    DocumentAgent.documentsBeforeDedup.
  rewrite Hcx.
  destruct (category (caseDetails c)), (urgency (plaintiffInfo c));
    reflexivity.
Qed.

(** C7: [determineDocumentsNeeded] depends on the case only through
    (category, complexity, urgency); it yields
    [complaint, motion, legal-memo] for (contract-dispute, medium, medium)
    and [motion, complaint, discovery-request, evidence-summary, brief] for
    (personal-injury, high, critical); its result is the pushed list without
    repetitions, every type at the place of its first occurrence. *)
Theorem determineDocumentsNeeded_pure :
  (forall c1 c2 : LegalCase,
     category (caseDetails c1) = category (caseDetails c2) ->
     complexity (caseDetails c1) = complexity (caseDetails c2) ->
     urgency (plaintiffInfo c1) = urgency (plaintiffInfo c2) ->
     DocumentAgent.determineDocumentsNeeded c1
     = DocumentAgent.determineDocumentsNeeded c2)
  /\ (forall c : LegalCase,
       category (caseDetails c) = contract_dispute ->
       complexity (caseDetails c) = Complexity.medium ->
       urgency (plaintiffInfo c) = Urgency.medium ->
       DocumentAgent.determineDocumentsNeeded c
       = [complaint; motion; legal_memo])
  /\ (forall c : LegalCase,
       category (caseDetails c) = personal_injury ->
       complexity (caseDetails c) = Complexity.high ->
       urgency (plaintiffInfo c) = Urgency.critical ->
       DocumentAgent.determineDocumentsNeeded c
       = [motion; complaint; discovery_request; evidence_summary; brief])
  /\ (forall c : LegalCase,
       NoDup (DocumentAgent.determineDocumentsNeeded c)
       /\ (forall d, d ∈ DocumentAgent.determineDocumentsNeeded c
                     <-> d ∈ DocumentAgent.documentsBeforeDedup c)
       /\ (forall d rest,
             DocumentAgent.documentsBeforeDedup c = d :: rest ->
             DocumentAgent.determineDocumentsNeeded c
             = d :: new_Set (filter (fun y => y <> d) rest))).
Proof.
  split_and!.
  - apply determineDocumentsNeeded_inputs.
  - intros c Hcat Hcx Hurg.
    unfold DocumentAgent.determineDocumentsNeeded,
      DocumentAgent.documentsBeforeDedup.
    by rewrite Hcat, Hcx, Hurg.
  - intros c Hcat Hcx Hurg.
    unfold DocumentAgent.determineDocumentsNeeded,
      DocumentAgent.documentsBeforeDedup.
    by rewrite Hcat, Hcx, Hurg.
  - intros c. split_and!.
    + apply new_Set_NoDup.
    + intros d. apply new_Set_elem.
    + intros d rest Hraw. unfold DocumentAgent.determineDocumentsNeeded.
      rewrite Hraw. apply new_Set_cons.
Qed.

Lemma determineDocumentsNeeded_pure_witness :
  DocumentAgent.determineDocumentsNeeded Fixtures.mockCase
  = [complaint; motion; legal_memo]
  /\ DocumentAgent.determineDocumentsNeeded Fixtures.urgentCase
     = [motion; complaint; discovery_request; evidence_summary; brief].
Proof.
  split.
  - apply (proj1 (proj2 determineDocumentsNeeded_pure) Fixtures.mockCase);
      reflexivity.
  - apply (proj1 (proj2 (proj2 determineDocumentsNeeded_pure))
             Fixtures.urgentCase); reflexivity.
Defined.

(** ** BaseAgent: single flight and availability *)

Lemma process_enter_busy (this : BaseAgent.t) (caseData : LegalCase) :
  BaseAgent.isProcessing this = true ->
  BaseAgent.process_enter this caseData
  = (this, Threw (BaseAgent.busyMessage this)).
Proof. intros H. unfold BaseAgent.process_enter. by rewrite H. Qed.

Lemma process_enter_free (this : BaseAgent.t) (caseData : LegalCase) :
  BaseAgent.isProcessing this = false ->
  exists this',
    BaseAgent.process_enter this caseData = (this', Returned tt)
    /\ BaseAgent.isProcessing this' = true
    /\ BaseAgent.status (BaseAgent.agent this') = processing.
Proof.
  intros H. unfold BaseAgent.process_enter. rewrite H. by eexists.
Qed.

(** A call made while another one is between its entry and its settling
    is rejected and changes nothing. *)
Lemma process_rejects_second_call
    (executeTask : LegalCase -> Outcome LegalCase) (time : Z)
    (this this1 : BaseAgent.t) (first second : LegalCase) :
  BaseAgent.process_enter this first = (this1, Returned tt) ->
  BaseAgent.process executeTask time this1 second
  = (this1, Threw (BaseAgent.busyMessage this1))
  /\ BaseAgent.isAvailable this1 = false.
Proof.
  unfold BaseAgent.process_enter.
  destruct (BaseAgent.isProcessing this) eqn:Hbusy; [done|].
  intros [= <-]. by split.
Qed.

Lemma process_finally_releases (this : BaseAgent.t) :
  BaseAgent.isProcessing (BaseAgent.process_finally this) = false
  /\ BaseAgent.currentTask (BaseAgent.agent (BaseAgent.process_finally this))
     = None.
Proof.
  unfold BaseAgent.process_finally. simpl. split; [done|].
  by case_decide.
Qed.

(** After a task that returned the instance is available again. *)
Lemma process_success_available
    (executeTask : LegalCase -> Outcome LegalCase) (time : Z)
    (this : BaseAgent.t) (caseData updated : LegalCase) :
  BaseAgent.isProcessing this = false ->
  executeTask caseData = Returned updated ->
  exists this',
    BaseAgent.process executeTask time this caseData = (this', Returned updated)
    /\ BaseAgent.isAvailable this' = true.
Proof.
  intros Hfree Hok. unfold BaseAgent.process, BaseAgent.process_enter.
  rewrite Hfree, Hok. simpl. eexists. split; [done|].
  unfold BaseAgent.isAvailable, BaseAgent.process_finally. simpl.
  by repeat case_decide.
Qed.

(** C3 (what the code does where the claim fails): after a task that threw,
    [process] has released the in-flight flag but leaves the status [error],
    so [isAvailable()] answers [false]. *)
Theorem process_failure_leaves_agent_unavailable
    (executeTask : LegalCase -> Outcome LegalCase) (time : Z)
    (this : BaseAgent.t) (caseData : LegalCase) (message : string) :
  BaseAgent.isProcessing this = false ->
  executeTask caseData = Threw message ->
  exists this',
    BaseAgent.process executeTask time this caseData = (this', Threw message)
    /\ BaseAgent.isProcessing this' = false
    /\ BaseAgent.getStatus this' = error
    /\ BaseAgent.isAvailable this' = false.
Proof.
  intros Hfree Hthrow. unfold BaseAgent.process, BaseAgent.process_enter.
  rewrite Hfree, Hthrow. simpl. eexists. split; [done|].
  unfold BaseAgent.isAvailable, BaseAgent.getStatus,
    BaseAgent.process_finally. simpl.
  repeat case_decide; by split_and!.
Qed.

Lemma process_failure_leaves_agent_unavailable_witness :
  exists this',
    BaseAgent.process (IntakeAgent.executeTask Fixtures.intakeEnv) 5
      Fixtures.intakeAgent Fixtures.invalidCase
    = (this',
       Threw "Plaintiff information validation failed: Validation error: email must be a valid email")
    /\ BaseAgent.isProcessing this' = false
    /\ BaseAgent.getStatus this' = error
    /\ BaseAgent.isAvailable this' = false.
Proof.
  apply process_failure_leaves_agent_unavailable; reflexivity.
Defined.

(** ** DocumentAgent, IntakeAgent, ResearchAgent: failures of the
    generation service *)


Lemma generateDocument_failure (env : DocumentGeneratorService.Env)
    (caseData : LegalCase) (ty : DocumentType) (format : DocumentFormat)
    (m : string) :
  DocumentGeneratorService.generateLegalDocument env ty caseData = Threw m ->
  DocumentGeneratorService.generateDocument env caseData ty format
  = Threw ("Document generation failed: " +:+ m).
Proof.
  intros H. unfold DocumentGeneratorService.generateDocument,
    DocumentGeneratorService.generateDocumentContent.
  by rewrite H.
Qed.


Lemma validateAll_types (docs : list Document) :
  map doc_type (DocumentAgent.validateAll docs) = map doc_type docs.
Proof.
  induction docs as [|d docs IH]; simpl; [done|].
  rewrite IH. by destruct (DocumentGeneratorService.isValid d).
Qed.






(** The narrative analysis of the research agent has no [try]: a failure
    of the generation service there is thrown on. *)
Lemma analyzeResearchResults_propagates (env : ResearchAgent.Env)
    (caseData : LegalCase) (docs : list RAG.RetrievedDocument) (m : string) :
  (forall request, ResearchAgent.generateContent env request = Threw m) ->
  ResearchAgent.analyzeResearchResults env caseData docs = Threw m.
Proof.
  intros Hfail. unfold ResearchAgent.analyzeResearchResults.
  by rewrite Hfail.
Qed.




(** ** Retrieval engine: the fallback embedder *)

Lemma map_fmap {A B} (f : A -> B) (l : list A) : map f l = f <$> l.
Proof. induction l as [|x l IH]; simpl; [done|]. by rewrite IH. Qed.

Lemma toInt32_range (z : Z) : - 2 ^ 31 <= toInt32 z < 2 ^ 31.
Proof.
  unfold toInt32.
  pose proof (Z.mod_pos_bound (z + 2 ^ 31) (2 ^ 32)). lia.
Qed.

Lemma simpleHash_range (str : string) : 0 <= RAG.simpleHash str <= 2 ^ 31.
Proof.
  unfold RAG.simpleHash.
  assert (Hfold : forall codes h, - 2 ^ 31 <= h < 2 ^ 31 ->
            - 2 ^ 31 <= foldl RAG.simpleHash_step h codes < 2 ^ 31).
  { induction codes as [|c codes IH]; intros h Hh; simpl; [done|].
    apply IH. unfold RAG.simpleHash_step. apply toInt32_range. }
  specialize (Hfold (charCodes str) 0). lia.
Qed.

(** The hash is the 32-bit string hash [h = 31 * h + c]. *)
Example simpleHash_abc : RAG.simpleHash "abc" = 96354.
Proof. reflexivity. Qed.

Lemma getMockEmbedding_length {Index} (env : RAG.Env Index) (text : string) :
  length (RAG.getMockEmbedding Index env text) = 1536%nat.
Proof.
  unfold RAG.getMockEmbedding. rewrite length_map, length_seqZ. reflexivity.
Qed.

Lemma getMockEmbedding_lookup {Index} (env : RAG.Env Index) (text : string)
    (i : nat) :
  (i < 1536)%nat ->
  RAG.getMockEmbedding Index env text !! i
  = Some (RAG.Math_sin env (RAG.simpleHash text * (Z.of_nat i + 1))
          * (1 # 10))%Q.
Proof.
  intros Hi. unfold RAG.getMockEmbedding, RAG.Vec. cbv zeta.
  rewrite map_fmap, list_lookup_fmap, lookup_seqZ_lt by (unfold RAG.vectorDimension; lia).
  reflexivity.
Qed.

Lemma getMockEmbedding_ext {Index1 Index2 : Type}
    (env1 : RAG.Env Index1) (env2 : RAG.Env Index2) (text : string) :
  (forall z, RAG.Math_sin env1 z = RAG.Math_sin env2 z) ->
  RAG.getMockEmbedding Index1 env1 text = RAG.getMockEmbedding Index2 env2 text.
Proof.
  intros Hsin. unfold RAG.getMockEmbedding. apply map_ext. intros i.
  by rewrite Hsin.
Qed.

(** C10: the fallback embedding of a text is the same in every call: it
    reads neither the service state nor the environment apart from
    [Math.sin], so two calls on the same text in environments with the same
    [Math.sin] return the same vector; the vector has 1536 components, the
    [i]-th being [Math.sin(hash * (i + 1)) * 0.1]. *)
Theorem getMockEmbedding_deterministic
    {Index1 Index2 : Type} (env1 : RAG.Env Index1) (env2 : RAG.Env Index2)
    (text : string) :
  (forall z, RAG.Math_sin env1 z = RAG.Math_sin env2 z) ->
  RAG.getMockEmbedding Index1 env1 text = RAG.getMockEmbedding Index2 env2 text
  /\ length (RAG.getMockEmbedding Index1 env1 text) = 1536%nat
  /\ (forall i : nat, (i < 1536)%nat ->
        RAG.getMockEmbedding Index1 env1 text !! i
        = Some (RAG.Math_sin env1 (RAG.simpleHash text * (Z.of_nat i + 1))
                * (1 # 10))%Q).
Proof.
  intros Hsin. split_and!.
  - by apply getMockEmbedding_ext.
  - apply getMockEmbedding_length.
  - apply getMockEmbedding_lookup.
Qed.

Lemma getMockEmbedding_deterministic_witness :
  RAG.getMockEmbedding _ Fixtures.ragEnv "material breach of contract"
  = RAG.getMockEmbedding _ Fixtures.ragEnvWithKey "material breach of contract"
  /\ length (RAG.getMockEmbedding _ Fixtures.ragEnv
               "material breach of contract") = 1536%nat.
Proof.
  destruct (getMockEmbedding_deterministic Fixtures.ragEnv
              Fixtures.ragEnvWithKey "material breach of contract")
    as (Heq & Hlen & _); [reflexivity|].
  split; [exact Heq|exact Hlen].
Defined.

(** The embedding call itself never throws: without a key, and when the
    backend fails, it answers with the fallback embedding. *)
Lemma getEmbedding_total {Index} (env : RAG.Env Index) (text : string) :
  exists v, RAG.getEmbedding Index env text = Returned v.
Proof.
  unfold RAG.getEmbedding.
  destruct (RAG.OPENAI_API_KEY env); simpl; [|by eexists].
  destruct (RAG.embeddings_create env _); simpl; by eexists.
Qed.

Lemma getEmbedding_mock {Index} (env : RAG.Env Index) (text : string) :
  RAG.OPENAI_API_KEY env = false ->
  RAG.getEmbedding Index env text
  = Returned (RAG.getMockEmbedding Index env text).
Proof. intros H. unfold RAG.getEmbedding. by rewrite H. Qed.

(** ** Retrieval engine: [query] *)

Lemma length_omap_le {A B} (f : A -> option B) (l : list A) :
  (length (omap (M:=list) f l) <= length l)%nat.
Proof.
  induction l as [|x l IH]; csimpl; [done|].
  destruct (f x); csimpl; lia.
Qed.

Lemma filterM_sublist (f : RAG.RAGFilters)
    (results kept : list RAG.ScoredDocument) :
  RAG.filterM f results = Returned kept -> kept `sublist_of` results.
Proof.
  revert kept. induction results as [|r results IH]; intros kept; simpl.
  - intros [= <-]. constructor.
  - destruct (RAG.passesFilters f r) as [keep|]; simpl; [|done].
    destruct (RAG.filterM f results) as [kept'|]; simpl; [|done].
    intros [= <-]. destruct keep.
    + apply sublist_skip. by apply IH.
    + apply sublist_cons. by apply IH.
Qed.

Lemma applyFilters_sublist
    (results kept : list RAG.ScoredDocument) (filters : option RAG.RAGFilters) :
  RAG.applyFilters results filters = Returned kept ->
  kept `sublist_of` results.
Proof.
  destruct filters as [f|]; simpl.
  - apply filterM_sublist.
  - by intros [= <-].
Qed.

Lemma Qlt_b_false (x y : Q) : Qlt_b x y = false -> (y <= x)%Q.
Proof.
  unfold Qlt_b. intros H. apply negb_false_iff in H.
  by apply Qle_bool_iff.
Qed.

Lemma scoreNeighbor_Some {Index} (this : RAG.t Index) (thr : Q)
    (hit : nat * Q) (r : RAG.ScoredDocument) :
  RAG.scoreNeighbor Index this thr hit = Some r ->
  RAG.service_documents this !! hit.1 = Some (RAG.stored r)
  /\ RAG.score r = (1 - hit.2)%Q
  /\ (thr <= RAG.score r)%Q.
Proof.
  unfold RAG.scoreNeighbor.
  destruct (RAG.service_documents this !! hit.1) as [document|]; [|done].
  destruct (Qlt_b (1 - hit.2) thr) eqn:Hlt; [done|].
  intros [= <-]. simpl. split_and!; [done..|]. by apply Qlt_b_false.
Qed.

Lemma searchSimilar_spec {Index} (env : RAG.Env Index) (this : RAG.t Index)
    (q : RAG.Vec) (k : Z) (thr : Q) (results : list RAG.ScoredDocument) :
  (forall idx hits,
     RAG.searchKnn env idx q k = Returned hits ->
     Z.of_nat (length hits) <= Z.max 0 k) ->
  RAG.searchSimilar Index env this q k thr = Returned results ->
  Z.of_nat (length results) <= Z.max 0 k
  /\ Forall (fun r => (thr <= RAG.score r)%Q) results.
Proof.
  intros Hknn. unfold RAG.searchSimilar.
  destruct (RAG.vectorIndex this) as [idx|];
    [|intros [= <-]; split; [simpl; lia|constructor]].
  case_decide; [intros [= <-]; split; [simpl; lia|constructor]|].
  destruct (RAG.searchKnn env idx q k) as [hits|] eqn:Hhits; simpl; [|done].
  intros [= <-]. split.
  - specialize (Hknn idx hits Hhits).
    pose proof (length_omap_le (RAG.scoreNeighbor Index this thr) hits). lia.
  - apply Forall_forall. intros r Hr.
    apply list_elem_of_omap in Hr as (hit & _ & Hsome).
    by apply scoreNeighbor_Some in Hsome as (_ & _ & ?).
Qed.

(** C6 (as the code has it): [query] returns no item scoring below the
    threshold in force, which is the requested threshold, or 0.7 when that
    is 0 or omitted, so in every case no item below the requested threshold;
    and it returns at most as many items as the number of neighbours asked
    of the index, which is [maxResults], or 10 when that is 0 or omitted. *)
Theorem query_respects_threshold_and_limit
    {Index} (env : RAG.Env Index) (request : RAG.RAGQuery)
    (this this' : RAG.t Index) (result : RAG.RAGResult) :
  (forall idx q k hits,
     RAG.searchKnn env idx q k = Returned hits ->
     Z.of_nat (length hits) <= Z.max 0 k) ->
  RAG.query Index env request this = (this', Returned result) ->
  Z.of_nat (length (RAG.documents result))
    <= Z.max 0 (or_default_Z (RAG.maxResults request) 10)
  /\ Forall (fun d =>
               (or_default_Q (RAG.threshold request) (7 # 10)
                <= RAG.relevanceScore d)%Q) (RAG.documents result)
  /\ (forall n, RAG.maxResults request = Some n -> n <> 0 ->
        Z.of_nat (length (RAG.documents result)) <= Z.max 0 n)
  /\ (forall th, RAG.threshold request = Some th ->
        Forall (fun d => (th <= RAG.relevanceScore d)%Q)
               (RAG.documents result)).
Proof.
  intros Hknn Hquery.
  assert (Hmain :
    Z.of_nat (length (RAG.documents result))
      <= Z.max 0 (or_default_Z (RAG.maxResults request) 10)
    /\ Forall (fun d =>
                 (or_default_Q (RAG.threshold request) (7 # 10)
                  <= RAG.relevanceScore d)%Q) (RAG.documents result)).
  { unfold RAG.query in Hquery.
    destruct (if RAG.isInitialized this then (this, Returned ())
              else RAG.initialize Index env this) as [this1 ready].
    destruct ready; [|done].
    injection Hquery as _ Hbody.
    unfold RAG.query_body in Hbody.
    destruct (RAG.getEmbedding Index env (RAG.query_text request))
      as [q|]; simpl in Hbody;
      [|injection Hbody as <-; split; [simpl; lia|constructor]].
    destruct (RAG.searchSimilar Index env this1 q _ _) as [results|] eqn:Hs;
      simpl in Hbody;
      [|injection Hbody as <-; split; [simpl; lia|constructor]].
    destruct (RAG.applyFilters results (RAG.filters request))
      as [kept|] eqn:Hf; simpl in Hbody;
      [|injection Hbody as <-; split; [simpl; lia|constructor]].
    injection Hbody as <-. simpl.
    apply searchSimilar_spec in Hs as [Hlen Hthr]; [|by intros; eapply Hknn].
    apply applyFilters_sublist in Hf.
    split.
    - rewrite length_map. apply sublist_length in Hf. lia.
    - apply Forall_forall. intros d Hd.
      apply list_elem_of_In, in_map_iff in Hd as (r & <- & Hr).
      apply list_elem_of_In in Hr. simpl.
      rewrite Forall_forall in Hthr. apply Hthr.
      by apply (sublist_subseteq _ _ Hf). }
  destruct Hmain as [Hlen Hthr]. split_and!; [done|done| |].
  - intros n Hn Hn0. rewrite Hn in Hlen. unfold or_default_Z in Hlen.
    by rewrite decide_False in Hlen.
  - intros th Hth. rewrite Hth in Hthr.
    eapply Forall_impl; [exact Hthr|]. intros d Hd. simpl in Hd.
    unfold or_default_Q in Hd. destruct (Qeq_bool th 0) eqn:Heq.
    + apply Qeq_bool_iff in Heq. rewrite Heq.
      eapply Qle_trans; [|exact Hd]. done.
    + done.
Qed.

Lemma ExactIndex_searchKnn_length (idx : ExactIndex.Index) (q : RAG.Vec)
    (k : Z) (hits : list (nat * Q)) :
  ExactIndex.searchKnn idx q k = Returned hits ->
  Z.of_nat (length hits) <= Z.max 0 k.
Proof.
  unfold ExactIndex.searchKnn. intros [= <-]. rewrite length_take. lia.
Qed.

Lemma query_respects_threshold_and_limit_witness :
  Z.of_nat (length (RAG.documents Fixtures.resultA))
    <= Z.max 0 (or_default_Z (Some 5) 10)
  /\ Forall (fun d => (or_default_Q None (7 # 10) <= RAG.relevanceScore d)%Q)
            (RAG.documents Fixtures.resultA).
Proof.
  destruct (query_respects_threshold_and_limit Fixtures.ragEnv
              (Fixtures.queryFor "material breach of contract" (Some 5))
              Fixtures.serviceA Fixtures.serviceA Fixtures.resultA)
    as (Hlen & Hthr & _).
  - intros idx q k hits. apply ExactIndex_searchKnn_length.
  - vm_compute. reflexivity.
  - split; [exact Hlen|exact Hthr].
Defined.

(** C6 (the claim as stated fails): with [maxResults = 0] the index is
    asked for 10 neighbours and the result holds one document, more than
    the 0 requested. *)
Lemma query_maxResults_zero_returns_a_document :
  RAG.query ExactIndex.Index Fixtures.ragEnv
    (Fixtures.queryFor "material breach of contract" (Some 0))
    Fixtures.serviceA
  = (Fixtures.serviceA, Returned Fixtures.resultA)
  /\ length (RAG.documents Fixtures.resultA) = 1%nat
  /\ ~ Z.of_nat (length (RAG.documents Fixtures.resultA)) <= 0.
Proof.
  split_and!.
  - vm_compute. reflexivity.
  - reflexivity.
  - simpl. lia.
Qed.






(** ** Retrieval engine: [addDocument] followed by [query] *)

Lemma addDocument_initialized {Index} (env : RAG.Env Index)
    (doc : RAG.InputDocument) (this : RAG.t Index) :
  RAG.isInitialized this = true ->
  (RAG.addDocument Index env doc this).1 = this
  \/ exists vectorIndex',
       (RAG.addDocument Index env doc this).1
       = {| RAG.vectorIndex := vectorIndex';
            RAG.service_documents :=
              <[size (RAG.service_documents this) :=
                  RAG.store doc (size (RAG.service_documents this))]>
                (RAG.service_documents this);
            RAG.isInitialized := true |}.
Proof.
  intros Hinit. unfold RAG.addDocument. rewrite Hinit.
  destruct (RAG.getEmbedding Index env (RAG.in_content doc)); [|by left].
  destruct (RAG.vectorIndex this) as [idx|]; simpl.
  - destruct (RAG.addPoint env idx _ _); simpl; [|by left].
    right. rewrite Hinit. by eexists.
  - right. rewrite Hinit. by eexists.
Qed.

Lemma contiguous_next_unused {Index} (this : RAG.t Index) :
  RAGSpec.contiguous this ->
  RAG.service_documents this !! size (RAG.service_documents this) = None.
Proof.
  intros Hc.
  destruct (RAG.service_documents this !! size (RAG.service_documents this))
    as [sd|] eqn:Hl; [|done].
  apply Hc in Hl. simpl in Hl. lia.
Qed.

(** A call of [addDocument], whatever its outcome, keeps the documents
    already stored under their labels. *)
Lemma addDocument_keeps {Index} (env : RAG.Env Index)
    (doc : RAG.InputDocument) (this : RAG.t Index) :
  RAG.isInitialized this = true ->
  RAGSpec.contiguous this ->
  RAG.isInitialized (RAG.addDocument Index env doc this).1 = true
  /\ RAGSpec.contiguous (RAG.addDocument Index env doc this).1
  /\ (forall label sd,
        RAG.service_documents this !! label = Some sd ->
        RAG.service_documents (RAG.addDocument Index env doc this).1 !! label
        = Some sd).
Proof.
  intros Hinit Hc.
  destruct (addDocument_initialized env doc this Hinit) as [->|[vi ->]];
    [done|].
  pose proof (contiguous_next_unused this Hc) as Hnext.
  simpl. split_and!; [done| |].
  - unfold RAGSpec.contiguous. simpl.
    rewrite map_size_insert_None by done.
    apply map_Forall_insert; [done|]. split; [lia|].
    intros label sd Hl. apply Hc in Hl. simpl in Hl. lia.
  - intros label sd Hl. rewrite lookup_insert_ne; [done|].
    intros <-. congruence.
Qed.








(** Under the fallback embedder the query embedding of a text equal to the
    content is the very vector [addDocument] handed to the index. *)
Lemma fallback_embedding_of_content {Index} (env env' : RAG.Env Index)
    (doc : RAG.InputDocument) (request : RAG.RAGQuery) :
  RAG.OPENAI_API_KEY env = false ->
  RAG.OPENAI_API_KEY env' = false ->
  (forall z, RAG.Math_sin env z = RAG.Math_sin env' z) ->
  RAG.query_text request = RAG.in_content doc ->
  RAG.getEmbedding Index env' (RAG.query_text request)
  = RAG.getEmbedding Index env (RAG.in_content doc).
Proof.
  intros Hkey Hkey' Hsin ->. rewrite !getEmbedding_mock by done.
  f_equal. symmetry. by apply getMockEmbedding_ext.
Qed.


(** ** Orchestrator: the helper methods

    The helper methods look the record up by workflow id; on a workflow
    that is present they make the writes the stage loop makes on the record
    it holds. *)

Lemma updateWorkflowProgress_record (wid : string) (stage : WorkflowStage)
    (this : Orchestrator.t) (ws : Orchestrator.WorkflowState) :
  Orchestrator.activeWorkflows this !! wid = Some ws ->
  Orchestrator.activeWorkflows
    (Orchestrator.updateWorkflowProgress wid stage this).1 !! wid
  = Some (Orchestrator.set_currentStage stage
            (Orchestrator.set_progress (Orchestrator.progressOf stage) ws))
  /\ (Orchestrator.updateWorkflowProgress wid stage this).2
     = [Orchestrator.workflow_progress wid (Orchestrator.caseId ws)
          (Orchestrator.progressOf stage) stage].
Proof.
  intros Hl. unfold Orchestrator.updateWorkflowProgress. rewrite Hl. simpl.
  by rewrite lookup_alter_eq, Hl.
Qed.

Lemma addWorkflowError_record (wid : string) (stage : WorkflowStage)
    (agent error : string) (severity : Orchestrator.Severity)
    (this : Orchestrator.t) (ws : Orchestrator.WorkflowState) :
  Orchestrator.activeWorkflows this !! wid = Some ws ->
  Orchestrator.activeWorkflows
    (Orchestrator.addWorkflowError wid stage agent error severity this) !! wid
  = Some (Orchestrator.push_error
            (Orchestrator.mkError stage agent error severity) ws).
Proof.
  intros Hl. unfold Orchestrator.addWorkflowError. simpl.
  by rewrite lookup_alter_eq, Hl.
Qed.

Lemma addWorkflowLog_record (wid : string) (stage : WorkflowStage)
    (agent action details : string) (duration : Z)
    (this : Orchestrator.t) (ws : Orchestrator.WorkflowState) :
  Orchestrator.activeWorkflows this !! wid = Some ws ->
  Orchestrator.activeWorkflows
    (Orchestrator.addWorkflowLog wid stage agent action details duration this)
    !! wid
  = Some (Orchestrator.push_log
            (Orchestrator.mkLog stage agent action details duration) ws).
Proof.
  intros Hl. unfold Orchestrator.addWorkflowLog. simpl.
  by rewrite lookup_alter_eq, Hl.
Qed.

(** ** Orchestrator: the stage loop *)

Lemma includes_true {A} `{EqDecision A} (l : list A) (x : A) :
  includes l x = true <-> x ∈ l.
Proof. unfold includes. apply bool_decide_eq_true. Qed.

Lemma includes_false {A} `{EqDecision A} (l : list A) (x : A) :
  includes l x = false <-> x ∉ l.
Proof. unfold includes. apply bool_decide_eq_false. Qed.

(** The loop over a concatenation runs the first part, then, when that
    part returned, the second part on what the first left. *)
Lemma runStages_app (env : Orchestrator.Env) (wid : string)
    (stages1 stages2 : list WorkflowStage) :
  forall (c : LegalCase) (agents : gmap string BaseAgent.t)
         (ws : Orchestrator.WorkflowState),
  Orchestrator.runStages env wid (stages1 ++ stages2) c agents ws
  = match Orchestrator.runStages env wid stages1 c agents ws with
    | (agents1, ws1, events1, Returned c1) =>
        let '(agents2, ws2, events2, r) :=
          Orchestrator.runStages env wid stages2 c1 agents1 ws1 in
        (agents2, ws2, events1 ++ events2, r)
    | (agents1, ws1, events1, Threw m) => (agents1, ws1, events1, Threw m)
    end.
Proof.
  induction stages1 as [|stage stages1 IH]; intros c agents ws; simpl.
  - by destruct (Orchestrator.runStages env wid stages2 c agents ws)
      as [[[? ?] ?] ?].
  - destruct (includes _ stage); [apply IH|].
    destruct (Orchestrator.getAgentForStage agents stage) as [[key agent]|];
      [|done].
    destruct (BaseAgent.process _ _ agent c) as [agent' [c'|m]]; [|done].
    rewrite IH.
    destruct (Orchestrator.runStages env wid stages1 c' _ _)
      as [[[agents1 ws1] events1] [c1|m]]; [|done].
    destruct (Orchestrator.runStages env wid stages2 c1 agents1 ws1)
      as [[[agents2 ws2] events2] r].
    done.
Qed.

(** The loop appends to [completedStages] stages of its list that were
    not completed, each once; it touches the error log only when it
    throws, and it emits no [workflow-completed] event. *)
Lemma runStages_completed (env : Orchestrator.Env) (wid : string)
    (stages : list WorkflowStage) :
  NoDup stages ->
  forall c agents ws agents' ws' events r,
  Orchestrator.runStages env wid stages c agents ws = (agents', ws', events, r) ->
  (exists added,
     Orchestrator.completedStages ws'
     = Orchestrator.completedStages ws ++ added
     /\ NoDup added
     /\ (forall s, s ∈ added ->
           s ∈ stages /\ s ∉ Orchestrator.completedStages ws))
  /\ (isReturned r = true ->
      Orchestrator.errors ws' = Orchestrator.errors ws)
  /\ Forall (fun e => OrchestratorSpec.isWorkflowCompleted e = false) events
  /\ Orchestrator.caseId ws' = Orchestrator.caseId ws.
Proof.
  induction 1 as [|stage stages Hstage Hnd IH];
    intros c agents ws agents' ws' events r; simpl.
  - intros [= <- <- <- <-]. split_and!; try done.
    exists []. rewrite app_nil_r. split_and!; [done|constructor|].
    by intros s Hs%elem_of_nil.
  - destruct (includes _ stage) eqn:Hinc.
    { intros Hrun. apply IH in Hrun as ((added & Hadd & Hnd' & Hin) & ? & ? & ?).
      split_and!; try done. exists added. split_and!; try done.
      intros s Hs. destruct (Hin s Hs). split; [by right|done]. }
    apply includes_false in Hinc.
    destruct (Orchestrator.getAgentForStage agents stage) as [[key agent]|].
    2:{ intros [= <- <- <- <-]. simpl. split_and!; try done.
        - exists []. rewrite app_nil_r. split_and!; [done|constructor|].
          by intros s Hs%elem_of_nil.
        - by repeat constructor. }
    destruct (BaseAgent.process _ _ agent c) as [agent' [c'|m]].
    2:{ intros [= <- <- <- <-]. simpl. split_and!; try done.
        - exists []. rewrite app_nil_r. split_and!; [done|constructor|].
          by intros s Hs%elem_of_nil.
        - by repeat constructor. }
    destruct (Orchestrator.runStages env wid stages c' _ _)
      as [[[agents1 ws1] events1] r1] eqn:Hrun.
    intros [= <- <- <- <-].
    apply IH in Hrun as ((added & Hadd & Hnd' & Hin) & Herr & Hev & Hid).
    simpl in *. split_and!; try done.
    + exists (stage :: added). split_and!.
      * by rewrite Hadd, <- app_assoc.
      * constructor; [|done]. intros Hs. apply Hin in Hs as [_ Hs].
        apply Hs. apply elem_of_app. right. left.
      * intros s Hs. apply elem_of_cons in Hs as [->|Hs]; [split; [left|done]|].
        destruct (Hin s Hs) as [? Hnot]. split; [by right|].
        intros ?. apply Hnot. apply elem_of_app. by left.
    + by repeat constructor.
Qed.

(** ** Orchestrator: progress *)

Lemma stageRank_range (stage : WorkflowStage) :
  0 <= OrchestratorSpec.stageRank stage <= 6.
Proof. destruct stage; simpl; lia. Qed.

Lemma stageRank_lookup (stage : WorkflowStage) (i : nat) :
  Orchestrator.getWorkflowStages !! i = Some stage ->
  OrchestratorSpec.stageRank stage = Z.of_nat i.
Proof.
  unfold Orchestrator.getWorkflowStages.
  do 6 (destruct i as [|i]; [by intros [= <-]|]). done.
Qed.

Lemma progressOf_rank (stage : WorkflowStage) :
  stage <> completed ->
  Orchestrator.progressOf stage
  = OrchestratorSpec.progressAt (OrchestratorSpec.stageRank stage).
Proof. destruct stage; intros H; try done; by vm_compute. Qed.

Lemma progressAt_values :
  map OrchestratorSpec.progressAt [0; 1; 2; 3; 4; 5; 6]
  = [0; 17; 33; 50; 67; 83; 100].
Proof. by vm_compute. Qed.

Lemma progressAt_mono (s1 s2 : WorkflowStage) :
  OrchestratorSpec.stageRank s1 <= OrchestratorSpec.stageRank s2 ->
  OrchestratorSpec.progressAt (OrchestratorSpec.stageRank s1)
  <= OrchestratorSpec.progressAt (OrchestratorSpec.stageRank s2).
Proof.
  destruct s1, s2; simpl; intros H; try lia; by vm_compute.
Qed.

Lemma stage_in_pipeline (stage : WorkflowStage) :
  stage ∈ Orchestrator.getWorkflowStages <-> stage <> completed.
Proof.
  unfold Orchestrator.getWorkflowStages.
  destruct stage; rewrite !elem_of_cons, elem_of_nil; split; intros H;
    try done; intuition (auto 10; discriminate).
Qed.

(** The stages the loop has passed are those of a lower rank. *)
Lemma stages_before (passed rest : list WorkflowStage) (stage x : WorkflowStage) :
  passed ++ stage :: rest = Orchestrator.getWorkflowStages ->
  OrchestratorSpec.stageRank x < OrchestratorSpec.stageRank stage ->
  x ∈ passed.
Proof.
  unfold Orchestrator.getWorkflowStages. intros Hsplit Hrank.
  do 7 (destruct passed as [|? passed];
        [simplify_eq/=; destruct x; simpl in Hrank; try lia; set_solver
        |simplify_eq/=]).
Qed.

(** The loop keeps the progress consistent with the current stage, never
    lowers it, and its [workflow-progress] events go up from the progress
    it started with to the progress it ends with. *)
Lemma runStages_progress (env : Orchestrator.Env) (wid : string)
    (rest : list WorkflowStage) :
  forall passed c agents ws agents' ws' events r,
  passed ++ rest = Orchestrator.getWorkflowStages ->
  (forall s, s ∈ passed -> s ∈ Orchestrator.completedStages ws) ->
  OrchestratorSpec.progressConsistent ws ->
  OrchestratorSpec.earlierStagesCompleted ws ->
  Orchestrator.runStages env wid rest c agents ws = (agents', ws', events, r) ->
  OrchestratorSpec.progressConsistent ws'
  /\ OrchestratorSpec.earlierStagesCompleted ws'
  /\ Orchestrator.progress ws <= Orchestrator.progress ws'
  /\ (isReturned r = true ->
      forall s, s ∈ Orchestrator.getWorkflowStages ->
                s ∈ Orchestrator.completedStages ws')
  /\ Sorted Z.le
       (Orchestrator.progress ws
        :: OrchestratorSpec.progressValues events
        ++ [Orchestrator.progress ws']).
Proof.
  induction rest as [|stage rest IH];
    intros passed c agents ws agents' ws' events r Hsplit Hpassed Hcons Hearly;
    simpl.
  - intros [= <- <- <- <-]. rewrite app_nil_r in Hsplit. subst passed.
    split_and!; try done.
    repeat constructor. lia.
  - assert (Hsplit' : (passed ++ [stage]) ++ rest
                      = Orchestrator.getWorkflowStages)
      by by rewrite <- app_assoc.
    destruct (includes _ stage) eqn:Hinc.
    { apply includes_true in Hinc. apply (IH (passed ++ [stage])); try done.
      intros s Hs. apply elem_of_app in Hs as [Hs|Hs]; [by apply Hpassed|].
      apply list_elem_of_singleton in Hs. by subst. }
    apply includes_false in Hinc.
    assert (Hstage : stage <> completed).
    { apply stage_in_pipeline. rewrite <- Hsplit. apply elem_of_app. right.
      left. }
    assert (Hrank : OrchestratorSpec.stageRank (Orchestrator.currentStage ws)
                    <= OrchestratorSpec.stageRank stage).
    { destruct (decide (OrchestratorSpec.stageRank stage
                        < OrchestratorSpec.stageRank
                            (Orchestrator.currentStage ws))) as [Hlt|]; [|lia].
      by apply Hearly in Hlt. }
    assert (Hup : Orchestrator.progress ws <= Orchestrator.progressOf stage).
    { rewrite Hcons, progressOf_rank by done. by apply progressAt_mono. }
    set (ws1 := Orchestrator.set_currentStage stage
                  (Orchestrator.set_progress (Orchestrator.progressOf stage)
                     (Orchestrator.set_currentStage stage ws))).
    assert (Hcons1 : OrchestratorSpec.progressConsistent ws1).
    { unfold OrchestratorSpec.progressConsistent. simpl.
      by apply progressOf_rank. }
    assert (Hearly1 : OrchestratorSpec.earlierStagesCompleted ws1).
    { intros x Hx. simpl in *. apply Hpassed.
      by apply (stages_before passed rest stage x). }
    assert (Hstop : Sorted Z.le
              (Orchestrator.progress ws
               :: [Orchestrator.progressOf stage]
               ++ [Orchestrator.progressOf stage])).
    { repeat constructor; lia. }
    destruct (Orchestrator.getAgentForStage agents stage) as [[key agent]|].
    2:{ intros [= <- <- <- <-]. by split_and!. }
    destruct (BaseAgent.process _ _ agent c) as [agent' [c'|m]].
    2:{ intros [= <- <- <- <-]. by split_and!. }
    destruct (Orchestrator.runStages env wid rest c' _ _)
      as [[[agents1 ws2] events1] r1] eqn:Hrun.
    intros [= <- <- <- <-].
    apply (IH (passed ++ [stage])) in Hrun
      as (Hcons2 & Hearly2 & Hle & Hall & Hsorted); try done.
    + split_and!; try done.
      * simpl in Hle. lia.
      * unfold OrchestratorSpec.progressValues in *. csimpl in *.
        constructor; [exact Hsorted|]. constructor. lia.
    + intros s Hs. simpl. apply elem_of_app.
      apply elem_of_app in Hs as [Hs|Hs]; [left; by apply Hpassed|by right].
    + intros x Hx. simpl in *. apply elem_of_app. left. by apply Hearly1.
Qed.

(** ** Orchestrator: what one call does to a workflow record *)

Lemma getWorkflowStages_NoDup : NoDup Orchestrator.getWorkflowStages.
Proof. apply (bool_decide_unpack _). by vm_compute. Qed.

Lemma invariant_push_log (log : Orchestrator.WorkflowLog)
    (ws : Orchestrator.WorkflowState) :
  OrchestratorSpec.invariant ws ->
  OrchestratorSpec.invariant (Orchestrator.push_log log ws).
Proof. by intros (? & ? & ?). Qed.

Lemma invariant_push_error (e : Orchestrator.WorkflowError)
    (ws : Orchestrator.WorkflowState) :
  OrchestratorSpec.invariant ws ->
  OrchestratorSpec.invariant (Orchestrator.push_error e ws).
Proof. by intros (? & ? & ?). Qed.

(** The record [processWorkflow] leaves for a workflow it found. *)
Lemma processWorkflow_record (env : Orchestrator.Env) (wid : string)
    (c : LegalCase) (this : Orchestrator.t) (ws : Orchestrator.WorkflowState) :
  Orchestrator.activeWorkflows this !! wid = Some ws ->
  OrchestratorSpec.invariant ws ->
  exists ws',
    Orchestrator.activeWorkflows (Orchestrator.processWorkflow env wid c this).1.1
    = <[wid := ws']> (Orchestrator.activeWorkflows this)
    /\ Orchestrator.completedStages ws `prefix_of` Orchestrator.completedStages ws'
    /\ Orchestrator.progress ws <= Orchestrator.progress ws'
    /\ OrchestratorSpec.invariant ws'.
Proof.
  intros Hl (Hcons & Hearly & Hnd). unfold Orchestrator.processWorkflow.
  rewrite Hl.
  destruct (Orchestrator.runStages env wid Orchestrator.getWorkflowStages c
              (Orchestrator.agents this) ws)
    as [[[agents1 ws1] events] r] eqn:Hrun.
  pose proof Hrun as Hrun'.
  apply runStages_completed in Hrun
    as ((added & Hadd & Hnd' & Hin) & _); [|apply getWorkflowStages_NoDup].
  apply (runStages_progress env wid _ []) in Hrun'
    as (Hcons1 & Hearly1 & Hle & Hall & _); try done;
    [|by intros s Hs%elem_of_nil].
  assert (Hnd1 : NoDup (Orchestrator.completedStages ws1)).
  { rewrite Hadd. apply NoDup_app. split_and!; [done| |done].
    intros s Hs Hs'. by apply Hin in Hs' as [_ ?]. }
  destruct r as [currentCase|m]; simpl.
  - eexists. split; [done|]. simpl. split_and!.
    + rewrite Hadd. by apply prefix_app_r.
    + rewrite Hcons1 in Hle.
      pose proof (progressAt_mono (Orchestrator.currentStage ws1) completed)
        as Hmono.
      pose proof (stageRank_range (Orchestrator.currentStage ws1)).
      assert (OrchestratorSpec.progressAt
                (OrchestratorSpec.stageRank completed) = 100) as Hfull
        by by vm_compute.
      rewrite Hfull in Hmono. simpl in Hmono. lia.
    + split_and!; [by vm_compute| |done].
      intros s Hs. simpl in *. apply Hall; [done|].
      apply stage_in_pipeline. intros ->. simpl in Hs. lia.
  - eexists. split; [done|]. simpl. split_and!; [|done|done].
    rewrite Hadd. by apply prefix_app_r.
Qed.

Lemma processQueue_workflows (this : Orchestrator.t) :
  Orchestrator.activeWorkflows (Orchestrator.processQueue this).1
  = Orchestrator.activeWorkflows this.
Proof.
  unfold Orchestrator.processQueue.
  by destruct (Orchestrator.isProcessing this || _).
Qed.

Lemma startWorkflow_workflows (env : Orchestrator.Env) (c : LegalCase)
    (this : Orchestrator.t) :
  exists ws0,
    Orchestrator.activeWorkflows (Orchestrator.startWorkflow env c this).1.1
    = <[Orchestrator.uuidv4 env := ws0]> (Orchestrator.activeWorkflows this)
    /\ Orchestrator.currentStage ws0 = plaintiff_intake
    /\ Orchestrator.progress ws0 = 0
    /\ Orchestrator.completedStages ws0 = []
    /\ Orchestrator.errors ws0 = []
    /\ Orchestrator.caseId ws0 = id c.
Proof.
  unfold Orchestrator.startWorkflow.
  match goal with
  | |- context [Orchestrator.processQueue ?x] => set (this1 := x)
  end.
  assert (Hmap : exists ws0,
    Orchestrator.activeWorkflows this1
    = <[Orchestrator.uuidv4 env := ws0]> (Orchestrator.activeWorkflows this)
    /\ Orchestrator.currentStage ws0 = plaintiff_intake
    /\ Orchestrator.progress ws0 = 0
    /\ Orchestrator.completedStages ws0 = []
    /\ Orchestrator.errors ws0 = []
    /\ Orchestrator.caseId ws0 = id c).
  { eexists. split.
    - unfold this1, Orchestrator.addWorkflowLog, Orchestrator.modifyWorkflow.
      simpl. by rewrite alter_insert_eq.
    - done. }
  destruct Hmap as (ws0 & Hmap & Hrest). exists ws0. split; [|done].
  rewrite <- Hmap.
  destruct (Orchestrator.isProcessing this1); [done|].
  rewrite <- (processQueue_workflows this1).
  by destruct (Orchestrator.processQueue this1).
Qed.

(** One call, seen from a workflow id: a record that was there is extended
    or, by [cancelWorkflow] of that id, removed; a record that appears is
    the initial one. *)
Lemma exec_step (env : Orchestrator.Env) (op : Orchestrator.Op)
    (this : Orchestrator.t) (wid : string) :
  Orchestrator.freshId env op this ->
  (forall w ws, Orchestrator.activeWorkflows this !! w = Some ws ->
                OrchestratorSpec.invariant ws) ->
  match Orchestrator.activeWorkflows this !! wid with
  | Some ws =>
      (exists ws',
         Orchestrator.activeWorkflows (Orchestrator.exec env op this).1 !! wid
         = Some ws'
         /\ Orchestrator.completedStages ws
            `prefix_of` Orchestrator.completedStages ws'
         /\ Orchestrator.progress ws <= Orchestrator.progress ws'
         /\ OrchestratorSpec.invariant ws')
      \/ (op = Orchestrator.op_cancelWorkflow wid
          /\ Orchestrator.activeWorkflows (Orchestrator.exec env op this).1
             !! wid = None)
  | None =>
      forall ws',
        Orchestrator.activeWorkflows (Orchestrator.exec env op this).1 !! wid
        = Some ws' ->
        OrchestratorSpec.invariant ws'
        /\ Orchestrator.currentStage ws' = plaintiff_intake
        /\ Orchestrator.progress ws' = 0
        /\ Orchestrator.completedStages ws' = []
  end.
Proof.
  intros Hfresh Hinv.
  assert (Hsame : forall ws,
    Orchestrator.activeWorkflows this !! wid = Some ws ->
    OrchestratorSpec.invariant ws ->
    exists ws',
      Some ws = Some ws'
      /\ Orchestrator.completedStages ws
         `prefix_of` Orchestrator.completedStages ws'
      /\ Orchestrator.progress ws <= Orchestrator.progress ws'
      /\ OrchestratorSpec.invariant ws').
  { intros ws _ Hws. exists ws. split_and!; first [done|lia]. }
  destruct op as [c|wid0 c|wid0|wid0]; simpl in *.
  - destruct (startWorkflow_workflows env c this)
      as (ws0 & -> & Hstage & Hprog & Hdone & _).
    destruct (decide (Orchestrator.uuidv4 env = wid)) as [<-|Hne].
    + rewrite Hfresh, lookup_insert_eq. intros ws' [= <-].
      split_and!; try done. split_and!.
      * unfold OrchestratorSpec.progressConsistent.
        rewrite Hstage, Hprog. by vm_compute.
      * intros s. rewrite Hstage. simpl.
        pose proof (stageRank_range s). lia.
      * rewrite Hdone. constructor.
    + rewrite lookup_insert_ne by done.
      destruct (Orchestrator.activeWorkflows this !! wid) as [ws|] eqn:Hl;
        [|done].
      left. apply Hsame; [done|by eapply Hinv].
  - destruct (Orchestrator.activeWorkflows this !! wid0) as [ws0|] eqn:Hl0.
    + destruct (processWorkflow_record env wid0 c this ws0 Hl0)
        as (ws' & -> & Hpre & Hle & Hinv'); [by eapply Hinv|].
      destruct (decide (wid0 = wid)) as [<-|Hne].
      * rewrite Hl0, lookup_insert_eq. left. by exists ws'.
      * rewrite lookup_insert_ne by done.
        destruct (Orchestrator.activeWorkflows this !! wid) as [ws|] eqn:Hl;
          [|done].
        left. apply Hsame; [done|by eapply Hinv].
    + unfold Orchestrator.processWorkflow. rewrite Hl0. simpl.
      destruct (Orchestrator.activeWorkflows this !! wid) as [ws|] eqn:Hl.
      * left. apply Hsame; [done|by eapply Hinv].
      * done.
  - unfold Orchestrator.pauseWorkflow.
    destruct (Orchestrator.activeWorkflows this !! wid0) as [ws0|] eqn:Hl0;
      simpl.
    + destruct (decide (wid0 = wid)) as [<-|Hne].
      * rewrite Hl0, lookup_alter_eq, Hl0. simpl. left. eexists.
        split_and!; [done|done|simpl; lia|].
        apply invariant_push_log. by eapply Hinv.
      * rewrite lookup_alter_ne by done.
        destruct (Orchestrator.activeWorkflows this !! wid) as [ws|] eqn:Hl;
          [|done].
        left. apply Hsame; [done|by eapply Hinv].
    + destruct (Orchestrator.activeWorkflows this !! wid) as [ws|] eqn:Hl.
      * left. apply Hsame; [done|by eapply Hinv].
      * done.
  - unfold Orchestrator.cancelWorkflow.
    destruct (Orchestrator.activeWorkflows this !! wid0) as [ws0|] eqn:Hl0;
      simpl.
    + destruct (decide (wid0 = wid)) as [<-|Hne].
      * rewrite Hl0, lookup_delete_eq. by right.
      * rewrite lookup_delete_ne, lookup_alter_ne by done.
        destruct (Orchestrator.activeWorkflows this !! wid) as [ws|] eqn:Hl;
          [|done].
        left. apply Hsame; [done|by eapply Hinv].
    + destruct (Orchestrator.activeWorkflows this !! wid) as [ws|] eqn:Hl.
      * left. apply Hsame; [done|by eapply Hinv].
      * done.
Qed.

(** Every record of a reachable orchestrator satisfies the invariant. *)
Lemma reachable_invariant (this : Orchestrator.t) :
  Orchestrator.reachable this ->
  forall wid ws,
    Orchestrator.activeWorkflows this !! wid = Some ws ->
    OrchestratorSpec.invariant ws.
Proof.
  induction 1 as [u1 u2 u3|env op this Hreach IH Hfresh]; intros wid ws.
  - simpl. by rewrite lookup_empty.
  - intros Hl. pose proof (exec_step env op this wid Hfresh IH) as Hstep.
    destruct (Orchestrator.activeWorkflows this !! wid) as [ws0|].
    + destruct Hstep as [(ws' & Hl' & _ & _ & Hinv)|[_ Hnone]]; [|congruence].
      rewrite Hl in Hl'. by injection Hl' as <-.
    + by apply Hstep in Hl as [? _].
Qed.

Lemma sorted_raise_last (l : list Z) (a b : Z) :
  Sorted Z.le (l ++ [a]) -> a <= b -> Sorted Z.le (l ++ [b]).
Proof.
  intros Hs Hab. induction l as [|x l IH]; simpl in *.
  - repeat constructor.
  - apply Sorted_inv in Hs as [Hs Hhd]. constructor; [by apply IH|].
    destruct l as [|y l]; simpl in *.
    + apply HdRel_inv in Hhd. constructor. lia.
    + apply HdRel_inv in Hhd. by constructor.
Qed.

Lemma progressValues_app (l1 l2 : list Orchestrator.Event) :
  OrchestratorSpec.progressValues (l1 ++ l2)
  = OrchestratorSpec.progressValues l1 ++ OrchestratorSpec.progressValues l2.
Proof.
  unfold OrchestratorSpec.progressValues.
  induction l1 as [|e l1 IH]; csimpl; [done|].
  rewrite IH. by destruct e.
Qed.

(** The [workflow-progress] events of one [processWorkflow] call go up
    from the progress before the call to the progress after it. *)
Lemma processWorkflow_progress_trace (env : Orchestrator.Env) (wid : string)
    (c : LegalCase) (this : Orchestrator.t)
    (ws ws' : Orchestrator.WorkflowState) :
  Orchestrator.activeWorkflows this !! wid = Some ws ->
  OrchestratorSpec.invariant ws ->
  Orchestrator.activeWorkflows (Orchestrator.processWorkflow env wid c this).1.1
    !! wid = Some ws' ->
  Sorted Z.le
    (Orchestrator.progress ws
     :: OrchestratorSpec.progressValues
          (Orchestrator.processWorkflow env wid c this).1.2
     ++ [Orchestrator.progress ws']).
Proof.
  intros Hl (Hcons & Hearly & Hnd). unfold Orchestrator.processWorkflow.
  rewrite Hl.
  destruct (Orchestrator.runStages env wid Orchestrator.getWorkflowStages c
              (Orchestrator.agents this) ws)
    as [[[agents1 ws1] events] r] eqn:Hrun.
  apply (runStages_progress env wid _ []) in Hrun
    as (Hcons1 & _ & _ & _ & Hsorted); try done;
    [|by intros s Hs%elem_of_nil].
  destruct r as [currentCase|m]; simpl; rewrite lookup_insert_eq;
    intros [= <-]; simpl; rewrite progressValues_app; csimpl;
    rewrite app_nil_r; [|done].
  apply (sorted_raise_last (_ :: _) (Orchestrator.progress ws1)); [done|].
  rewrite Hcons1.
  pose proof (progressAt_mono (Orchestrator.currentStage ws1) completed)
    as Hmono.
  pose proof (stageRank_range (Orchestrator.currentStage ws1)).
  assert (OrchestratorSpec.progressAt
            (OrchestratorSpec.stageRank completed) = 100) as Hfull
    by by vm_compute.
  rewrite Hfull in Hmono. simpl in Hmono. lia.
Qed.

(** A run in which every task returns: the workflow ends at [completed]
    with progress 100 and the six stages completed in order. *)
Example processWorkflow_all_stages :
  let run :=
    Orchestrator.processWorkflow Fixtures.allSucceedEnv "workflow-1"
      Fixtures.mockCase Fixtures.orchestrator1 in
  run.2 = Returned Fixtures.mockCase
  /\ ((fun ws => (Orchestrator.currentStage ws, Orchestrator.progress ws,
                  Orchestrator.completedStages ws, Orchestrator.errors ws))
      <$> Orchestrator.activeWorkflows run.1.1 !! "workflow-1")
     = Some (completed, 100, Orchestrator.getWorkflowStages, [])
  /\ OrchestratorSpec.progressValues run.1.2 = [0; 17; 33; 50; 67; 83].
Proof. split_and!; by vm_compute. Qed.

(** ** Orchestrator: the claims *)

(** C4: in every state a sequence of calls can produce, the progress of a
    workflow is [round(100 * i / 6)] when its current stage has index [i]
    in the six-stage pipeline and 100 when it is [completed]; no call
    lowers the progress of a workflow, and the progress values
    [processWorkflow] reports stage by stage go up from the progress before
    the call to the progress after it. *)
Theorem progress_follows_stage_and_never_decreases (this : Orchestrator.t) :
  Orchestrator.reachable this ->
  (forall wid ws,
     Orchestrator.activeWorkflows this !! wid = Some ws ->
     (forall i : nat,
        Orchestrator.getWorkflowStages !! i
        = Some (Orchestrator.currentStage ws) ->
        Orchestrator.progress ws
        = Math_round (inject_Z (100 * Z.of_nat i) / 6)%Q)
     /\ (Orchestrator.currentStage ws = completed ->
         Orchestrator.progress ws = 100))
  /\ (forall env op wid ws ws',
        Orchestrator.freshId env op this ->
        Orchestrator.activeWorkflows this !! wid = Some ws ->
        Orchestrator.activeWorkflows (Orchestrator.exec env op this).1 !! wid
        = Some ws' ->
        Orchestrator.progress ws <= Orchestrator.progress ws')
  /\ (forall env wid c ws ws',
        Orchestrator.activeWorkflows this !! wid = Some ws ->
        Orchestrator.activeWorkflows
          (Orchestrator.processWorkflow env wid c this).1.1 !! wid
        = Some ws' ->
        Sorted Z.le
          (Orchestrator.progress ws
           :: OrchestratorSpec.progressValues
                (Orchestrator.processWorkflow env wid c this).1.2
           ++ [Orchestrator.progress ws'])).
Proof.
  intros Hreach. pose proof (reachable_invariant this Hreach) as Hinv.
  split_and!.
  - intros wid ws Hl. destruct (Hinv wid ws Hl) as (Hcons & _ & _). split.
    + intros i Hi. rewrite Hcons. apply stageRank_lookup in Hi. by rewrite Hi.
    + intros Hc. rewrite Hcons, Hc. by vm_compute.
  - intros env op wid ws ws' Hfresh Hl Hl'.
    pose proof (exec_step env op this wid Hfresh Hinv) as Hstep.
    rewrite Hl in Hstep.
    destruct Hstep as [(ws1 & Hl1 & _ & Hle & _)|[_ Hnone]]; [|congruence].
    rewrite Hl' in Hl1. by injection Hl1 as <-.
  - intros env wid c ws ws' Hl Hl'.
    apply processWorkflow_progress_trace; [done| |done]. by eapply Hinv.
Qed.

Lemma reachable_orchestrator1 : Orchestrator.reachable Fixtures.orchestrator1.
Proof.
  apply (Orchestrator.reachable_exec Fixtures.researchFailsEnv
           (Orchestrator.op_startWorkflow Fixtures.mockCase)
           Fixtures.orchestrator0).
  - apply Orchestrator.reachable_new.
  - reflexivity.
Qed.

Lemma reachable_orchestrator2 : Orchestrator.reachable Fixtures.orchestrator2.
Proof.
  apply (Orchestrator.reachable_exec Fixtures.researchFailsEnv
           (Orchestrator.op_processWorkflow "workflow-1" Fixtures.mockCase)
           Fixtures.orchestrator1).
  - apply reachable_orchestrator1.
  - exact I.
Qed.

Lemma progress_follows_stage_and_never_decreases_witness :
  Orchestrator.currentStage Fixtures.workflow2 = legal_research
  /\ Orchestrator.progress Fixtures.workflow2
     = Math_round (inject_Z (100 * Z.of_nat 1) / 6)%Q
  /\ Orchestrator.progress Fixtures.workflow1
     <= Orchestrator.progress Fixtures.workflow2.
Proof.
  destruct (progress_follows_stage_and_never_decreases
              Fixtures.orchestrator2 reachable_orchestrator2)
    as (Hstage & _ & _).
  destruct (progress_follows_stage_and_never_decreases
              Fixtures.orchestrator1 reachable_orchestrator1)
    as (_ & Hmono & _).
  split_and!.
  - reflexivity.
  - apply (Hstage "workflow-1" Fixtures.workflow2); reflexivity.
  - apply (Hmono Fixtures.researchFailsEnv
             (Orchestrator.op_processWorkflow "workflow-1" Fixtures.mockCase)
             "workflow-1" Fixtures.workflow1 Fixtures.workflow2);
      [exact I|reflexivity|reflexivity].
Defined.

(** C8: in every state a sequence of calls can produce, [completedStages]
    holds no stage twice, and a call leaves the [completedStages] of a
    workflow a prefix of what it is afterwards; only [cancelWorkflow]
    removes the record of its workflow, as a whole. *)
Theorem completedStages_unique_and_append_only (this : Orchestrator.t) :
  Orchestrator.reachable this ->
  (forall wid ws,
     Orchestrator.activeWorkflows this !! wid = Some ws ->
     NoDup (Orchestrator.completedStages ws))
  /\ (forall env op wid ws,
        Orchestrator.freshId env op this ->
        Orchestrator.activeWorkflows this !! wid = Some ws ->
        (exists ws',
           Orchestrator.activeWorkflows (Orchestrator.exec env op this).1
             !! wid = Some ws'
           /\ Orchestrator.completedStages ws
              `prefix_of` Orchestrator.completedStages ws')
        \/ (op = Orchestrator.op_cancelWorkflow wid
            /\ Orchestrator.activeWorkflows (Orchestrator.exec env op this).1
               !! wid = None)).
Proof.
  intros Hreach. pose proof (reachable_invariant this Hreach) as Hinv.
  split.
  - intros wid ws Hl. by destruct (Hinv wid ws Hl) as (_ & _ & ?).
  - intros env op wid ws Hfresh Hl.
    pose proof (exec_step env op this wid Hfresh Hinv) as Hstep.
    rewrite Hl in Hstep.
    destruct Hstep as [(ws1 & Hl1 & Hpre & _)|Hcancel]; [left|by right].
    by exists ws1.
Qed.

Lemma completedStages_unique_and_append_only_witness :
  NoDup (Orchestrator.completedStages Fixtures.workflow2)
  /\ Orchestrator.completedStages Fixtures.workflow1
     `prefix_of` Orchestrator.completedStages Fixtures.workflow2.
Proof.
  destruct (completedStages_unique_and_append_only
              Fixtures.orchestrator2 reachable_orchestrator2) as (Hnd & _).
  destruct (completedStages_unique_and_append_only
              Fixtures.orchestrator1 reachable_orchestrator1) as (_ & Hgrow).
  split.
  - apply (Hnd "workflow-1" Fixtures.workflow2). reflexivity.
  - destruct (Hgrow Fixtures.researchFailsEnv
                (Orchestrator.op_processWorkflow "workflow-1" Fixtures.mockCase)
                "workflow-1" Fixtures.workflow1 I eq_refl)
      as [(ws' & Hl & Hpre)|[Hcancel _]]; [|discriminate Hcancel].
    change (Orchestrator.activeWorkflows Fixtures.orchestrator2 !! "workflow-1"
            = Some ws') in Hl.
    assert (ws' = Fixtures.workflow2) as <-; [|exact Hpre].
    unfold Fixtures.workflow2. by rewrite Hl.
Defined.

(** C1 (as the code has it): when the intake stage is passed and the call
    of the research agent throws, [processWorkflow] throws the same error,
    the error log gains exactly two entries for the research stage (one of
    severity high under the agent's name from the stage handler, one of
    severity critical under the orchestrator's name from the workflow
    handler), the workflow stays at the research stage with progress 17,
    and no [workflow-completed] event is emitted. *)
Theorem research_failure_logs_two_errors
    (env : Orchestrator.Env) (wid : string) (caseData afterIntake : LegalCase)
    (this : Orchestrator.t) (ws ws1 : Orchestrator.WorkflowState)
    (agents1 : gmap string BaseAgent.t) (events1 : list Orchestrator.Event)
    (agent agent' : BaseAgent.t) (message : string) :
  Orchestrator.activeWorkflows this !! wid = Some ws ->
  legal_research ∉ Orchestrator.completedStages ws ->
  Orchestrator.runStages env wid [plaintiff_intake] caseData
    (Orchestrator.agents this) ws
  = (agents1, ws1, events1, Returned afterIntake) ->
  agents1 !! "research" = Some agent ->
  BaseAgent.process (Orchestrator.executeTask env legal_research)
    (Orchestrator.processingTime env legal_research) agent afterIntake
  = (agent', Threw message) ->
  exists this' events ws',
    Orchestrator.processWorkflow env wid caseData this
    = (this', events, Threw message)
    /\ Orchestrator.activeWorkflows this' !! wid = Some ws'
    /\ Orchestrator.errors ws'
       = Orchestrator.errors ws
         ++ [Orchestrator.mkError legal_research
               (BaseAgent.name (BaseAgent.agent agent')) message
               Orchestrator.sev_high;
             Orchestrator.mkError legal_research "workflow-orchestrator"
               message Orchestrator.sev_critical]
    /\ Orchestrator.currentStage ws' = legal_research
    /\ Orchestrator.progress ws' = 17
    /\ Orchestrator.completedStages ws' = Orchestrator.completedStages ws1
    /\ Forall (fun e => OrchestratorSpec.isWorkflowCompleted e = false) events
    /\ last events
       = Some (Orchestrator.workflow_failed wid (id caseData) message).
Proof.
  intros Hl Hnot Hintake Hagent Hprocess.
  pose proof Hintake as Hfacts.
  apply runStages_completed in Hfacts
    as ((added & Hadd & _ & Hin) & Herr & Hev & _);
    [|apply NoDup_singleton].
  assert (Hnot1 : includes (Orchestrator.completedStages ws1) legal_research
                  = false).
  { apply includes_false. rewrite Hadd. intros Hs.
    apply elem_of_app in Hs as [Hs|Hs]; [done|].
    apply Hin in Hs as [Hs _]. by apply list_elem_of_singleton in Hs. }
  unfold Orchestrator.processWorkflow. rewrite Hl.
  change Orchestrator.getWorkflowStages
    with ([plaintiff_intake]
          ++ [legal_research; argument_generation; document_drafting;
              review_and_revision; final_formatting]).
  rewrite runStages_app, Hintake.
  cbn [Orchestrator.runStages]. rewrite Hnot1.
  unfold Orchestrator.getAgentForStage. cbn [Orchestrator.agentKeyForStage].
  simpl. rewrite Hagent. simpl. rewrite Hprocess. simpl.
  eexists _, _, _. split; [reflexivity|]. simpl. rewrite lookup_insert_eq.
  split; [reflexivity|]. simpl. split_and!.
  - rewrite Herr by done. by rewrite <- app_assoc.
  - done.
  - by vm_compute.
  - done.
  - rewrite !Forall_app. split_and!; [done|by repeat constructor..].
  - by rewrite last_snoc.
Qed.

Lemma research_failure_logs_two_errors_witness :
  exists this' events ws',
    Orchestrator.processWorkflow Fixtures.researchFailsEnv "workflow-1"
      Fixtures.mockCase Fixtures.orchestrator1
    = (this', events, Threw "RAG retrieval failed")
    /\ Orchestrator.activeWorkflows this' !! "workflow-1" = Some ws'
    /\ Orchestrator.errors ws'
       = Orchestrator.errors Fixtures.workflow1
         ++ [Orchestrator.mkError legal_research
               (BaseAgent.name (BaseAgent.agent Fixtures.researchAgentAfter))
               "RAG retrieval failed" Orchestrator.sev_high;
             Orchestrator.mkError legal_research "workflow-orchestrator"
               "RAG retrieval failed" Orchestrator.sev_critical]
    /\ Orchestrator.currentStage ws' = legal_research
    /\ Orchestrator.progress ws' = 17
    /\ Orchestrator.completedStages ws'
       = Orchestrator.completedStages Fixtures.intakeRun.1.1.2
    /\ Forall (fun e => OrchestratorSpec.isWorkflowCompleted e = false) events
    /\ last events
       = Some (Orchestrator.workflow_failed "workflow-1"
                 (id Fixtures.mockCase) "RAG retrieval failed").
Proof.
  apply (research_failure_logs_two_errors Fixtures.researchFailsEnv
           "workflow-1" Fixtures.mockCase Fixtures.mockCase
           Fixtures.orchestrator1 Fixtures.workflow1
           Fixtures.intakeRun.1.1.2 Fixtures.intakeRun.1.1.1
           Fixtures.intakeRun.1.2
           Fixtures.researchAgent Fixtures.researchAgentAfter
           "RAG retrieval failed").
  - vm_compute. reflexivity.
  - apply (bool_decide_unpack _). vm_compute. exact I.
  - vm_compute. reflexivity.
  - vm_compute. reflexivity.
  - vm_compute. reflexivity.
Defined.

(** C1 (the claim as stated fails): a fresh workflow whose research task
    throws ends with two entries for the research stage in its error log,
    not one. *)
Lemma research_failure_error_log_has_two_entries :
  (Orchestrator.processWorkflow Fixtures.researchFailsEnv "workflow-1"
     Fixtures.mockCase Fixtures.orchestrator1).2
  = Threw "RAG retrieval failed"
  /\ Orchestrator.errors Fixtures.workflow1 = []
  /\ Orchestrator.errors Fixtures.workflow2
     = [Orchestrator.mkError legal_research "Legal Research Agent"
          "RAG retrieval failed" Orchestrator.sev_high;
        Orchestrator.mkError legal_research "workflow-orchestrator"
          "RAG retrieval failed" Orchestrator.sev_critical]
  /\ length (filter (fun e => Orchestrator.err_stage e = legal_research)
                    (Orchestrator.errors Fixtures.workflow2)) = 2%nat.
Proof. split_and!; by vm_compute. Qed.

(** * Further properties of the code *)

(** ** BaseAgent: calls that overlap, metrics, maintenance and probes *)

(** X1: while a call of [process] is between its entry and the settling of
    its task, a second call is rejected with the busy message and leaves
    the agent as it was; the agent is unavailable until the first call
    settles, and once it has settled, whatever the outcome, the next call
    is let in. *)
Theorem rejected_call_leaves_call_in_flight
    (executeTask : LegalCase -> Outcome LegalCase) (time : Z)
    (this this1 : BaseAgent.t) (first second third : LegalCase) :
  BaseAgent.process_enter this first = (this1, Returned tt) ->
  BaseAgent.process executeTask time this1 second
  = (this1,
     Threw ("Agent " +:+ BaseAgent.name (BaseAgent.agent this)
            +:+ " is already processing a case"))
  /\ BaseAgent.isAvailable this1 = false
  /\ forall (result : Outcome LegalCase) (time1 : Z),
       exists this3,
         BaseAgent.process_enter
           (BaseAgent.process_settle this1 result time1).1 third
         = (this3, Returned tt).
Proof.
  unfold BaseAgent.process_enter at 1.
  destruct (BaseAgent.isProcessing this) eqn:Hbusy; [done|].
  intros [= <-]. split_and!; [done|done|].
  intros [updated|message] time1; simpl; by eexists.
Qed.

Lemma rejected_call_leaves_call_in_flight_witness :
  BaseAgent.process (IntakeAgent.executeTask Fixtures.intakeEnv) 5
    (BaseAgent.process_enter Fixtures.intakeAgent Fixtures.mockCase).1
    Fixtures.urgentCase
  = ((BaseAgent.process_enter Fixtures.intakeAgent Fixtures.mockCase).1,
     Threw "Agent Legal Intake Agent is already processing a case")
  /\ BaseAgent.isAvailable
       (BaseAgent.process_enter Fixtures.intakeAgent Fixtures.mockCase).1
     = false
  /\ forall (result : Outcome LegalCase) (time1 : Z),
       exists this3,
         BaseAgent.process_enter
           (BaseAgent.process_settle
              (BaseAgent.process_enter Fixtures.intakeAgent Fixtures.mockCase).1
              result time1).1 Fixtures.invalidCase
         = (this3, Returned tt).
Proof.
  apply (rejected_call_leaves_call_in_flight
           (IntakeAgent.executeTask Fixtures.intakeEnv) 5
           Fixtures.intakeAgent _ Fixtures.mockCase).
  reflexivity.
Defined.






(** X3: [process] does not look at the status.  An agent put in
    maintenance mode is not available, yet a call of [process] is let in
    and its task runs; when the call has settled the status is [idle]
    after a task that returned and [error] after one that threw, so the
    maintenance mode is gone either way. *)
Theorem maintenance_mode_does_not_stop_process
    (executeTask : LegalCase -> Outcome LegalCase) (time : Z)
    (this : BaseAgent.t) (caseData : LegalCase) :
  BaseAgent.isProcessing this = false ->
  exists this_m this',
    BaseAgent.setMaintenanceMode true this = (this_m, Returned tt)
    /\ BaseAgent.getStatus this_m = maintenance
    /\ BaseAgent.isAvailable this_m = false
    /\ BaseAgent.process executeTask time this_m caseData
       = (this', executeTask caseData)
    /\ BaseAgent.getStatus this'
       = (if isReturned (executeTask caseData) then idle else error).
Proof.
  intros Hfree. unfold BaseAgent.setMaintenanceMode. rewrite Hfree.
  eexists.
  exists (BaseAgent.process executeTask time
            {| BaseAgent.agent :=
                 BaseAgent.set_status maintenance (BaseAgent.agent this);
               BaseAgent.isProcessing := false |} caseData).1.
  split; [reflexivity|].
  unfold BaseAgent.process, BaseAgent.process_enter. simpl.
  split_and!; [done|done| |].
  - by destruct (executeTask caseData).
  - destruct (executeTask caseData); simpl;
      unfold BaseAgent.getStatus, BaseAgent.process_finally; simpl;
      by repeat case_decide.
Qed.

Lemma maintenance_mode_does_not_stop_process_witness :
  exists this_m this',
    BaseAgent.setMaintenanceMode true Fixtures.intakeAgent
    = (this_m, Returned tt)
    /\ BaseAgent.getStatus this_m = maintenance
    /\ BaseAgent.isAvailable this_m = false
    /\ BaseAgent.process (IntakeAgent.executeTask Fixtures.intakeEnv) 5
         this_m Fixtures.mockCase
       = (this', IntakeAgent.executeTask Fixtures.intakeEnv Fixtures.mockCase)
    /\ BaseAgent.getStatus this'
       = (if isReturned
               (IntakeAgent.executeTask Fixtures.intakeEnv Fixtures.mockCase)
          then idle else error).
Proof.
  apply maintenance_mode_does_not_stop_process. reflexivity.
Defined.

(** X4: the status [error] left by a task that threw lasts until the next
    task that returns or until maintenance mode is switched off: either
    makes the agent available again, while a further task that throws
    leaves it unavailable. *)
Theorem error_status_is_cleared_by_next_success
    (failing succeeding : LegalCase -> Outcome LegalCase) (time1 time2 : Z)
    (this : BaseAgent.t) (c1 c2 updated : LegalCase) (message : string) :
  BaseAgent.isProcessing this = false ->
  failing c1 = Threw message ->
  succeeding c2 = Returned updated ->
  let failed := (BaseAgent.process failing time1 this c1).1 in
  BaseAgent.isAvailable failed = false
  /\ BaseAgent.isAvailable (BaseAgent.process failing time2 failed c1).1 = false
  /\ BaseAgent.process succeeding time2 failed c2
     = ((BaseAgent.process succeeding time2 failed c2).1, Returned updated)
  /\ BaseAgent.isAvailable (BaseAgent.process succeeding time2 failed c2).1
     = true
  /\ BaseAgent.isAvailable (BaseAgent.setMaintenanceMode false failed).1
     = true.
Proof.
  intros Hfree Hfail Hok.
  unfold BaseAgent.process, BaseAgent.process_enter. rewrite Hfree, Hfail.
  simpl. rewrite ?Hfail, ?Hok. simpl.
  unfold BaseAgent.isAvailable, BaseAgent.process_finally,
    BaseAgent.setMaintenanceMode. simpl.
  repeat case_decide; simpl; try done.
Qed.

Lemma error_status_is_cleared_by_next_success_witness :
  let failing := IntakeAgent.executeTask Fixtures.intakeEnv in
  let failed :=
    (BaseAgent.process failing 5 Fixtures.intakeAgent Fixtures.invalidCase).1 in
  BaseAgent.isAvailable failed = false
  /\ BaseAgent.isAvailable
       (BaseAgent.process failing 7 failed Fixtures.invalidCase).1 = false
  /\ BaseAgent.process (fun c => Returned c) 7 failed Fixtures.mockCase
     = ((BaseAgent.process (fun c => Returned c) 7 failed Fixtures.mockCase).1,
        Returned Fixtures.mockCase)
  /\ BaseAgent.isAvailable
       (BaseAgent.process (fun c => Returned c) 7 failed Fixtures.mockCase).1
     = true
  /\ BaseAgent.isAvailable (BaseAgent.setMaintenanceMode false failed).1
     = true.
Proof.
  apply (error_status_is_cleared_by_next_success
           (IntakeAgent.executeTask Fixtures.intakeEnv) (fun c => Returned c)
           5 7 Fixtures.intakeAgent Fixtures.invalidCase Fixtures.mockCase
           Fixtures.mockCase
           "Plaintiff information validation failed: Validation error: email must be a valid email");
    reflexivity.
Defined.

(** X5: [healthCheck] never throws; a probe that returns leaves the agent
    as it was.  A probe that throws while a task is in flight sets the
    status to [error], and the [finally] block of [process] keeps it: the
    task returns and is counted in the metrics, but the agent ends
    unavailable. *)
Theorem failed_probe_during_task_leaves_agent_in_error
    (this this1 : BaseAgent.t) (caseData updated : LegalCase)
    (message : string) (time : Z) :
  BaseAgent.process_enter this caseData = (this1, Returned tt) ->
  (forall healthy,
     BaseAgent.healthCheck (Returned healthy) this1 = (this1, healthy))
  /\ (BaseAgent.healthCheck (Threw message) this1).2 = false
  /\ let probed := (BaseAgent.healthCheck (Threw message) this1).1 in
     let settled := BaseAgent.process_settle probed (Returned updated) time in
     settled.2 = Returned updated
     /\ BaseAgent.processedCases (BaseAgent.agent settled.1)
        = BaseAgent.processedCases (BaseAgent.agent this) + 1
     /\ BaseAgent.isProcessing settled.1 = false
     /\ BaseAgent.getStatus settled.1 = error
     /\ BaseAgent.isAvailable settled.1 = false.
Proof.
  unfold BaseAgent.process_enter.
  destruct (BaseAgent.isProcessing this) eqn:Hbusy; [done|].
  intros [= <-]. split_and!; try done.
Qed.

Lemma failed_probe_during_task_leaves_agent_in_error_witness :
  let this1 :=
    (BaseAgent.process_enter Fixtures.intakeAgent Fixtures.mockCase).1 in
  (forall healthy,
     BaseAgent.healthCheck (Returned healthy) this1 = (this1, healthy))
  /\ (BaseAgent.healthCheck (Threw "probe failed") this1).2 = false
  /\ let probed := (BaseAgent.healthCheck (Threw "probe failed") this1).1 in
     let settled :=
       BaseAgent.process_settle probed (Returned Fixtures.mockCase) 5 in
     settled.2 = Returned Fixtures.mockCase
     /\ BaseAgent.processedCases (BaseAgent.agent settled.1)
        = BaseAgent.processedCases (BaseAgent.agent Fixtures.intakeAgent) + 1
     /\ BaseAgent.isProcessing settled.1 = false
     /\ BaseAgent.getStatus settled.1 = error
     /\ BaseAgent.isAvailable settled.1 = false.
Proof.
  apply (failed_probe_during_task_leaves_agent_in_error
           Fixtures.intakeAgent _ Fixtures.mockCase Fixtures.mockCase
           "probe failed" 5).
  reflexivity.
Defined.
(** ** Orchestrator: what holds between two calls *)

Lemma process_keeps_free (executeTask : LegalCase -> Outcome LegalCase)
    (time : Z) (agent : BaseAgent.t) (caseData : LegalCase) :
  BaseAgent.isProcessing agent = false ->
  BaseAgent.isProcessing (BaseAgent.process executeTask time agent caseData).1
  = false
  /\ (BaseAgent.process executeTask time agent caseData).2
     = executeTask caseData.
Proof.
  intros Hfree. unfold BaseAgent.process, BaseAgent.process_enter.
  rewrite Hfree. by destruct (executeTask caseData).
Qed.

Lemma agentsReady_stage (agents : gmap string BaseAgent.t)
    (stage : WorkflowStage) :
  OrchestratorSpec.agentsReady agents ->
  stage <> completed ->
  exists key agent,
    Orchestrator.getAgentForStage agents stage = Some (key, agent)
    /\ BaseAgent.isProcessing agent = false.
Proof.
  intros Hready Hstage. unfold Orchestrator.getAgentForStage.
  assert (exists key, Orchestrator.agentKeyForStage stage = Some key
                      /\ key ∈ OrchestratorSpec.agentKeys) as (key & -> & Hkey).
  { unfold OrchestratorSpec.agentKeys.
    destruct stage; try done; eexists; (split; [reflexivity|]);
      rewrite !elem_of_cons; auto. }
  destruct (Hready key Hkey) as (agent & Hl & Hfree).
  exists key, agent. simpl. rewrite Hl. done.
Qed.

Lemma agentsReady_insert (agents : gmap string BaseAgent.t) (key : string)
    (agent : BaseAgent.t) :
  OrchestratorSpec.agentsReady agents ->
  BaseAgent.isProcessing agent = false ->
  OrchestratorSpec.agentsReady (<[key := agent]> agents).
Proof.
  intros Hready Hfree k Hk. destruct (decide (k = key)) as [->|Hne].
  - exists agent. by rewrite lookup_insert_eq.
  - rewrite lookup_insert_ne by done. by apply Hready.
Qed.

(** With ready agents the loop leaves the agents ready, and it throws
    only what the task of a stage threw: that stage was not completed, it
    is the current stage of the record, and the failure is the last thing
    reported. *)
Lemma runStages_ready (env : Orchestrator.Env) (wid : string)
    (stages : list WorkflowStage) :
  (forall s, s ∈ stages -> s <> completed) ->
  forall c agents ws agents' ws' events r,
  OrchestratorSpec.agentsReady agents ->
  Orchestrator.runStages env wid stages c agents ws = (agents', ws', events, r) ->
  OrchestratorSpec.agentsReady agents'
  /\ forall m, r = Threw m ->
       exists stage c' name before,
         stage ∈ stages
         /\ (stage ∉ Orchestrator.completedStages ws)
         /\ Orchestrator.executeTask env stage c' = Threw m
         /\ Orchestrator.currentStage ws' = stage
         /\ (stage ∉ Orchestrator.completedStages ws')
         /\ Orchestrator.progress ws' = Orchestrator.progressOf stage
         /\ Orchestrator.errors ws'
            = (Orchestrator.errors ws
               ++ [Orchestrator.mkError stage name m Orchestrator.sev_high])
         /\ events
            = (before
               ++ [Orchestrator.workflow_stage_failed wid (id c') stage m]).
Proof.
  induction stages as [|stage stages IH]; intros Hpipe c agents ws agents' ws'
    events r Hready; simpl.
  - intros [= <- <- <- <-]. split; [done|]. by intros m.
  - assert (forall s, s ∈ stages -> s <> completed) as Hpipe'
      by (intros s Hs; apply Hpipe; by right).
    destruct (includes _ stage) eqn:Hinc.
    { intros Hrun.
      destruct (IH Hpipe' _ _ _ _ _ _ _ Hready Hrun) as [Hready' Hthrow].
      split; [done|]. intros m Hm.
      destruct (Hthrow m Hm) as (s & c' & name & before & Hs & Hrest).
      exists s, c', name, before. split; [by right|done]. }
    apply includes_false in Hinc.
    destruct (agentsReady_stage agents stage Hready) as (key & agent & -> & Hfree).
    { apply Hpipe. left. }
    destruct (process_keeps_free (Orchestrator.executeTask env stage)
                (Orchestrator.processingTime env stage) agent c Hfree)
      as [Hfree' Hres].
    destruct (BaseAgent.process _ _ agent c) as [agent' result].
    simpl in Hfree', Hres. subst result.
    pose proof (agentsReady_insert agents key agent' Hready Hfree') as Hready1.
    destruct (Orchestrator.executeTask env stage c) as [c1|m1] eqn:Htask.
    + destruct (Orchestrator.runStages env wid stages c1 _ _)
        as [[[agents1 ws1] events1] r1] eqn:Hrun.
      intros [= <- <- <- <-].
      destruct (IH Hpipe' _ _ _ _ _ _ _ Hready1 Hrun) as [Hready' Hthrow].
      split; [done|]. intros m Hm.
      destruct (Hthrow m Hm)
        as (s & c' & name & before & Hs & Hnot & Htask' & Hcur & Hnot' & Hprog
            & Herr & Hev).
      exists s, c', name.
      eexists (_ :: _ :: _ :: before).
      split_and!; try done.
      * by right.
      * intros Hin. apply Hnot. simpl. apply elem_of_app. by left.
      * rewrite Hev. reflexivity.
    + intros [= <- <- <- <-]. split; [done|]. intros m [= <-].
      exists stage, c, (BaseAgent.name (BaseAgent.agent agent')).
      eexists [_; _]. split_and!; try done. left.
Qed.

Lemma initializeAgents_ready (u1 u2 u3 : string) :
  OrchestratorSpec.agentsReady (Orchestrator.initializeAgents u1 u2 u3).
Proof.
  intros key Hkey. unfold OrchestratorSpec.agentKeys in Hkey.
  apply list_elem_of_In in Hkey. simpl in Hkey.
  destruct Hkey as [<-|[<-|[<-|[]]]];
    (eexists; split; [vm_compute; reflexivity|reflexivity]).
Qed.

Lemma exec_quiescent (env : Orchestrator.Env) (op : Orchestrator.Op)
    (this : Orchestrator.t) :
  OrchestratorSpec.quiescent this ->
  OrchestratorSpec.quiescent (Orchestrator.exec env op this).1.
Proof.
  intros (Hqueue & Hidle & Hready & Hstages).
  destruct op as [c|wid c|wid|wid]; simpl.
  - unfold Orchestrator.startWorkflow, Orchestrator.addWorkflowLog,
      Orchestrator.modifyWorkflow, Orchestrator.processQueue.
    simpl. rewrite Hidle, Hqueue. simpl.
    split_and!; try done.
    intros w ws. rewrite alter_insert_eq.
    cbn [Orchestrator.activeWorkflows].
    destruct (decide (w = Orchestrator.uuidv4 env)) as [->|Hne].
    + rewrite lookup_insert_eq. intros [= <-]. simpl.
      by intros stage Hs%elem_of_nil.
    + rewrite lookup_insert_ne by done. apply Hstages.
  - unfold Orchestrator.processWorkflow.
    destruct (Orchestrator.activeWorkflows this !! wid) as [ws|] eqn:Hl;
      [|by simpl].
    destruct (Orchestrator.runStages env wid Orchestrator.getWorkflowStages c
                (Orchestrator.agents this) ws)
      as [[[agents1 ws1] events1] r] eqn:Hrun.
    destruct (runStages_ready env wid Orchestrator.getWorkflowStages
                ltac:(intros s Hs; by apply stage_in_pipeline)
                _ _ _ _ _ _ _ Hready Hrun) as [Hready' _].
    destruct (runStages_completed env wid Orchestrator.getWorkflowStages
                getWorkflowStages_NoDup _ _ _ _ _ _ _ Hrun)
      as ((added & Hadd & _ & Hin) & _).
    assert (forall stage, stage ∈ Orchestrator.completedStages ws1 ->
                          stage ∈ Orchestrator.getWorkflowStages) as Hws1.
    { intros stage. rewrite Hadd, elem_of_app. intros [Hs|Hs].
      - by apply (Hstages wid ws).
      - by apply Hin. }
    destruct r as [c'|m]; simpl; (split_and!; try done);
      intros w ws'; cbn [Orchestrator.activeWorkflows];
      (destruct (decide (w = wid)) as [->|Hne];
        [rewrite lookup_insert_eq; intros [= <-]; simpl; exact Hws1
        |rewrite lookup_insert_ne by done; apply Hstages]).
  - unfold Orchestrator.pauseWorkflow, Orchestrator.addWorkflowLog,
      Orchestrator.modifyWorkflow.
    destruct (Orchestrator.activeWorkflows this !! wid) as [ws|] eqn:Hl;
      [|by simpl].
    simpl. split_and!; try done.
    intros w ws'. cbn [Orchestrator.activeWorkflows].
    destruct (decide (w = wid)) as [->|Hne].
    + rewrite lookup_alter_eq, Hl. intros [= <-]. simpl. by apply (Hstages wid).
    + rewrite lookup_alter_ne by done. apply Hstages.
  - unfold Orchestrator.cancelWorkflow, Orchestrator.addWorkflowLog,
      Orchestrator.modifyWorkflow.
    destruct (Orchestrator.activeWorkflows this !! wid) as [ws|] eqn:Hl;
      [|by simpl].
    simpl. split_and!; try done.
    intros w ws'. cbn [Orchestrator.activeWorkflows].
    destruct (decide (w = wid)) as [->|Hne].
    + by rewrite lookup_delete_eq.
    + rewrite lookup_delete_ne by done. rewrite lookup_alter_ne by done.
      apply Hstages.
Qed.

Lemma reachable_quiescent (this : Orchestrator.t) :
  Orchestrator.reachable this -> OrchestratorSpec.quiescent this.
Proof.
  induction 1 as [u1 u2 u3|env op this _ IH _].
  - split_and!; [done|done|apply initializeAgents_ready|].
    intros wid ws Hl. simpl in Hl. by rewrite lookup_empty in Hl.
  - by apply exec_quiescent.
Qed.

(** X6: between two calls the queue is drained and the agents are idle,
    so [startWorkflow] on an orchestrator that calls have produced returns
    the identifier it drew, registers a record at the intake stage with
    progress 0, no completed stage, no error and one log entry, leaves the
    other workflows and the agents as they were, and emits
    [workflow-started] followed by [workflow-processing-required] for that
    identifier. *)
Theorem startWorkflow_registers_and_announces
    (env : Orchestrator.Env) (caseData : LegalCase) (this : Orchestrator.t) :
  Orchestrator.reachable this ->
  Orchestrator.uuidv4 env <> EmptyString ->
  exists this',
    Orchestrator.startWorkflow env caseData this
    = (this',
       [Orchestrator.workflow_started (Orchestrator.uuidv4 env) (id caseData);
        Orchestrator.workflow_processing_required (Orchestrator.uuidv4 env)],
       Returned (Orchestrator.uuidv4 env))
    /\ Orchestrator.getWorkflowState (Orchestrator.uuidv4 env) this'
       = Some {| Orchestrator.caseId := id caseData;
                 Orchestrator.currentStage := plaintiff_intake;
                 Orchestrator.completedStages := [];
                 Orchestrator.progress := 0;
                 Orchestrator.estimatedCompletion :=
                   Orchestrator.calculateEstimatedCompletion env caseData;
                 Orchestrator.logs :=
                   [Orchestrator.mkLog plaintiff_intake "workflow-orchestrator"
                      "started" "Workflow initiated" 0];
                 Orchestrator.errors := [] |}
    /\ (forall wid, wid <> Orchestrator.uuidv4 env ->
          Orchestrator.getWorkflowState wid this'
          = Orchestrator.getWorkflowState wid this)
    /\ Orchestrator.agents this' = Orchestrator.agents this
    /\ Orchestrator.workflowQueue this' = [].
Proof.
  intros (Hqueue & Hidle & _)%reachable_quiescent Hid.
  unfold Orchestrator.startWorkflow, Orchestrator.addWorkflowLog,
    Orchestrator.modifyWorkflow, Orchestrator.processQueue.
  simpl. rewrite Hidle, Hqueue. simpl.
  destruct (decide (Orchestrator.uuidv4 env = EmptyString)) as [|_]; [done|].
  eexists. split; [reflexivity|].
  unfold Orchestrator.getWorkflowState. cbn [Orchestrator.activeWorkflows
    Orchestrator.agents Orchestrator.workflowQueue].
  rewrite alter_insert_eq. split_and!; try done.
  - by rewrite lookup_insert_eq.
  - intros wid Hne. by rewrite lookup_insert_ne.
Qed.

Lemma startWorkflow_registers_and_announces_witness :
  exists this',
    Orchestrator.startWorkflow Fixtures.allFailEnv Fixtures.urgentCase
      Fixtures.orchestrator2
    = (this',
       [Orchestrator.workflow_started "workflow-2" (id Fixtures.urgentCase);
        Orchestrator.workflow_processing_required "workflow-2"],
       Returned "workflow-2")
    /\ Orchestrator.getWorkflowState "workflow-2" this'
       = Some {| Orchestrator.caseId := id Fixtures.urgentCase;
                 Orchestrator.currentStage := plaintiff_intake;
                 Orchestrator.completedStages := [];
                 Orchestrator.progress := 0;
                 Orchestrator.estimatedCompletion :=
                   Orchestrator.calculateEstimatedCompletion
                     Fixtures.allFailEnv Fixtures.urgentCase;
                 Orchestrator.logs :=
                   [Orchestrator.mkLog plaintiff_intake "workflow-orchestrator"
                      "started" "Workflow initiated" 0];
                 Orchestrator.errors := [] |}
    /\ (forall wid, wid <> "workflow-2" ->
          Orchestrator.getWorkflowState wid this'
          = Orchestrator.getWorkflowState wid Fixtures.orchestrator2)
    /\ Orchestrator.agents this' = Orchestrator.agents Fixtures.orchestrator2
    /\ Orchestrator.workflowQueue this' = [].
Proof.
  apply (startWorkflow_registers_and_announces Fixtures.allFailEnv
           Fixtures.urgentCase Fixtures.orchestrator2).
  - apply reachable_orchestrator2.
  - discriminate.
Defined.



(** X8: when [processWorkflow] returns on an orchestrator that calls have
    produced, the record is at [completed] with progress 100, its
    completed stages are the six stages of the pipeline, each once, its
    error log is as before, the other workflows are untouched, and the
    trace ends with [workflow-completed]. *)
Theorem returned_workflow_is_completed
    (env : Orchestrator.Env) (wid : string) (caseData result : LegalCase)
    (this this' : Orchestrator.t) (ws : Orchestrator.WorkflowState)
    (events : list Orchestrator.Event) :
  Orchestrator.reachable this ->
  Orchestrator.activeWorkflows this !! wid = Some ws ->
  Orchestrator.processWorkflow env wid caseData this
  = (this', events, Returned result) ->
  exists ws',
    Orchestrator.activeWorkflows this' !! wid = Some ws'
    /\ Orchestrator.currentStage ws' = completed
    /\ Orchestrator.progress ws' = 100
    /\ Orchestrator.completedStages ws' ≡ₚ Orchestrator.getWorkflowStages
    /\ Orchestrator.errors ws' = Orchestrator.errors ws
    /\ last events = Some (Orchestrator.workflow_completed wid (id result))
    /\ (forall w, w <> wid ->
          Orchestrator.activeWorkflows this' !! w
          = Orchestrator.activeWorkflows this !! w).
Proof.
  intros Hreach Hl.
  destruct (reachable_quiescent this Hreach) as (_ & _ & _ & Hstages).
  destruct (reachable_invariant this Hreach wid ws Hl) as (Hprog & Hearlier & Hnd).
  unfold Orchestrator.processWorkflow. rewrite Hl.
  destruct (Orchestrator.runStages env wid Orchestrator.getWorkflowStages
              caseData (Orchestrator.agents this) ws)
    as [[[agents1 ws1] events1] r] eqn:Hrun.
  destruct (runStages_completed env wid Orchestrator.getWorkflowStages
              getWorkflowStages_NoDup _ _ _ _ _ _ _ Hrun)
    as ((added & Hadd & Hnd' & Hin) & Herr & _).
  destruct (runStages_progress env wid Orchestrator.getWorkflowStages
              [] _ _ _ _ _ _ _ eq_refl
              ltac:(by intros s Hs%elem_of_nil) Hprog Hearlier Hrun)
    as (_ & _ & _ & Hall & _).
  destruct r as [c1|m]; [|done]. intros [= <- <- <-].
  eexists. cbn [Orchestrator.activeWorkflows].
  rewrite lookup_insert_eq. split_and!; try done.
  - simpl. apply NoDup_Permutation.
    + rewrite Hadd. apply NoDup_app. split_and!; [done| |done].
      intros s Hs Hs'. by apply Hin in Hs' as [_ []].
    + apply getWorkflowStages_NoDup.
    + intros s. split; [|by apply Hall].
      rewrite Hadd, elem_of_app. intros [Hs|Hs].
      * by apply (Hstages wid ws).
      * by apply Hin.
  - simpl. by apply Herr.
  - by rewrite last_snoc.
  - intros w Hne. by rewrite lookup_insert_ne.
Qed.

Lemma returned_workflow_is_completed_witness :
  exists ws',
    Orchestrator.activeWorkflows Fixtures.orchestrator3 !! "workflow-1"
    = Some ws'
    /\ Orchestrator.currentStage ws' = completed
    /\ Orchestrator.progress ws' = 100
    /\ Orchestrator.completedStages ws' ≡ₚ Orchestrator.getWorkflowStages
    /\ Orchestrator.errors ws' = Orchestrator.errors Fixtures.workflow1
    /\ last (Orchestrator.processWorkflow Fixtures.allSucceedEnv "workflow-1"
               Fixtures.mockCase Fixtures.orchestrator1).1.2
       = Some (Orchestrator.workflow_completed "workflow-1"
                 (id Fixtures.mockCase))
    /\ (forall w, w <> "workflow-1" ->
          Orchestrator.activeWorkflows Fixtures.orchestrator3 !! w
          = Orchestrator.activeWorkflows Fixtures.orchestrator1 !! w).
Proof.
  apply (returned_workflow_is_completed Fixtures.allSucceedEnv "workflow-1"
           Fixtures.mockCase Fixtures.mockCase Fixtures.orchestrator1
           Fixtures.orchestrator3 Fixtures.workflow1).
  - apply reachable_orchestrator1.
  - vm_compute. reflexivity.
  - vm_compute. reflexivity.
Defined.

Lemma runStages_skips_completed (env : Orchestrator.Env) (wid : string)
    (stages : list WorkflowStage) (c : LegalCase)
    (agents : gmap string BaseAgent.t) (ws : Orchestrator.WorkflowState) :
  (forall s, s ∈ stages -> s ∈ Orchestrator.completedStages ws) ->
  Orchestrator.runStages env wid stages c agents ws
  = (agents, ws, [], Returned c).
Proof.
  induction stages as [|stage stages IH]; intros Hall; simpl; [done|].
  assert (includes (Orchestrator.completedStages ws) stage = true) as ->
    by (apply includes_true, Hall; left).
  apply IH. intros s Hs. apply Hall. by right.
Qed.

(** X9: a workflow that [processWorkflow] has completed is not run again:
    a further call, whatever the tasks would do and whatever case it is
    given, calls no agent, returns the case it was given, emits
    [workflow-completed] once more and changes nothing in the record but
    its log. *)
Theorem completed_workflow_is_not_run_again
    (env env2 : Orchestrator.Env) (wid : string)
    (caseData result caseData2 : LegalCase)
    (this this' : Orchestrator.t) (events : list Orchestrator.Event) :
  Orchestrator.reachable this ->
  Orchestrator.processWorkflow env wid caseData this
  = (this', events, Returned result) ->
  exists this'' ws' ws'',
    Orchestrator.processWorkflow env2 wid caseData2 this'
    = (this'', [Orchestrator.workflow_completed wid (id caseData2)],
       Returned caseData2)
    /\ Orchestrator.agents this'' = Orchestrator.agents this'
    /\ Orchestrator.activeWorkflows this' !! wid = Some ws'
    /\ Orchestrator.activeWorkflows this'' !! wid = Some ws''
    /\ OrchestratorSpec.sameButLogs ws' ws''.
Proof.
  intros Hreach Hrun.
  destruct (Orchestrator.activeWorkflows this !! wid) as [ws|] eqn:Hl.
  2:{ unfold Orchestrator.processWorkflow in Hrun. by rewrite Hl in Hrun. }
  destruct (reachable_invariant this Hreach wid ws Hl) as (Hprog & Hearlier & _).
  unfold Orchestrator.processWorkflow in Hrun. rewrite Hl in Hrun.
  destruct (Orchestrator.runStages env wid Orchestrator.getWorkflowStages
              caseData (Orchestrator.agents this) ws)
    as [[[agents1 ws1] events1] r] eqn:Hstages.
  destruct (runStages_progress env wid Orchestrator.getWorkflowStages
              [] _ _ _ _ _ _ _ eq_refl
              ltac:(by intros s Hs%elem_of_nil) Hprog Hearlier Hstages)
    as (_ & _ & _ & Hall & _).
  destruct r as [c1|m]; [|done]. injection Hrun as <- <- <-.
  unfold Orchestrator.processWorkflow.
  cbn [Orchestrator.activeWorkflows Orchestrator.agents].
  rewrite lookup_insert_eq.
  rewrite runStages_skips_completed by (intros s Hs; simpl; by apply Hall).
  do 3 eexists. split; [reflexivity|].
  cbn [Orchestrator.activeWorkflows Orchestrator.agents].
  rewrite lookup_insert_eq. split_and!; done.
Qed.

Lemma completed_workflow_is_not_run_again_witness :
  exists this'' ws' ws'',
    Orchestrator.processWorkflow Fixtures.allFailEnv "workflow-1"
      Fixtures.urgentCase Fixtures.orchestrator3
    = (this'',
       [Orchestrator.workflow_completed "workflow-1" (id Fixtures.urgentCase)],
       Returned Fixtures.urgentCase)
    /\ Orchestrator.agents this'' = Orchestrator.agents Fixtures.orchestrator3
    /\ Orchestrator.activeWorkflows Fixtures.orchestrator3 !! "workflow-1"
       = Some ws'
    /\ Orchestrator.activeWorkflows this'' !! "workflow-1" = Some ws''
    /\ OrchestratorSpec.sameButLogs ws' ws''.
Proof.
  apply (completed_workflow_is_not_run_again Fixtures.allSucceedEnv
           Fixtures.allFailEnv "workflow-1" Fixtures.mockCase
           Fixtures.mockCase Fixtures.urgentCase Fixtures.orchestrator1
           Fixtures.orchestrator3
           (Orchestrator.processWorkflow Fixtures.allSucceedEnv "workflow-1"
              Fixtures.mockCase Fixtures.orchestrator1).1.2).
  - apply reachable_orchestrator1.
  - vm_compute. reflexivity.
Defined.

Lemma runStages_agree (env env' : Orchestrator.Env) (wid : string)
    (stages : list WorkflowStage) :
  forall c agents ws,
  OrchestratorSpec.agreeOn
    (fun stage => stage ∉ Orchestrator.completedStages ws) env env' ->
  Orchestrator.runStages env wid stages c agents ws
  = Orchestrator.runStages env' wid stages c agents ws.
Proof.
  induction stages as [|stage stages IH]; intros c agents ws Hagree; simpl;
    [done|].
  destruct (includes _ stage) eqn:Hinc; [by apply IH|].
  apply includes_false in Hinc.
  destruct (Hagree stage Hinc) as (Htask & Htime & Hduration).
  destruct (Orchestrator.getAgentForStage agents stage) as [[key agent]|];
    [|done].
  rewrite <- Htime, <- Hduration.
  assert (BaseAgent.process (Orchestrator.executeTask env' stage)
            (Orchestrator.processingTime env stage) agent c
          = BaseAgent.process (Orchestrator.executeTask env stage)
              (Orchestrator.processingTime env stage) agent c) as ->.
  { unfold BaseAgent.process. by rewrite Htask. }
  destruct (BaseAgent.process _ _ agent c) as [agent' [c1|m]]; [|done].
  rewrite IH; [done|].
  intros s Hs. apply Hagree. simpl in Hs. intros Hin. apply Hs.
  apply elem_of_app. by left.
Qed.

(** X10: [processWorkflow] resumes after the completed stages: the tasks
    and the clocks of the stages recorded as completed are not consulted,
    so two environments that differ on those stages only give the same
    state, the same trace and the same outcome. *)
Theorem completed_stages_are_not_rerun
    (env env' : Orchestrator.Env) (wid : string) (caseData : LegalCase)
    (this : Orchestrator.t) (ws : Orchestrator.WorkflowState) :
  Orchestrator.activeWorkflows this !! wid = Some ws ->
  OrchestratorSpec.agreeOn
    (fun stage => stage ∉ Orchestrator.completedStages ws) env env' ->
  Orchestrator.processWorkflow env wid caseData this
  = Orchestrator.processWorkflow env' wid caseData this.
Proof.
  intros Hl Hagree. unfold Orchestrator.processWorkflow. rewrite Hl.
  by rewrite (runStages_agree env env' wid _ _ _ _ Hagree).
Qed.

Lemma completed_stages_are_not_rerun_witness :
  Orchestrator.processWorkflow Fixtures.researchFailsEnv "workflow-1"
    Fixtures.mockCase Fixtures.orchestrator2
  = Orchestrator.processWorkflow Fixtures.intakeAlsoFailsEnv "workflow-1"
      Fixtures.mockCase Fixtures.orchestrator2.
Proof.
  apply (completed_stages_are_not_rerun Fixtures.researchFailsEnv
           Fixtures.intakeAlsoFailsEnv "workflow-1" Fixtures.mockCase
           Fixtures.orchestrator2 Fixtures.workflow2).
  - vm_compute. reflexivity.
  - intros stage Hnot. destruct stage; try (by split_and!).
    exfalso. apply Hnot. vm_compute. left.
Defined.

(** X11: [cancelWorkflow] of a registered workflow emits
    [workflow-cancelled] and forgets the record: [getWorkflowState] then
    answers nothing for it, and [pauseWorkflow], [cancelWorkflow] and
    [processWorkflow] reject its identifier with the not-found message,
    changing nothing and emitting nothing; the other workflows and the
    agents are as before. *)
Theorem cancelled_workflow_is_forgotten
    (env : Orchestrator.Env) (wid : string) (caseData : LegalCase)
    (this : Orchestrator.t) (ws : Orchestrator.WorkflowState) :
  Orchestrator.activeWorkflows this !! wid = Some ws ->
  exists this',
    Orchestrator.cancelWorkflow wid this
    = (this', [Orchestrator.workflow_cancelled wid (Orchestrator.caseId ws)],
       Returned tt)
    /\ Orchestrator.getWorkflowState wid this' = None
    /\ (forall w, w <> wid ->
          Orchestrator.getWorkflowState w this'
          = Orchestrator.getWorkflowState w this)
    /\ Orchestrator.agents this' = Orchestrator.agents this
    /\ Orchestrator.pauseWorkflow wid this'
       = (this', [], Threw ("Workflow " +:+ wid +:+ " not found"))
    /\ Orchestrator.cancelWorkflow wid this'
       = (this', [], Threw ("Workflow " +:+ wid +:+ " not found"))
    /\ Orchestrator.processWorkflow env wid caseData this'
       = (this', [], Threw ("Workflow " +:+ wid +:+ " not found")).
Proof.
  intros Hl. unfold Orchestrator.cancelWorkflow at 1. rewrite Hl.
  eexists. split; [reflexivity|].
  unfold Orchestrator.getWorkflowState, Orchestrator.pauseWorkflow,
    Orchestrator.cancelWorkflow, Orchestrator.processWorkflow,
    Orchestrator.addWorkflowLog, Orchestrator.modifyWorkflow.
  cbn [Orchestrator.activeWorkflows Orchestrator.agents].
  rewrite !lookup_delete_eq. split_and!; try done.
  intros w Hne. rewrite lookup_delete_ne by done.
  by rewrite lookup_alter_ne.
Qed.

Lemma cancelled_workflow_is_forgotten_witness :
  exists this',
    Orchestrator.cancelWorkflow "workflow-1" Fixtures.orchestrator2
    = (this',
       [Orchestrator.workflow_cancelled "workflow-1"
          (Orchestrator.caseId Fixtures.workflow2)],
       Returned tt)
    /\ Orchestrator.getWorkflowState "workflow-1" this' = None
    /\ (forall w, w <> "workflow-1" ->
          Orchestrator.getWorkflowState w this'
          = Orchestrator.getWorkflowState w Fixtures.orchestrator2)
    /\ Orchestrator.agents this' = Orchestrator.agents Fixtures.orchestrator2
    /\ Orchestrator.pauseWorkflow "workflow-1" this'
       = (this', [], Threw ("Workflow " +:+ "workflow-1" +:+ " not found"))
    /\ Orchestrator.cancelWorkflow "workflow-1" this'
       = (this', [], Threw ("Workflow " +:+ "workflow-1" +:+ " not found"))
    /\ Orchestrator.processWorkflow Fixtures.allSucceedEnv "workflow-1"
         Fixtures.mockCase this'
       = (this', [], Threw ("Workflow " +:+ "workflow-1" +:+ " not found")).
Proof.
  apply (cancelled_workflow_is_forgotten Fixtures.allSucceedEnv "workflow-1"
           Fixtures.mockCase Fixtures.orchestrator2 Fixtures.workflow2).
  vm_compute. reflexivity.
Defined.

(** X12: the estimate of [calculateEstimatedCompletion] lies between 30
    and 210 minutes after the current time, whatever the complexity and
    the category of the case, and [startWorkflow] stores it in the
    record. *)
Theorem estimatedCompletion_bounds (env : Orchestrator.Env)
    (caseData : LegalCase) (this : Orchestrator.t) :
  (Orchestrator.now env + 1800000
   <= Orchestrator.calculateEstimatedCompletion env caseData)%Q
  /\ (Orchestrator.calculateEstimatedCompletion env caseData
      <= Orchestrator.now env + 12600000)%Q
  /\ exists ws,
       Orchestrator.getWorkflowState (Orchestrator.uuidv4 env)
         (Orchestrator.startWorkflow env caseData this).1.1 = Some ws
       /\ Orchestrator.estimatedCompletion ws
          = Orchestrator.calculateEstimatedCompletion env caseData.
Proof.
  split_and!.
  - unfold Orchestrator.calculateEstimatedCompletion.
    apply Qplus_le_r.
    destruct (complexity (caseDetails caseData)),
      (category (caseDetails caseData)); by vm_compute.
  - unfold Orchestrator.calculateEstimatedCompletion.
    apply Qplus_le_r.
    destruct (complexity (caseDetails caseData)),
      (category (caseDetails caseData)); by vm_compute.
  - unfold Orchestrator.startWorkflow, Orchestrator.addWorkflowLog,
      Orchestrator.modifyWorkflow, Orchestrator.getWorkflowState,
      Orchestrator.processQueue.
    cbv zeta. cbn [Orchestrator.activeWorkflows Orchestrator.isProcessing
      Orchestrator.workflowQueue].
    destruct (Orchestrator.isProcessing this); cbn [orb].
    + eexists. cbn [fst Orchestrator.activeWorkflows].
      rewrite alter_insert_eq, lookup_insert_eq. done.
    + destruct (bool_decide _); eexists; cbn [fst Orchestrator.activeWorkflows];
        rewrite alter_insert_eq, lookup_insert_eq; done.
Qed.

Lemma runStages_sameButLogs (env : Orchestrator.Env) (wid : string)
    (stages : list WorkflowStage) :
  forall c agents ws1 ws2,
  OrchestratorSpec.sameButLogs ws1 ws2 ->
  (Orchestrator.runStages env wid stages c agents ws1).1.1.1
  = (Orchestrator.runStages env wid stages c agents ws2).1.1.1
  /\ OrchestratorSpec.sameButLogs
       (Orchestrator.runStages env wid stages c agents ws1).1.1.2
       (Orchestrator.runStages env wid stages c agents ws2).1.1.2
  /\ (Orchestrator.runStages env wid stages c agents ws1).1.2
     = (Orchestrator.runStages env wid stages c agents ws2).1.2
  /\ (Orchestrator.runStages env wid stages c agents ws1).2
     = (Orchestrator.runStages env wid stages c agents ws2).2.
Proof.
  induction stages as [|stage stages IH]; intros c agents ws1 ws2 Hsame;
    simpl; [done|].
  pose proof Hsame as (Hid & Hcur & Hdone & Hprog & Hest & Herr).
  rewrite <- Hdone, <- Hid.
  destruct (includes _ stage); [by apply IH|].
  destruct (Orchestrator.getAgentForStage agents stage) as [[key agent]|].
  2:{ simpl. split_and!; try done. }
  destruct (BaseAgent.process _ _ agent c) as [agent' [c1|m]].
  2:{ simpl. split_and!; try done. unfold OrchestratorSpec.sameButLogs.
      simpl. by rewrite Herr, Hest, Hdone, Hid. }
  match goal with
  | |- context [Orchestrator.runStages env wid stages c1 ?a ?w1] =>
      match goal with
      | |- context [Orchestrator.runStages env wid stages c1 a ?w2] =>
          lazymatch w2 with
          | w1 => fail
          | _ => pose proof (IH c1 a w1 w2) as Hrec
          end
      end
  end.
  destruct Hrec as (Ha & Hs & He & Hr).
  { unfold OrchestratorSpec.sameButLogs. simpl.
    by rewrite Herr, Hest, Hdone, Hid. }
  repeat match goal with
  | |- context [Orchestrator.runStages env wid stages c1 ?a ?w] =>
      destruct (Orchestrator.runStages env wid stages c1 a w)
        as [[[? ?] ?] ?]
  end.
  simpl in *. subst. done.
Qed.

(** X13: [pauseWorkflow] does not stop a workflow.  It emits
    [workflow-paused] and adds a log entry, and nothing else of the record
    changes; [processWorkflow] on the paused workflow gives the outcome,
    the trace and the agents it gives without the pause, and records that
    differ in their logs only. *)
Theorem pauseWorkflow_does_not_stop_the_workflow
    (env : Orchestrator.Env) (wid : string) (caseData : LegalCase)
    (this : Orchestrator.t) (ws : Orchestrator.WorkflowState) :
  Orchestrator.activeWorkflows this !! wid = Some ws ->
  exists paused,
    Orchestrator.pauseWorkflow wid this
    = (paused, [Orchestrator.workflow_paused wid (Orchestrator.caseId ws)],
       Returned tt)
    /\ (exists ws_p,
          Orchestrator.activeWorkflows paused !! wid = Some ws_p
          /\ OrchestratorSpec.sameButLogs ws ws_p)
    /\ (Orchestrator.processWorkflow env wid caseData paused).2
       = (Orchestrator.processWorkflow env wid caseData this).2
    /\ (Orchestrator.processWorkflow env wid caseData paused).1.2
       = (Orchestrator.processWorkflow env wid caseData this).1.2
    /\ Orchestrator.agents
         (Orchestrator.processWorkflow env wid caseData paused).1.1
       = Orchestrator.agents
           (Orchestrator.processWorkflow env wid caseData this).1.1
    /\ exists ws1 ws2,
         Orchestrator.activeWorkflows
           (Orchestrator.processWorkflow env wid caseData this).1.1 !! wid
         = Some ws1
         /\ Orchestrator.activeWorkflows
              (Orchestrator.processWorkflow env wid caseData paused).1.1 !! wid
            = Some ws2
         /\ OrchestratorSpec.sameButLogs ws1 ws2.
Proof.
  intros Hl. unfold Orchestrator.pauseWorkflow. rewrite Hl.
  eexists. split; [reflexivity|].
  unfold Orchestrator.processWorkflow, Orchestrator.addWorkflowLog,
    Orchestrator.modifyWorkflow.
  cbn [Orchestrator.activeWorkflows Orchestrator.agents].
  rewrite lookup_alter_eq, Hl. cbn [fmap option_fmap option_map].
  split; [eexists; split; [reflexivity|done]|].
  match goal with
  | |- context [Orchestrator.runStages env wid ?st caseData ?a
                  (Orchestrator.push_log ?l ws)] =>
      pose proof (runStages_sameButLogs env wid st caseData a ws
                    (Orchestrator.push_log l ws)) as Hrec
  end.
  destruct Hrec as (Ha & Hs & He & Hr); [done|].
  destruct (Orchestrator.runStages env wid Orchestrator.getWorkflowStages
              caseData (Orchestrator.agents this) ws)
    as [[[agents1 ws1] events1] r1].
  destruct (Orchestrator.runStages env wid Orchestrator.getWorkflowStages
              caseData (Orchestrator.agents this) (Orchestrator.push_log _ ws))
    as [[[agents2 ws2] events2] r2].
  simpl in Ha, Hs, He, Hr. subst agents2 events2 r2.
  destruct Hs as (Hid & Hcur & Hdone & Hprog & Hest & Herr).
  destruct r1 as [c1|m]; cbn [fst snd Orchestrator.activeWorkflows
                                Orchestrator.agents];
    rewrite !lookup_insert_eq; (split_and!; try done);
    do 2 eexists; (split_and!; try done);
    unfold OrchestratorSpec.sameButLogs; simpl;
    by rewrite ?Hid, ?Hcur, ?Hdone, ?Hprog, ?Hest, ?Herr.
Qed.

Lemma pauseWorkflow_does_not_stop_the_workflow_witness :
  exists paused,
    Orchestrator.pauseWorkflow "workflow-1" Fixtures.orchestrator1
    = (paused,
       [Orchestrator.workflow_paused "workflow-1"
          (Orchestrator.caseId Fixtures.workflow1)],
       Returned tt)
    /\ (exists ws_p,
          Orchestrator.activeWorkflows paused !! "workflow-1" = Some ws_p
          /\ OrchestratorSpec.sameButLogs Fixtures.workflow1 ws_p)
    /\ (Orchestrator.processWorkflow Fixtures.allSucceedEnv "workflow-1"
          Fixtures.mockCase paused).2
       = (Orchestrator.processWorkflow Fixtures.allSucceedEnv "workflow-1"
            Fixtures.mockCase Fixtures.orchestrator1).2
    /\ (Orchestrator.processWorkflow Fixtures.allSucceedEnv "workflow-1"
          Fixtures.mockCase paused).1.2
       = (Orchestrator.processWorkflow Fixtures.allSucceedEnv "workflow-1"
            Fixtures.mockCase Fixtures.orchestrator1).1.2
    /\ Orchestrator.agents
         (Orchestrator.processWorkflow Fixtures.allSucceedEnv "workflow-1"
            Fixtures.mockCase paused).1.1
       = Orchestrator.agents
           (Orchestrator.processWorkflow Fixtures.allSucceedEnv "workflow-1"
              Fixtures.mockCase Fixtures.orchestrator1).1.1
    /\ exists ws1 ws2,
         Orchestrator.activeWorkflows
           (Orchestrator.processWorkflow Fixtures.allSucceedEnv "workflow-1"
              Fixtures.mockCase Fixtures.orchestrator1).1.1 !! "workflow-1"
         = Some ws1
         /\ Orchestrator.activeWorkflows
              (Orchestrator.processWorkflow Fixtures.allSucceedEnv
                 "workflow-1" Fixtures.mockCase paused).1.1 !! "workflow-1"
            = Some ws2
         /\ OrchestratorSpec.sameButLogs ws1 ws2.
Proof.
  apply (pauseWorkflow_does_not_stop_the_workflow Fixtures.allSucceedEnv
           "workflow-1" Fixtures.mockCase Fixtures.orchestrator1
           Fixtures.workflow1).
  vm_compute. reflexivity.
Defined.

(** [getAgentStatus] reports every registered agent and no other,
    and leaves the workflows alone.  The descriptor it reports is the one
    read before the probe: for an agent whose probe throws, the report
    carries [healthy = false] with the status the agent had, while the
    agent itself is left in status [error]; an agent whose probe returns
    is unchanged. *)
Lemma getAgentStatus_reports_descriptor_before_probe
    (probes : string -> Outcome bool) (this : Orchestrator.t)
    (agentType : string) :
  (Orchestrator.getAgentStatus probes this).2 !! agentType
  = (fun agent =>
       (BaseAgent.agent agent,
        match probes agentType with
        | Returned healthy => healthy
        | Threw _ => false
        end)) <$> Orchestrator.agents this !! agentType
  /\ Orchestrator.agents (Orchestrator.getAgentStatus probes this).1
       !! agentType
     = (fun agent =>
          match probes agentType with
          | Returned _ => agent
          | Threw _ =>
              {| BaseAgent.agent :=
                   BaseAgent.set_status error (BaseAgent.agent agent);
                 BaseAgent.isProcessing := BaseAgent.isProcessing agent |}
          end) <$> Orchestrator.agents this !! agentType
  /\ Orchestrator.activeWorkflows (Orchestrator.getAgentStatus probes this).1
     = Orchestrator.activeWorkflows this.
Proof.
  unfold Orchestrator.getAgentStatus.
  cbn [fst snd Orchestrator.agents Orchestrator.activeWorkflows].
  rewrite !map_lookup_imap.
  destruct (Orchestrator.agents this !! agentType) as [agent|]; [|done].
  unfold BaseAgent.healthCheck, BaseAgent.getAgentInfo.
  simpl. by destruct (probes agentType).
Qed.
(** ** Retrieval engine: the hash, the embedding, the shape of an answer *)

Lemma toInt32_shift (z k : Z) : toInt32 (z + k * 2 ^ 32) = toInt32 z.
Proof.
  unfold toInt32.
  replace (z + k * 2 ^ 32 + 2 ^ 31) with (z + 2 ^ 31 + k * 2 ^ 32) by lia.
  by rewrite Z_mod_plus_full.
Qed.

Lemma toInt32_wraps (z : Z) : exists k, toInt32 z = z + k * 2 ^ 32.
Proof.
  exists (- ((z + 2 ^ 31) / 2 ^ 32)). unfold toInt32.
  pose proof (Z.div_mod (z + 2 ^ 31) (2 ^ 32)). lia.
Qed.

Lemma simpleHash_step_hash31 (a c : Z) :
  RAG.simpleHash_step (toInt32 a) c = toInt32 (31 * a + c).
Proof.
  unfold RAG.simpleHash_step.
  destruct (toInt32_wraps a) as [k ->].
  destruct (toInt32_wraps ((a + k * 2 ^ 32) * 2 ^ 5)) as [k' ->].
  replace ((a + k * 2 ^ 32) * 2 ^ 5 + k' * 2 ^ 32 - (a + k * 2 ^ 32) + c)
    with (31 * a + c + (31 * k + k') * 2 ^ 32) by lia.
  apply toInt32_shift.
Qed.

Lemma foldl_simpleHash_step (codes : list Z) (a : Z) :
  foldl RAG.simpleHash_step (toInt32 a) codes
  = toInt32 (foldl (fun h c => 31 * h + c) a codes).
Proof.
  revert a. induction codes as [|c codes IH]; intros a; simpl; [done|].
  by rewrite simpleHash_step_hash31, IH.
Qed.

(** X14: [simpleHash] is the polynomial hash with multiplier 31 over the
    character codes, wrapped to 32 bits at every step, in absolute value:
    it equals the absolute value of the 32-bit wrap of the exact polynomial
    and so lies between 0 and 2^31. *)
Theorem simpleHash_is_wrapped_hash31 (str : string) :
  RAG.simpleHash str = Z.abs (toInt32 (RAGSpec.hash31 (charCodes str)))
  /\ 0 <= RAG.simpleHash str <= 2 ^ 31.
Proof.
  split; [|apply simpleHash_range].
  unfold RAG.simpleHash, RAGSpec.hash31.
  by rewrite <- foldl_simpleHash_step.
Qed.

(** X15: [getEmbedding] never throws.  Without a key, or when the
    embedding backend throws, it answers the mock embedding of the whole
    text, a vector of 1536 entries; with a key and a backend that answers,
    it passes on the backend's vector for the first 8000 characters. *)
Theorem getEmbedding_falls_back_to_mock {Index} (env : RAG.Env Index)
    (text : string) :
  (exists v, RAG.getEmbedding Index env text = Returned v)
  /\ (RAG.OPENAI_API_KEY env = false
      \/ (exists m, RAG.embeddings_create env
                      (String.substring 0 (Z.to_nat 8000) text) = Threw m) ->
      RAG.getEmbedding Index env text
      = Returned (RAG.getMockEmbedding Index env text)
      /\ length (RAG.getMockEmbedding Index env text) = 1536%nat)
  /\ (forall v,
        RAG.OPENAI_API_KEY env = true ->
        RAG.embeddings_create env (String.substring 0 (Z.to_nat 8000) text)
        = Returned v ->
        RAG.getEmbedding Index env text = Returned v).
Proof.
  unfold RAG.getEmbedding. split_and!.
  - destruct (RAG.OPENAI_API_KEY env); simpl; [|by eexists].
    destruct (RAG.embeddings_create env _); simpl; by eexists.
  - intros Hcase. split; [|apply getMockEmbedding_length].
    destruct (RAG.OPENAI_API_KEY env); simpl; [|done].
    destruct Hcase as [|[m ->]]; done.
  - intros v -> ->. done.
Qed.


(** What [searchSimilar] returns comes from the neighbours the index
    reported: each result is a stored document under a reported label,
    scored one minus the reported distance, at or above the threshold. *)
Lemma searchSimilar_provenance {Index} (env : RAG.Env Index)
    (this : RAG.t Index) (q : RAG.Vec) (k : Z) (thr : Q)
    (results : list RAG.ScoredDocument) :
  RAG.searchSimilar Index env this q k thr = Returned results ->
  forall r, r ∈ results ->
    (thr <= RAG.score r)%Q
    /\ exists idx hits label distance,
         RAG.vectorIndex this = Some idx
         /\ RAG.searchKnn env idx q k = Returned hits
         /\ (label, distance) ∈ hits
         /\ RAG.service_documents this !! label = Some (RAG.stored r)
         /\ RAG.score r = (1 - distance)%Q.
Proof.
  unfold RAG.searchSimilar.
  destruct (RAG.vectorIndex this) as [idx|];
    [|by intros [= <-] r Hr%elem_of_nil].
  case_decide; [by intros [= <-] r Hr%elem_of_nil|].
  destruct (RAG.searchKnn env idx q k) as [hits|] eqn:Hknn; simpl; [|done].
  intros [= <-] r Hr. apply list_elem_of_omap in Hr as ([label distance] & Hin & Hs).
  apply scoreNeighbor_Some in Hs as (Hl & Hscore & Hthr).
  split; [done|]. by exists idx, hits, label, distance.
Qed.

Lemma query_initialized {Index} (env : RAG.Env Index) (request : RAG.RAGQuery)
    (this : RAG.t Index) :
  RAG.isInitialized this = true ->
  RAG.query Index env request this
  = (this, try_catch (RAG.query_body Index env this request)
                     (fun _ => Returned (RAG.emptyResult Index env))).
Proof. intros Hinit. unfold RAG.query. by rewrite Hinit. Qed.

(** A result of [query] on an initialized service is the empty one or
    comes from a search and a filtering that both returned. *)
Lemma query_cases {Index} (env : RAG.Env Index) (request : RAG.RAGQuery)
    (this this' : RAG.t Index) (result : RAG.RAGResult) :
  RAG.isInitialized this = true ->
  RAG.query Index env request this = (this', Returned result) ->
  this' = this
  /\ (result = RAG.emptyResult Index env
      \/ exists q found kept,
           RAG.getEmbedding Index env (RAG.query_text request) = Returned q
           /\ RAG.searchSimilar Index env this q (RAGSpec.neighbours request)
                (RAGSpec.thresholdInForce request) = Returned found
           /\ RAG.applyFilters found (RAG.filters request) = Returned kept
           /\ RAG.query_body Index env this request = Returned result
           /\ RAG.documents result = map RAG.toRetrieved kept).
Proof.
  intros Hinit. rewrite query_initialized by done.
  intros [= <- Hres]. split; [done|].
  unfold RAG.query_body in *.
  unfold RAGSpec.neighbours, RAGSpec.thresholdInForce.
  destruct (RAG.getEmbedding Index env _) as [q|] eqn:Hemb; simpl in *;
    [|left; by injection Hres].
  destruct (RAG.searchSimilar Index env this q _ _) as [found|] eqn:Hsearch;
    simpl in *; [|left; by injection Hres].
  destruct (RAG.applyFilters found _) as [kept|] eqn:Hfilter; simpl in *;
    [|left; by injection Hres].
  right. exists q, found, kept. injection Hres as <-.
  rewrite Hsearch. simpl. rewrite Hfilter. done.
Qed.

(** X16: an initialized service that holds no document, or has no index,
    answers every request, whatever its filters, with no document, a total
    of 0 and confidence 0, and stays as it was. *)
Theorem query_without_documents_is_empty {Index} (env : RAG.Env Index)
    (request : RAG.RAGQuery) (this : RAG.t Index) :
  RAG.isInitialized this = true ->
  size (RAG.service_documents this) = 0%nat \/ RAG.vectorIndex this = None ->
  RAG.query Index env request this
  = (this,
     Returned {| RAG.documents := []; RAG.totalResults := 0;
                 RAG.queryTime := RAG.elapsed env; RAG.confidence := 0 |}).
Proof.
  intros Hinit Hempty. rewrite query_initialized by done. f_equal.
  unfold RAG.query_body.
  destruct (getEmbedding_total env (RAG.query_text request)) as [q ->].
  simpl.
  assert (forall k thr, RAG.searchSimilar Index env this q k thr = Returned [])
    as ->.
  { intros k thr. unfold RAG.searchSimilar.
    destruct (RAG.vectorIndex this); [|done].
    destruct Hempty as [->|]; done. }
  simpl. by destruct (RAG.filters request).
Qed.

Lemma query_without_documents_is_empty_witness :
  RAG.query ExactIndex.Index Fixtures.ragEnv
    (Fixtures.filteredQuery "material breach of contract") Fixtures.service0
  = (Fixtures.service0,
     Returned {| RAG.documents := []; RAG.totalResults := 0;
                 RAG.queryTime := RAG.elapsed Fixtures.ragEnv;
                 RAG.confidence := 0 |}).
Proof.
  apply (query_without_documents_is_empty Fixtures.ragEnv
           (Fixtures.filteredQuery "material breach of contract")
           Fixtures.service0).
  - reflexivity.
  - left. vm_compute. reflexivity.
Defined.



(** X18: [query] invents nothing.  Every document of an answer is a
    stored document of the service, under a label the index reported for
    the embedding of the query text, and its relevance score is one minus
    the distance reported for that label. *)
Theorem query_returns_reported_neighbours {Index} (env : RAG.Env Index)
    (request : RAG.RAGQuery) (this this' : RAG.t Index)
    (result : RAG.RAGResult) :
  RAG.isInitialized this = true ->
  RAG.query Index env request this = (this', Returned result) ->
  forall d, d ∈ RAG.documents result ->
    exists idx q hits label distance sd,
      RAG.vectorIndex this = Some idx
      /\ RAG.getEmbedding Index env (RAG.query_text request) = Returned q
      /\ RAG.searchKnn env idx q (RAGSpec.neighbours request) = Returned hits
      /\ (label, distance) ∈ hits
      /\ RAG.service_documents this !! label = Some sd
      /\ d = RAG.toRetrieved {| RAG.stored := sd; RAG.score := 1 - distance |}.
Proof.
  intros Hinit Hq d Hd.
  destruct (query_cases env request this this' result Hinit Hq)
    as [-> [->|(q & found & kept & Hemb & Hsearch & Hfilter & _ & Hdocs)]];
    [by apply elem_of_nil in Hd|].
  rewrite Hdocs in Hd. apply list_elem_of_In in Hd.
  apply in_map_iff in Hd as (r & <- & Hr). apply list_elem_of_In in Hr.
  apply (sublist_subseteq _ _ (applyFilters_sublist _ _ _ Hfilter)) in Hr.
  destruct (searchSimilar_provenance env this q _ _ _ Hsearch r Hr)
    as (_ & idx & hits & label & distance & Hidx & Hknn & Hin & Hl & Hscore).
  exists idx, q, hits, label, distance, (RAG.stored r).
  split_and!; try done. destruct r as [sd s]. simpl in *. by rewrite Hscore.
Qed.

Lemma query_returns_reported_neighbours_witness :
  RAG.isInitialized Fixtures.serviceAB = true
  /\ forall d,
       d ∈ RAG.documents Fixtures.answerAB ->
       exists idx q hits label distance sd,
         RAG.vectorIndex Fixtures.serviceAB = Some idx
         /\ RAG.getEmbedding ExactIndex.Index Fixtures.ragEnv
              (RAG.query_text Fixtures.breachQuery)
            = Returned q
         /\ RAG.searchKnn Fixtures.ragEnv idx q
              (RAGSpec.neighbours Fixtures.breachQuery)
            = Returned hits
         /\ (label, distance) ∈ hits
         /\ RAG.service_documents Fixtures.serviceAB !! label = Some sd
         /\ d = RAG.toRetrieved
                  {| RAG.stored := sd; RAG.score := 1 - distance |}.
Proof.
  split; [reflexivity|].
  apply (query_returns_reported_neighbours Fixtures.ragEnv
           Fixtures.breachQuery Fixtures.serviceAB Fixtures.serviceAB
           Fixtures.answerAB).
  - reflexivity.
  - vm_compute. reflexivity.
Defined.

(** ** Retrieval engine: filters *)

Lemma includes_opt_true (l : list string) (x : option string) :
  RAG.includes_opt l x = true -> exists v, x = Some v /\ v ∈ l.
Proof.
  destruct x as [v|]; simpl; [|done].
  intros H%includes_true. by exists v.
Qed.

(** What a scored document that passes a filter object satisfies. *)
Lemma passesFilters_true (f : RAG.RAGFilters) (r : RAG.ScoredDocument) :
  RAG.passesFilters f r = Returned true ->
  (forall ty tys, RAG.documentType f = Some (ty :: tys) ->
     exists m t, RAG.sd_metadata (RAG.stored r) = Some m
                 /\ RAG.md_type m = Some t /\ t ∈ ty :: tys)
  /\ (forall j js, RAG.jurisdiction f = Some (j :: js) ->
        exists m v, RAG.sd_metadata (RAG.stored r) = Some m
                    /\ RAG.md_jurisdiction m = Some v /\ v ∈ j :: js)
  /\ (forall range, RAG.dateRange f = Some range ->
        exists m, RAG.sd_metadata (RAG.stored r) = Some m
                  /\ RAG.date_lt (RAG.md_date m) (RAG.dr_start range) = false
                  /\ RAG.date_lt (RAG.dr_end range) (RAG.md_date m) = false)
  /\ (forall minScore, RAG.filter_relevanceScore f = Some minScore ->
        ~ (minScore == 0)%Q -> (minScore <= RAG.score r)%Q).
Proof.
  unfold RAG.passesFilters. intros H.
  destruct (match RAG.documentType f with
            | Some (ty :: tys) => _ | _ => Returned true end)
    as [[|]|] eqn:Htype; simpl in H; try done.
  destruct (match RAG.jurisdiction f with
            | Some (j :: js) => _ | _ => Returned true end)
    as [[|]|] eqn:Hjur; simpl in H; try done.
  destruct (match RAG.dateRange f with
            | Some range => _ | None => Returned true end)
    as [[|]|] eqn:Hdate; simpl in H; try done.
  split_and!.
  - intros ty tys Hf. rewrite Hf in Htype.
    destruct (RAG.sd_metadata (RAG.stored r)) as [m|]; [|done].
    injection Htype as Htype.
    apply includes_opt_true in Htype as (t & Ht & Hin). by exists m, t.
  - intros j js Hf. rewrite Hf in Hjur.
    destruct (RAG.sd_metadata (RAG.stored r)) as [m|]; [|done].
    injection Hjur as Hjur.
    apply includes_opt_true in Hjur as (v & Hv & Hin). by exists m, v.
  - intros range Hf. rewrite Hf in Hdate.
    destruct (RAG.sd_metadata (RAG.stored r)) as [m|]; [|done].
    injection Hdate as Hdate. apply andb_true_iff in Hdate as [H1 H2].
    apply negb_true_iff in H1, H2. by exists m.
  - intros minScore Hf Hnz. rewrite Hf in H. injection H as H.
    apply negb_true_iff, andb_false_iff in H as [H|H].
    + apply negb_false_iff, Qeq_bool_iff in H. done.
    + by apply Qlt_b_false.
Qed.

Lemma filterM_kept_pass (f : RAG.RAGFilters)
    (results kept : list RAG.ScoredDocument) :
  RAG.filterM f results = Returned kept ->
  forall r, r ∈ kept -> RAG.passesFilters f r = Returned true.
Proof.
  revert kept. induction results as [|x results IH]; intros kept; simpl.
  - by intros [= <-] r Hr%elem_of_nil.
  - destruct (RAG.passesFilters f x) as [keep|] eqn:Hx; simpl; [|done].
    destruct (RAG.filterM f results) as [kept'|]; simpl; [|done].
    intros [= <-] r Hr. destruct keep.
    + apply elem_of_cons in Hr as [->|Hr]; [done|]. by apply (IH kept').
    + by apply (IH kept').
Qed.



Lemma filterM_throws (f : RAG.RAGFilters) (results : list RAG.ScoredDocument)
    (r : RAG.ScoredDocument) (m : string) :
  r ∈ results ->
  RAG.passesFilters f r = Threw m ->
  exists m', RAG.filterM f results = Threw m'.
Proof.
  intros Hr Hthrow. induction results as [|x results IH];
    [by apply elem_of_nil in Hr|].
  simpl. apply elem_of_cons in Hr as [<-|Hr].
  - rewrite Hthrow. by eexists.
  - destruct (RAG.passesFilters f x); simpl; [|by eexists].
    destruct (IH Hr) as [m' ->]. by eexists.
Qed.

(** X20: one stored document without [metadata] among the neighbours is
    enough to empty a filtered answer.  When a filter on the type, the
    jurisdiction or the date is in force and the index reports, at or
    above the threshold, a document stored without [metadata], the filter
    callback throws, [query] catches it, and the answer holds no document
    at all, whatever the other neighbours are. *)
Theorem hit_without_metadata_empties_filtered_query
    {Index} (env : RAG.Env Index) (request : RAG.RAGQuery)
    (this : RAG.t Index) (f : RAG.RAGFilters) (idx : Index) (q : RAG.Vec)
    (hits : list (nat * Q)) (label : nat) (distance : Q)
    (sd : RAG.StoredDocument) :
  RAG.isInitialized this = true ->
  RAG.vectorIndex this = Some idx ->
  RAG.getEmbedding Index env (RAG.query_text request) = Returned q ->
  RAG.searchKnn env idx q (RAGSpec.neighbours request) = Returned hits ->
  (label, distance) ∈ hits ->
  RAG.service_documents this !! label = Some sd ->
  RAG.sd_metadata sd = None ->
  (RAGSpec.thresholdInForce request <= 1 - distance)%Q ->
  RAG.filters request = Some f ->
  (exists ty tys, RAG.documentType f = Some (ty :: tys))
  \/ (exists j js, RAG.jurisdiction f = Some (j :: js))
  \/ is_Some (RAG.dateRange f) ->
  RAG.query Index env request this
  = (this, Returned (RAG.emptyResult Index env)).
Proof.
  intros Hinit Hidx Hq Hknn Hhit Hl Hmeta Hthr Hfilters Hactive.
  rewrite query_initialized by done. f_equal.
  unfold RAG.query_body, RAG.searchSimilar. rewrite Hq. simpl.
  rewrite Hidx.
  rewrite decide_False
    by (intros Hsize; apply map_size_empty_inv in Hsize;
        rewrite Hsize in Hl; by rewrite lookup_empty in Hl).
  unfold RAGSpec.neighbours, RAGSpec.thresholdInForce in *.
  rewrite Hknn. simpl.
  set (thr := or_default_Q (RAG.threshold request) (7 # 10)) in *.
  set (found := {| RAG.stored := sd; RAG.score := (1 - distance)%Q |}).
  set (results := omap (M:=list) (RAG.scoreNeighbor Index this thr) hits).
  assert (Hfound : found ∈ results).
  { apply list_elem_of_omap. exists (label, distance). split; [done|].
    unfold RAG.scoreNeighbor. simpl. rewrite Hl.
    assert (Qlt_b (1 - distance) thr = false) as ->; [|done].
    unfold Qlt_b. apply negb_false_iff. by apply Qle_bool_iff. }
  assert (exists m, RAG.passesFilters f found = Threw m) as [m Hthrow].
  { unfold RAG.passesFilters. simpl. rewrite Hmeta.
    destruct Hactive as [(ty & tys & ->)|[(j & js & Hj)|[range Hrange]]].
    - by eexists.
    - rewrite Hj. destruct (RAG.documentType f) as [[|ty tys]|]; by eexists.
    - rewrite Hrange.
      destruct (RAG.documentType f) as [[|ty tys]|]; simpl; try (by eexists);
        destruct (RAG.jurisdiction f) as [[|j js]|]; by eexists. }
  rewrite Hfilters. simpl.
  destruct (filterM_throws f results found m Hfound Hthrow) as [m' ->].
  done.
Qed.

Lemma hit_without_metadata_empties_filtered_query_witness :
  RAG.query ExactIndex.Index Fixtures.ragEnv
    (Fixtures.filteredQuery "statute of limitations") Fixtures.serviceAN
  = (Fixtures.serviceAN,
     Returned (RAG.emptyResult ExactIndex.Index Fixtures.ragEnv)).
Proof.
  apply (hit_without_metadata_empties_filtered_query Fixtures.ragEnv
           (Fixtures.filteredQuery "statute of limitations")
           Fixtures.serviceAN Fixtures.caseLawFilter
           (default [] (RAG.vectorIndex Fixtures.serviceAN))
           (RAG.getMockEmbedding _ Fixtures.ragEnv "statute of limitations")
           [(1%nat, 0%Q); (0%nat, 1%Q)] 1%nat 0%Q
           (RAG.store Fixtures.docNoMeta 1)).
  - reflexivity.
  - vm_compute. reflexivity.
  - vm_compute. reflexivity.
  - vm_compute. reflexivity.
  - apply list_elem_of_In. left. reflexivity.
  - vm_compute. reflexivity.
  - reflexivity.
  - apply Qle_bool_iff. vm_compute. reflexivity.
  - reflexivity.
  - left. by exists "case-law", [].
Defined.

(** ** Retrieval engine: adding documents *)

(** X21: a call of [addDocument] that returns, on an initialized service
    whose labels are contiguous, stores exactly one more document: it sits
    under the label that was the number of documents, the index was given
    the point under that same label, no earlier document is touched, and
    the labels stay contiguous. *)
Theorem addDocument_appends_one_document {Index} (env : RAG.Env Index)
    (doc : RAG.InputDocument) (this this' : RAG.t Index) :
  RAG.isInitialized this = true ->
  RAGSpec.contiguous this ->
  RAG.addDocument Index env doc this = (this', Returned tt) ->
  size (RAG.service_documents this')
  = S (size (RAG.service_documents this))
  /\ RAG.service_documents this' !! size (RAG.service_documents this)
     = Some (RAG.store doc (size (RAG.service_documents this)))
  /\ (forall label sd,
        RAG.service_documents this !! label = Some sd ->
        RAG.service_documents this' !! label = Some sd)
  /\ RAGSpec.contiguous this'
  /\ RAG.isInitialized this' = true
  /\ (forall idx, RAG.vectorIndex this = Some idx ->
        exists q idx',
          RAG.getEmbedding Index env (RAG.in_content doc) = Returned q
          /\ RAG.addPoint env idx q (size (RAG.service_documents this))
             = Returned idx'
          /\ RAG.vectorIndex this' = Some idx').
Proof.
  intros Hinit Hc Hadd.
  pose proof (contiguous_next_unused this Hc) as Hnext.
  destruct (addDocument_keeps env doc this Hinit Hc) as (Hinit' & Hc' & Hkeep).
  rewrite Hadd in Hinit', Hc', Hkeep. simpl in Hinit', Hc', Hkeep.
  unfold RAG.addDocument in Hadd. rewrite Hinit in Hadd.
  destruct (RAG.getEmbedding Index env (RAG.in_content doc)) as [q|] eqn:Hq;
    [|done].
  destruct (RAG.vectorIndex this) as [idx|] eqn:Hidx.
  - destruct (RAG.addPoint env idx q _) as [idx'|] eqn:Hpoint; simpl in Hadd;
      [|done].
    injection Hadd as <- _. simpl. split_and!; try done.
    + by rewrite map_size_insert_None.
    + by rewrite lookup_insert_eq.
    + intros ? [= <-]. by exists q, idx'.
  - simpl in Hadd. injection Hadd as <- _. simpl. split_and!; try done.
    + by rewrite map_size_insert_None.
    + by rewrite lookup_insert_eq.
Qed.

Lemma addDocument_appends_one_document_witness :
  size (RAG.service_documents Fixtures.serviceA)
  = S (size (RAG.service_documents Fixtures.service0))
  /\ RAG.service_documents Fixtures.serviceA
       !! size (RAG.service_documents Fixtures.service0)
     = Some (RAG.store Fixtures.docA
               (size (RAG.service_documents Fixtures.service0)))
  /\ (forall label sd,
        RAG.service_documents Fixtures.service0 !! label = Some sd ->
        RAG.service_documents Fixtures.serviceA !! label = Some sd)
  /\ RAGSpec.contiguous Fixtures.serviceA
  /\ RAG.isInitialized Fixtures.serviceA = true
  /\ (forall idx, RAG.vectorIndex Fixtures.service0 = Some idx ->
        exists q idx',
          RAG.getEmbedding ExactIndex.Index Fixtures.ragEnv
            (RAG.in_content Fixtures.docA) = Returned q
          /\ RAG.addPoint Fixtures.ragEnv idx q
               (size (RAG.service_documents Fixtures.service0))
             = Returned idx'
          /\ RAG.vectorIndex Fixtures.serviceA = Some idx').
Proof.
  apply (addDocument_appends_one_document Fixtures.ragEnv Fixtures.docA
           Fixtures.service0 Fixtures.serviceA).
  - reflexivity.
  - unfold RAGSpec.contiguous. apply (bool_decide_unpack _). vm_compute.
    exact I.
  - vm_compute. reflexivity.
Defined.

(** X22: how [addDocument] fails on an initialized service.  When the
    index refuses the point, the error is thrown and the service is as
    before.  When the point is added and writing the documents file
    fails, the error is thrown as well, but the document stays in the map
    and the point in the index: the call has failed and the document is
    there. *)
Theorem addDocument_failure_modes {Index} (env : RAG.Env Index)
    (doc : RAG.InputDocument) (this : RAG.t Index) (idx : Index)
    (q : RAG.Vec) :
  RAG.isInitialized this = true ->
  RAG.vectorIndex this = Some idx ->
  RAG.getEmbedding Index env (RAG.in_content doc) = Returned q ->
  (forall m,
     RAG.addPoint env idx q (size (RAG.service_documents this)) = Threw m ->
     RAG.addDocument Index env doc this = (this, Threw m))
  /\ (forall idx' m,
        RAG.addPoint env idx q (size (RAG.service_documents this))
        = Returned idx' ->
        RAG.writeDocumentsFile env
          (map_to_list
             (<[size (RAG.service_documents this) :=
                  RAG.store doc (size (RAG.service_documents this))]>
                (RAG.service_documents this))).*2
        = Threw m ->
        exists this',
          RAG.addDocument Index env doc this = (this', Threw m)
          /\ RAG.service_documents this' !! size (RAG.service_documents this)
             = Some (RAG.store doc (size (RAG.service_documents this)))
          /\ RAG.vectorIndex this' = Some idx').
Proof.
  intros Hinit Hidx Hq. unfold RAG.addDocument. rewrite Hinit, Hq, Hidx.
  split.
  - intros m ->. done.
  - intros idx' m -> Hwrite. simpl. eexists. split_and!.
    + unfold RAG.saveDocuments. simpl. rewrite Hwrite. done.
    + simpl. by rewrite lookup_insert_eq.
    + done.
Qed.

Lemma addDocument_failure_modes_witness :
  (forall m,
     RAG.addPoint Fixtures.diskFullEnv
       (default [] (RAG.vectorIndex Fixtures.serviceA))
       (RAG.getMockEmbedding _ Fixtures.diskFullEnv
          (RAG.in_content Fixtures.docB))
       (size (RAG.service_documents Fixtures.serviceA)) = Threw m ->
     RAG.addDocument ExactIndex.Index Fixtures.diskFullEnv Fixtures.docB
       Fixtures.serviceA
     = (Fixtures.serviceA, Threw m))
  /\ (forall idx' m,
        RAG.addPoint Fixtures.diskFullEnv
          (default [] (RAG.vectorIndex Fixtures.serviceA))
          (RAG.getMockEmbedding _ Fixtures.diskFullEnv
             (RAG.in_content Fixtures.docB))
          (size (RAG.service_documents Fixtures.serviceA))
        = Returned idx' ->
        RAG.writeDocumentsFile Fixtures.diskFullEnv
          (map_to_list
             (<[size (RAG.service_documents Fixtures.serviceA) :=
                  RAG.store Fixtures.docB
                    (size (RAG.service_documents Fixtures.serviceA))]>
                (RAG.service_documents Fixtures.serviceA))).*2
        = Threw m ->
        exists this',
          RAG.addDocument ExactIndex.Index Fixtures.diskFullEnv Fixtures.docB
            Fixtures.serviceA
          = (this', Threw m)
          /\ RAG.service_documents this'
               !! size (RAG.service_documents Fixtures.serviceA)
             = Some (RAG.store Fixtures.docB
                       (size (RAG.service_documents Fixtures.serviceA)))
          /\ RAG.vectorIndex this' = Some idx').
Proof.
  apply (addDocument_failure_modes Fixtures.diskFullEnv Fixtures.docB
           Fixtures.serviceA).
  - reflexivity.
  - vm_compute. reflexivity.
  - apply getEmbedding_mock. reflexivity.
Defined.

Lemma foldl_insert_last (docs : list RAG.StoredDocument)
    (m : gmap nat RAG.StoredDocument) (label : nat) :
  foldl (fun m doc => <[RAG.sd_index doc := doc]> m) m docs !! label
  = match last (filter (fun doc => RAG.sd_index doc = label) docs) with
    | Some doc => Some doc
    | None => m !! label
    end.
Proof.
  revert m. induction docs as [|d docs IH]; intros m; simpl; [done|].
  rewrite IH. rewrite filter_cons. case_decide as Hd.
  - rewrite last_cons.
    destruct (last (filter _ docs)); [done|].
    rewrite <- Hd. by rewrite lookup_insert_eq.
  - destruct (last (filter _ docs)); [done|].
    by rewrite lookup_insert_ne.
Qed.

(** X23: what [initialize] leaves.  When it returns, the service is
    initialized and healthy, its index is the persisted one or, when that
    cannot be read, a new one, and its documents are those of the
    documents file, each label holding the last record of the file with
    that index; when the file cannot be read the documents are as before.
    It throws only when no index can be read or built, with the prefixed
    message, and then leaves the service as it was. *)
Theorem initialize_loads_persisted_state {Index} (env : RAG.Env Index)
    (this : RAG.t Index) :
  match RAG.initialize Index env this with
  | (this', Returned _) =>
      RAG.isInitialized this' = true
      /\ RAG.healthCheck Index this' = true
      /\ (exists idx,
            RAG.vectorIndex this' = Some idx
            /\ (RAG.readIndex env = Returned idx
                \/ (exists m, RAG.readIndex env = Threw m)
                   /\ RAG.newIndex env = Returned idx))
      /\ (forall docs,
            RAG.readDocumentsFile env = Returned docs ->
            forall label,
              RAG.service_documents this' !! label
              = last (filter (fun doc => RAG.sd_index doc = label) docs))
      /\ ((exists m, RAG.readDocumentsFile env = Threw m) ->
          RAG.service_documents this' = RAG.service_documents this)
  | (this', Threw message) =>
      this' = this
      /\ exists m1 m2,
           RAG.readIndex env = Threw m1
           /\ RAG.newIndex env = Threw m2
           /\ message = "RAG Service initialization failed: " +:+ m2
  end.
Proof.
  unfold RAG.initialize, RAG.loadOrCreateIndex, RAG.loadDocuments,
    RAG.healthCheck.
  destruct (RAG.readIndex env) as [idx|m1] eqn:Hread; simpl.
  - destruct (RAG.readDocumentsFile env) as [docs|m] eqn:Hdocs; simpl;
      (split_and!; try done).
    + exists idx. split; [done|]. by left.
    + intros ? [= <-] label. rewrite foldl_insert_last.
      rewrite lookup_empty. by destruct (last _).
    + by intros [? ?].
    + exists idx. split; [done|]. by left.
  - destruct (RAG.newIndex env) as [idx|m2] eqn:Hnew; simpl.
    + destruct (RAG.readDocumentsFile env) as [docs|m] eqn:Hdocs; simpl;
        (split_and!; try done).
      * exists idx. split; [done|]. right. split; [by eexists|done].
      * intros ? [= <-] label. rewrite foldl_insert_last.
        rewrite lookup_empty. by destruct (last _).
      * by intros [? ?].
      * exists idx. split; [done|]. right. split; [by eexists|done].
    + split; [done|]. by exists m1, m2.
Qed.

(** ** Retrieval engine: ingestion from a directory *)

Lemma addFiles_spec {Index} (env : RAG.Env Index) (dirEnv : RAGIngest.DirEnv)
    (directoryPath : string) (files : list string) :
  forall this : RAG.t Index,
  RAG.isInitialized this = true ->
  RAGSpec.contiguous this ->
  RAG.isInitialized (RAGIngest.addFiles env dirEnv directoryPath files this)
  = true
  /\ RAGSpec.contiguous (RAGIngest.addFiles env dirEnv directoryPath files this)
  /\ (forall label sd,
        RAG.service_documents this !! label = Some sd ->
        RAG.service_documents
          (RAGIngest.addFiles env dirEnv directoryPath files this) !! label
        = Some sd)
  /\ (size (RAG.service_documents
              (RAGIngest.addFiles env dirEnv directoryPath files this))
      <= size (RAG.service_documents this) + length files)%nat
  /\ (forall label sd,
        RAG.service_documents
          (RAGIngest.addFiles env dirEnv directoryPath files this) !! label
        = Some sd ->
        RAG.service_documents this !! label = Some sd
        \/ exists file content,
             file ∈ files
             /\ RAGIngest.readFile dirEnv
                  (RAGIngest.joinPath dirEnv directoryPath file)
                = Returned content
             /\ sd = RAG.store
                       (RAGIngest.directoryDocument dirEnv directoryPath file
                          content) label).
Proof.
  induction files as [|file files IH]; intros this Hinit Hc.
  - simpl. split_and!; try done; [lia|]. intros label sd Hl. by left.
  - cbn [RAGIngest.addFiles].
    destruct (RAGIngest.readFile dirEnv _) as [content|m] eqn:Hread.
    + set (doc := RAGIngest.directoryDocument dirEnv directoryPath file content).
      destruct (addDocument_keeps env doc this Hinit Hc)
        as (Hinit1 & Hc1 & Hkeep1).
      destruct (IH _ Hinit1 Hc1) as (Hinit' & Hc' & Hkeep' & Hsize' & Hnew').
      split_and!; try done.
      * intros label sd Hl. by apply Hkeep', Hkeep1.
      * etransitivity; [exact Hsize'|]. simpl.
        destruct (addDocument_initialized env doc this Hinit) as [->|[vi ->]];
          [lia|].
        simpl. rewrite map_size_insert_None
          by (by apply contiguous_next_unused). lia.
      * intros label sd Hl.
        destruct (Hnew' label sd Hl) as [Hold|(f & c & Hf & Hr & Hsd)].
        -- destruct (addDocument_initialized env doc this Hinit)
             as [Heq|[vi Heq]]; rewrite Heq in Hold; [by left|].
           simpl in Hold.
           destruct (decide (label = size (RAG.service_documents this)))
             as [->|Hne].
           ++ rewrite lookup_insert_eq in Hold. injection Hold as <-.
              right. exists file, content. split_and!; [left|done|done].
           ++ rewrite lookup_insert_ne in Hold by done. by left.
        -- right. exists f, c. split_and!; [by right|done|done].
    + destruct (IH _ Hinit Hc) as (Hinit' & Hc' & Hkeep' & Hsize' & Hnew').
      split_and!; try done.
      * simpl. lia.
      * intros label sd Hl.
        destruct (Hnew' label sd Hl) as [Hold|(f & c & Hf & Hr & Hsd)];
          [by left|].
        right. exists f, c. split_and!; [by right|done|done].
Qed.

(** X24: [addDocumentsFromDirectory] throws only when the directory
    cannot be listed, and then changes nothing.  Otherwise it returns,
    whatever happens to single files: a file that cannot be read or added
    is skipped.  Afterwards every earlier document is still there, at
    most one document per text file was added, and every added document
    is built from a file of the listing with a text extension that could
    be read. *)
Theorem addDocumentsFromDirectory_skips_what_fails
    {Index} (env : RAG.Env Index) (dirEnv : RAGIngest.DirEnv)
    (directoryPath : string) (this : RAG.t Index) :
  RAG.isInitialized this = true ->
  RAGSpec.contiguous this ->
  (forall m, RAGIngest.readdir dirEnv directoryPath = Threw m ->
     RAGIngest.addDocumentsFromDirectory env dirEnv directoryPath this
     = (this, Threw m))
  /\ (forall files, RAGIngest.readdir dirEnv directoryPath = Returned files ->
        exists this',
          RAGIngest.addDocumentsFromDirectory env dirEnv directoryPath this
          = (this', Returned tt)
          /\ RAG.isInitialized this' = true
          /\ RAGSpec.contiguous this'
          /\ (forall label sd,
                RAG.service_documents this !! label = Some sd ->
                RAG.service_documents this' !! label = Some sd)
          /\ (size (RAG.service_documents this')
              <= size (RAG.service_documents this)
                 + length (filter (fun f => RAGIngest.isTextFile f) files))%nat
          /\ (forall label sd,
                RAG.service_documents this' !! label = Some sd ->
                RAG.service_documents this !! label = Some sd
                \/ exists file content,
                     file ∈ files
                     /\ RAGIngest.isTextFile file = true
                     /\ RAGIngest.readFile dirEnv
                          (RAGIngest.joinPath dirEnv directoryPath file)
                        = Returned content
                     /\ sd = RAG.store
                               (RAGIngest.directoryDocument dirEnv
                                  directoryPath file content) label)).
Proof.
  intros Hinit Hc. unfold RAGIngest.addDocumentsFromDirectory. split.
  - by intros m ->.
  - intros files ->. eexists. split; [reflexivity|].
    destruct (addFiles_spec env dirEnv directoryPath
                (filter (fun f => RAGIngest.isTextFile f) files) this Hinit Hc)
      as (Hinit' & Hc' & Hkeep' & Hsize' & Hnew').
    split_and!; try done.
    + intros label sd Hl.
      destruct (Hnew' label sd Hl) as [Hold|(f & c & Hf & Hr & Hsd)];
        [by left|].
      apply list_elem_of_filter in Hf as [Htext Hf].
      right. exists f, c. split_and!; try done.
      by destruct (RAGIngest.isTextFile f).
Qed.

Lemma addDocumentsFromDirectory_skips_what_fails_witness :
  (forall m, RAGIngest.readdir Fixtures.libraryDir "library" = Threw m ->
     RAGIngest.addDocumentsFromDirectory Fixtures.ragEnv Fixtures.libraryDir
       "library" Fixtures.serviceA
     = (Fixtures.serviceA, Threw m))
  /\ (forall files,
        RAGIngest.readdir Fixtures.libraryDir "library" = Returned files ->
        exists this',
          RAGIngest.addDocumentsFromDirectory Fixtures.ragEnv
            Fixtures.libraryDir "library" Fixtures.serviceA
          = (this', Returned tt)
          /\ RAG.isInitialized this' = true
          /\ RAGSpec.contiguous this'
          /\ (forall label sd,
                RAG.service_documents Fixtures.serviceA !! label = Some sd ->
                RAG.service_documents this' !! label = Some sd)
          /\ (size (RAG.service_documents this')
              <= size (RAG.service_documents Fixtures.serviceA)
                 + length (filter (fun f => RAGIngest.isTextFile f) files))%nat
          /\ (forall label sd,
                RAG.service_documents this' !! label = Some sd ->
                RAG.service_documents Fixtures.serviceA !! label = Some sd
                \/ exists file content,
                     file ∈ files
                     /\ RAGIngest.isTextFile file = true
                     /\ RAGIngest.readFile Fixtures.libraryDir
                          (RAGIngest.joinPath Fixtures.libraryDir "library"
                             file)
                        = Returned content
                     /\ sd = RAG.store
                               (RAGIngest.directoryDocument
                                  Fixtures.libraryDir "library" file content)
                               label)).
Proof.
  apply (addDocumentsFromDirectory_skips_what_fails Fixtures.ragEnv
           Fixtures.libraryDir "library" Fixtures.serviceA).
  - reflexivity.
  - unfold RAGSpec.contiguous. apply (bool_decide_unpack _). vm_compute.
    exact I.
Defined.

Lemma query_documents_pass_filters {Index} (env : RAG.Env Index)
    (request : RAG.RAGQuery) (this this' : RAG.t Index)
    (result : RAG.RAGResult) (f : RAG.RAGFilters) :
  RAG.query Index env request this = (this', Returned result) ->
  RAG.filters request = Some f ->
  forall d, d ∈ RAG.documents result ->
    exists r, d = RAG.toRetrieved r /\ RAG.passesFilters f r = Returned true.
Proof.
  intros Hq Hf d Hd. unfold RAG.query in Hq.
  destruct (if RAG.isInitialized this then _ else _) as [this1 [[]|m]];
    [|done].
  injection Hq as <- Hres. unfold RAG.query_body in Hres.
  destruct (RAG.getEmbedding Index env _) as [q|]; simpl in Hres;
    [|injection Hres as <-; by apply elem_of_nil in Hd].
  destruct (RAG.searchSimilar Index env this1 q _ _) as [found|];
    simpl in Hres; [|injection Hres as <-; by apply elem_of_nil in Hd].
  rewrite Hf in Hres. simpl in Hres.
  destruct (RAG.filterM f found) as [kept|] eqn:Hkept; simpl in Hres;
    [|injection Hres as <-; by apply elem_of_nil in Hd].
  injection Hres as <-. simpl in Hd.
  apply list_elem_of_In, in_map_iff in Hd as (r & <- & Hr).
  apply list_elem_of_In in Hr. exists r. split; [done|].
  by apply (filterM_kept_pass f found kept).
Qed.

(** Every document [query] returns for the request of the research agent
    carries [metadata] with the jurisdiction of the case and one of the
    three requested types. *)
Lemma research_query_documents
    {Index} (env : ResearchAgent.Env) (ragEnv : RAG.Env Index)
    (caseData : LegalCase) (this this' : RAG.t Index)
    (result : RAG.RAGResult) :
  RAG.query Index ragEnv (ResearchAgent.researchRequest env caseData) this
  = (this', Returned result) ->
  forall d, d ∈ RAG.documents result ->
    exists m t,
      RAG.metadata d = Some m
      /\ RAG.md_jurisdiction m = Some (jurisdiction (caseDetails caseData))
      /\ RAG.md_type m = Some t
      /\ t ∈ ["case-law"; "statute"; "regulation"].
Proof.
  intros Hq d Hd.
  destruct (query_documents_pass_filters ragEnv _ this this' result _ Hq
              eq_refl d Hd) as (r & -> & Hpass).
  apply passesFilters_true in Hpass as (Htype & Hjur & _).
  destruct (Htype _ _ eq_refl) as (m & t & Hm & Ht & Hin).
  destruct (Hjur _ _ eq_refl) as (m' & v & Hm' & Hv & Hvin).
  rewrite Hm in Hm'. injection Hm' as <-.
  apply list_elem_of_singleton in Hvin as ->.
  exists m, t. by split_and!.
Qed.

(** X25: the request of the research agent filters on the jurisdiction of
    the case and on three document types, so every document [query]
    returns for it carries [metadata], with the jurisdiction of the case
    and one of these types.  A document ingested by
    [addDocumentsFromDirectory], whose metadata has no jurisdiction, is
    therefore never returned to the research agent. *)
Theorem research_query_returns_matching_documents
    {Index} (env : ResearchAgent.Env) (ragEnv : RAG.Env Index)
    (caseData : LegalCase) (this this' : RAG.t Index)
    (result : RAG.RAGResult) :
  RAG.query Index ragEnv (ResearchAgent.researchRequest env caseData) this
  = (this', Returned result) ->
  Forall (fun d =>
            exists m t,
              RAG.metadata d = Some m
              /\ RAG.md_jurisdiction m
                 = Some (jurisdiction (caseDetails caseData))
              /\ RAG.md_type m = Some t
              /\ t ∈ ["case-law"; "statute"; "regulation"])
         (RAG.documents result)
  /\ forall dirEnv directoryPath file content label score,
       RAG.toRetrieved
         {| RAG.stored :=
              RAG.store
                (RAGIngest.directoryDocument dirEnv directoryPath file content)
                label;
            RAG.score := score |}
       ∉ RAG.documents result.
Proof.
  intros Hq.
  pose proof (research_query_documents env ragEnv caseData this this' result
                Hq) as Hall.
  split; [by apply Forall_forall|].
  intros dirEnv directoryPath file content label score Hin.
  destruct (Hall _ Hin) as (m & t & Hm & Hj & _).
  simpl in Hm. injection Hm as <-. done.
Qed.

Lemma research_query_returns_matching_documents_witness :
  Forall (fun d =>
            exists m t,
              RAG.metadata d = Some m
              /\ RAG.md_jurisdiction m
                 = Some (jurisdiction (caseDetails Fixtures.mockCase))
              /\ RAG.md_type m = Some t
              /\ t ∈ ["case-law"; "statute"; "regulation"])
         (RAG.documents
            (Fixtures.answerOf Fixtures.ragEnv
               (ResearchAgent.researchRequest Fixtures.researchEnv
                  Fixtures.mockCase) Fixtures.serviceAB))
  /\ forall dirEnv directoryPath file content label score,
       RAG.toRetrieved
         {| RAG.stored :=
              RAG.store
                (RAGIngest.directoryDocument dirEnv directoryPath file content)
                label;
            RAG.score := score |}
       ∉ RAG.documents
           (Fixtures.answerOf Fixtures.ragEnv
              (ResearchAgent.researchRequest Fixtures.researchEnv
                 Fixtures.mockCase) Fixtures.serviceAB).
Proof.
  apply (research_query_returns_matching_documents Fixtures.researchEnv
           Fixtures.ragEnv Fixtures.mockCase Fixtures.serviceAB
           Fixtures.serviceAB).
  vm_compute. reflexivity.
Defined.

(** ** The agents: what their tasks return and when they throw *)

(** X26: the intake task throws only when a validation rejects its input,
    with the message of the validation behind a prefix; no failure of the
    generation service or of the parsing of its replies reaches the
    caller.  When it returns, the case keeps its identifier and its
    documents, is [active] and at the research stage, and differs from
    the validated input at most in the urgency, the description, the
    complexity, the estimated duration, the precedents and the relevant
    laws. *)
Theorem intake_task_throws_only_on_validation (env : IntakeAgent.Env)
    (caseData : LegalCase) :
  match IntakeAgent.executeTask env caseData with
  | Returned processed =>
      id processed = id caseData
      /\ documents processed = documents caseData
      /\ status processed = status_active
      /\ workflowStage processed = legal_research
      /\ exists info details,
           IntakeAgent.validatePlaintiff env (plaintiffInfo caseData)
           = Returned info
           /\ IntakeAgent.validateDetails env (caseDetails caseData)
              = Returned details
           /\ pi_name (plaintiffInfo processed) = pi_name info
           /\ email (plaintiffInfo processed) = email info
           /\ phone (plaintiffInfo processed) = phone info
           /\ address (plaintiffInfo processed) = address info
           /\ legalIssue (plaintiffInfo processed) = legalIssue info
           /\ desiredOutcome (plaintiffInfo processed) = desiredOutcome info
           /\ title (caseDetails processed) = title details
           /\ category (caseDetails processed) = category details
           /\ jurisdiction (caseDetails processed) = jurisdiction details
           /\ courtLevel (caseDetails processed) = courtLevel details
  | Threw message =>
      (exists m,
         IntakeAgent.validatePlaintiff env (plaintiffInfo caseData) = Threw m
         /\ message = "Plaintiff information validation failed: " +:+ m)
      \/ (exists m,
            IntakeAgent.validateDetails env (caseDetails caseData) = Threw m
            /\ message = "Case details validation failed: " +:+ m)
  end.
Proof.
  unfold IntakeAgent.executeTask, IntakeAgent.validatePlaintiffInfo,
    IntakeAgent.enhanceCaseDetails.
  destruct (IntakeAgent.validatePlaintiff env (plaintiffInfo caseData))
    as [info|m] eqn:Hinfo; simpl; [|left; by exists m].
  assert (exists info',
            IntakeAgent.enhancePlaintiffInfo env info = Returned info'
            /\ pi_name info' = pi_name info /\ email info' = email info
            /\ phone info' = phone info /\ address info' = address info
            /\ legalIssue info' = legalIssue info
            /\ desiredOutcome info' = desiredOutcome info)
    as (info' & -> & Hn & He & Hp & Ha & Hl & Hd).
  { unfold IntakeAgent.enhancePlaintiffInfo.
    destruct (IntakeAgent.generateContent env _) as [response|]; simpl;
      [|by eexists].
    destruct (IntakeAgent.parsePlaintiffAnalysis env _); simpl; by eexists. }
  simpl.
  destruct (IntakeAgent.validateDetails env (caseDetails caseData))
    as [details|m] eqn:Hdetails; simpl; [|right; by exists m].
  assert (exists details',
            IntakeAgent.analyzeCaseComplexity env details info'
            = Returned details'
            /\ title details' = title details
            /\ category details' = category details
            /\ jurisdiction details' = jurisdiction details
            /\ courtLevel details' = courtLevel details)
    as (details' & -> & Ht & Hc & Hj & Hcl).
  { unfold IntakeAgent.analyzeCaseComplexity.
    destruct (IntakeAgent.generateContent env _) as [response|]; simpl;
      [|by eexists].
    destruct (IntakeAgent.parseCaseAnalysis env _); simpl; by eexists. }
  simpl. split_and!; try done. exists info, details. by split_and!.
Qed.


Lemma generateAll_pairs (env : DocumentGeneratorService.Env)
    (caseData : LegalCase) (types : list DocumentType) :
  forall acc : list Document,
  exists new,
    DocumentAgent.generateAll env caseData types acc = Returned (acc ++ new)
    /\ map (fun d => (doc_type d, doc_format d)) new
       = flat_map (fun ty => [(ty, pdf); (ty, docx)])
           (filter (fun ty =>
                      isReturned (DocumentGeneratorService.generateDocument
                                    env caseData ty pdf) = true
                      /\ isReturned (DocumentGeneratorService.generateDocument
                                       env caseData ty docx) = true) types)
    /\ Forall (fun d => doc_caseId d = id caseData /\ doc_version d = 1
                        /\ doc_status d = draft) new.
Proof.
  assert (forall ty format d,
            DocumentGeneratorService.generateDocument env caseData ty format
            = Returned d ->
            doc_type d = ty /\ doc_format d = format
            /\ doc_caseId d = id caseData /\ doc_version d = 1
            /\ doc_status d = draft) as Hdoc.
  { intros ty format d. unfold DocumentGeneratorService.generateDocument,
      DocumentGeneratorService.generateDocumentContent.
    destruct (DocumentGeneratorService.generateLegalDocument env ty caseData);
      simpl; [|done].
    destruct (DocumentGeneratorService.writeOutput env format _); simpl;
      [|done].
    by intros [= <-]. }
  induction types as [|ty types IH]; intros acc.
  - exists []. simpl. by rewrite app_nil_r.
  - destruct (DocumentGeneratorService.generateDocument env caseData ty pdf)
      as [p|] eqn:Hp;
      [destruct (DocumentGeneratorService.generateDocument env caseData ty docx)
         as [x|] eqn:Hx|].
    + rewrite filter_cons_True by (by rewrite Hp, Hx).
      cbn [DocumentAgent.generateAll]. rewrite Hp, Hx. simpl.
      destruct (IH (acc ++ [p; x])) as (new & -> & Hmap & Hall).
      destruct (Hdoc _ _ _ Hp) as (? & ? & ? & ? & ?).
      destruct (Hdoc _ _ _ Hx) as (? & ? & ? & ? & ?).
      exists (p :: x :: new). rewrite <- app_assoc. split; [done|].
      simpl. split.
      * rewrite Hmap. by repeat f_equal.
      * by repeat constructor.
    + rewrite filter_cons_False by (rewrite Hx; by intros [_ ?]).
      cbn [DocumentAgent.generateAll]. rewrite Hp, Hx. simpl.
      destruct (IH acc) as (new & -> & Hmap & Hall). by exists new.
    + rewrite filter_cons_False by (rewrite Hp; by intros [? _]).
      cbn [DocumentAgent.generateAll]. rewrite Hp. simpl.
      destruct (IH acc) as (new & -> & Hmap & Hall). by exists new.
Qed.

(** X28: the drafting task adds documents in pairs.  For each document
    type it needs, in order, it adds the PDF and then the DOCX document
    when both could be generated, and neither when one of them failed;
    the documents the case had come first and are unchanged.  Each added
    document belongs to the case, has version 1, and has status
    [approved] when it passes the validation and [review] when not,
    never [draft]. *)
Theorem drafting_adds_documents_in_pairs
    (env : DocumentGeneratorService.Env) (caseData : LegalCase) :
  exists new,
    DocumentAgent.executeTask env caseData
    = Returned {| id := id caseData;
                  plaintiffInfo := plaintiffInfo caseData;
                  caseDetails := caseDetails caseData;
                  status := status caseData;
                  workflowStage := review_and_revision;
                  documents := documents caseData ++ new |}
    /\ map (fun d => (doc_type d, doc_format d)) new
       = flat_map (fun ty => [(ty, pdf); (ty, docx)])
           (filter (fun ty =>
                      isReturned (DocumentGeneratorService.generateDocument
                                    env caseData ty pdf) = true
                      /\ isReturned (DocumentGeneratorService.generateDocument
                                       env caseData ty docx) = true)
                   (DocumentAgent.determineDocumentsNeeded caseData))
    /\ Forall (fun d =>
                 doc_caseId d = id caseData
                 /\ doc_version d = 1
                 /\ doc_status d
                    = (if DocumentGeneratorService.isValid d
                       then approved else review)) new.
Proof.
  unfold DocumentAgent.executeTask.
  destruct (generateAll_pairs env caseData
              (DocumentAgent.determineDocumentsNeeded caseData) [])
    as (new & -> & Hmap & Hall).
  simpl. exists (DocumentAgent.validateAll new). split_and!; [done| |].
  - rewrite <- Hmap. unfold DocumentAgent.validateAll.
    rewrite map_map. apply map_ext. intros d.
    by destruct (DocumentGeneratorService.isValid d).
  - unfold DocumentAgent.validateAll. rewrite Forall_forall in Hall.
    apply Forall_forall. intros d Hd. apply list_elem_of_In in Hd.
    apply in_map_iff in Hd as (d0 & <- & Hd0). apply list_elem_of_In in Hd0.
    destruct (Hall d0 Hd0) as (Hid & Hv & _).
    unfold DocumentGeneratorService.isValid.
    destruct (negb _ && negb _) eqn:Hvalid; simpl; rewrite Hvalid; done.
Qed.

(** X29: every case needs between one and five document types; for a
    critical case the motion comes first, for a case of high complexity
    the brief comes last; so the drafting task asks the generation
    service for at most ten documents. *)
Theorem determineDocumentsNeeded_bounds (caseData : LegalCase) :
  (1 <= length (DocumentAgent.determineDocumentsNeeded caseData) <= 5)%nat
  /\ (urgency (plaintiffInfo caseData) = Urgency.critical ->
      head (DocumentAgent.determineDocumentsNeeded caseData) = Some motion)
  /\ (complexity (caseDetails caseData) = Complexity.high ->
      last (DocumentAgent.determineDocumentsNeeded caseData) = Some brief)
  /\ (length
        (flat_map (fun ty => [(ty, pdf); (ty, docx)])
           (DocumentAgent.determineDocumentsNeeded caseData)) <= 10)%nat.
Proof.
  assert (1 <= length (DocumentAgent.determineDocumentsNeeded caseData) <= 5)%nat
    as Hlen.
  { unfold DocumentAgent.determineDocumentsNeeded,
      DocumentAgent.documentsBeforeDedup.
    destruct (category (caseDetails caseData)),
      (complexity (caseDetails caseData)),
      (urgency (plaintiffInfo caseData)); vm_compute; lia. }
  split_and!; [lia|lia| | |].
  - intros Hu. by destruct (determineDocumentsNeeded_critical caseData Hu)
      as (rest & -> & _).
  - apply determineDocumentsNeeded_high.
  - rewrite (length_flat_map (fun ty : DocumentType => [(ty, pdf); (ty, docx)])).
    clear -Hlen.
    induction (DocumentAgent.determineDocumentsNeeded caseData) as [|ty l IH];
      simpl in *; [lia|].
    destruct l; simpl in *; try lia.
    destruct l; simpl in *; try lia.
    destruct l; simpl in *; try lia.
    destruct l; simpl in *; try lia.
    destruct l; simpl in *; lia.
Qed.

(** ** GeminiService: token estimates and defaults *)

Lemma string_length_append (s1 s2 : string) :
  String.length (s1 +:+ s2) = (String.length s1 + String.length s2)%nat.
Proof. induction s1 as [|c s1 IH]; simpl; [done|]. by rewrite IH. Qed.

(** X30: the token usage [generateContent] reports is consistent: every
    count is a quarter of a length rounded up, the total is at most the
    sum of the prompt and the completion counts and falls short of it by
    at most one, and the prompt count covers the text [User: ] and the
    prompt of the request, so it is at least 2. *)
Theorem token_usage_is_consistent (env : GeminiService.Env)
    (context : option string) (request : GeminiRequest)
    (response : GeminiResponse) (usage : GeminiService.Usage) :
  GeminiService.generateContent env context request
  = Returned (response, usage) ->
  GeminiService.totalTokens usage
  <= GeminiService.promptTokens usage + GeminiService.completionTokens usage
  /\ GeminiService.promptTokens usage + GeminiService.completionTokens usage
     <= GeminiService.totalTokens usage + 1
  /\ 0 <= GeminiService.completionTokens usage
  /\ 2 <= GeminiService.promptTokens usage
  /\ Z.of_nat (String.length (prompt request))
     <= 4 * GeminiService.promptTokens usage.
Proof.
  unfold GeminiService.generateContent.
  destruct (GeminiService.model_generateContent env _ _ _) as [content|];
    simpl; [|done].
  intros [= <- <-]. simpl. unfold GeminiService.estimateTokens.
  rewrite string_length_append.
  assert (6 + String.length (prompt request)
          <= String.length (GeminiService.buildPrompt context request))%nat
    as Hprompt.
  { unfold GeminiService.buildPrompt.
    rewrite !string_length_append. simpl. lia. }
  split_and!; Z.div_mod_to_equations; lia.
Qed.

Lemma token_usage_is_consistent_witness :
  GeminiService.totalTokens Fixtures.helloUsage
  <= GeminiService.promptTokens Fixtures.helloUsage
     + GeminiService.completionTokens Fixtures.helloUsage
  /\ GeminiService.promptTokens Fixtures.helloUsage
     + GeminiService.completionTokens Fixtures.helloUsage
     <= GeminiService.totalTokens Fixtures.helloUsage + 1
  /\ 0 <= GeminiService.completionTokens Fixtures.helloUsage
  /\ 2 <= GeminiService.promptTokens Fixtures.helloUsage
  /\ Z.of_nat (String.length (prompt Fixtures.helloRequest))
     <= 4 * GeminiService.promptTokens Fixtures.helloUsage.
Proof.
  apply (token_usage_is_consistent Fixtures.echoModel None
           Fixtures.helloRequest
           {| response_content := "Connection successful";
              response_model := "gemini-2.0-flash-exp" |}
           Fixtures.helloUsage).
  vm_compute. reflexivity.
Defined.

(** [generateContent] treats a temperature of 0 and a token limit of
    0 as missing: such a request is sent to the model with temperature 0.7
    and 2000 tokens, and gives exactly what the request without these
    fields gives.  An error of the model is thrown with the prefix
    [Gemini API error: ], and [testConnection] never throws: it answers
    [true] when the model answered its greeting and [false] when not. *)
Lemma zero_temperature_is_replaced_by_default (env : GeminiService.Env)
    (context : option string) (text : string) (system : option string) :
  GeminiService.generateContent env context
    {| prompt := text; systemPrompt := system;
       temperature := Some 0%Q; maxTokens := Some 0 |}
  = GeminiService.generateContent env context
      {| prompt := text; systemPrompt := system;
         temperature := None; maxTokens := None |}
  /\ (forall request m,
        GeminiService.model_generateContent env
          (GeminiService.buildPrompt context request)
          (or_default_Q (temperature request) (7 # 10))
          (or_default_Z (maxTokens request) 2000) = Threw m ->
        GeminiService.generateContent env context request
        = Threw ("Gemini API error: " +:+ m))
  /\ exists answer,
       GeminiService.testConnection env = Returned answer
       /\ answer
          = isReturned
              (GeminiService.model_generateContent env
                 ("User: Hello, please respond with " +:+ quote
                  +:+ "Connection successful" +:+ quote)
                 (7 # 10) 50).
Proof.
  split_and!.
  - done.
  - intros request m Hm. unfold GeminiService.generateContent.
    by rewrite Hm.
  - unfold GeminiService.testConnection, GeminiService.generateContent.
    simpl.
    destruct (GeminiService.model_generateContent env _ _ _); simpl;
      by eexists.
Qed.
